(** * Bifrost: the Python <-> Node.js process bridge ([bifrost/py_nodejs.py])

    A shallow embedding of the classes [NodeSTDProc] and [Node] of
    [py_nodejs.py], together with the few pieces of the Python runtime
    they rely on ([hex], [str.zfill], [str.strip], [json.dumps],
    [json.loads], [str.encode]).

    Conventions.
    - A Python [str] is the list of its code points ([list N]); a Python
      [bytes] object is a [list byte].
    - The module-level global [NODE_IS_RUNNING], the companion process, the
      monitor thread and the heap of [dict] objects are fields of one
      record [world] that every method threads along.
    - Every method also returns the list of events it performed, in program
      order, each tagged with the thread that performed it.
    - What a call of [Node.run] does not control is given to it as a
      scenario ([env]): whether the pipe accepts the frame, the bytes the
      monitor thread reads between two polls of the flag, the clock
      readings, the delivery of an interrupt, and the variables pulled.
      When the scenario ends while [run] is still in its wait loop the
      outcome is [Spin]; when [run] waits for a lock that will not be
      released it is [Deadlock]. *)

From Stdlib Require Import NArith ZArith List Ascii String Lia DecimalString.
From Stdlib Require Import Init.Byte Strings.Byte.
From Stdlib Require Import DecimalPos.
From stdpp Require Import gmap.

Local Open Scope N_scope.
Set Warnings "-register-all".

(** ** Python strings and bytes *)

Definition str := list N.
Definition bytes := list byte.

(** String literals of the source, as code points. *)
Fixpoint lit (s : string) : str :=
  match s with
  | EmptyString => []
  | String c r => N_of_ascii c :: lit r
  end.

Arguments lit : simpl never.

Definition byte_of_N (n : N) : byte :=
  match Byte.of_N n with
  | Some b => b
  | None => x00
  end.

(** [len(s)] *)
Definition len {A} (s : list A) : N := N.of_nat (length s).

(** ** [hex(n)] for a non-negative [int] *)

Definition hexdigit (d : N) : N := if d <? 10 then 48 + d else 87 + d.

(** Digits of [n] in base 16, least significant first. *)
Fixpoint hex_le (fuel : nat) (n : N) : list N :=
  match fuel with
  | O => []
  | S f =>
      if n <? 16 then [hexdigit n]
      else hexdigit (n mod 16) :: hex_le f (n / 16)
  end.

Definition hex (n : N) : str :=
  lit "0x" ++ rev (hex_le (S (N.to_nat (N.log2 n))) n).

(** ** [s.zfill(width)] *)

Definition is_sign (c : N) : bool := (c =? 43) || (c =? 45).

Definition zfill (width : nat) (s : str) : str :=
  let pad := repeat 48 (width - length s)%nat in
  match s with
  | c :: r => if is_sign c then c :: pad ++ r else pad ++ s
  | [] => pad
  end.

(** ** [json.dumps({'script': s})]

    The default encoder ([ensure_ascii=True], separators [", "] and [": "]).
    [escape_char] is the replacement function of
    [json.encoder.py_encode_basestring_ascii]. *)

Definition hex4 (n : N) : str := zfill 4 (drop 2 (hex n)).

Definition escape_char (c : N) : str :=
  if c =? 92 then [92; 92]
  else if c =? 34 then [92; 34]
  else if c =? 8 then [92; 98]
  else if c =? 12 then [92; 102]
  else if c =? 10 then [92; 110]
  else if c =? 13 then [92; 114]
  else if c =? 9 then [92; 116]
  else if (32 <=? c) && (c <=? 126) then [c]
  else if c <? 0x10000 then [92; 117] ++ hex4 c
  else
    let n := c - 0x10000 in
    let s1 := N.lor 0xd800 (N.land (N.shiftr n 10) 0x3ff) in
    let s2 := N.lor 0xdc00 (N.land n 0x3ff) in
    [92; 117] ++ hex4 s1 ++ [92; 117] ++ hex4 s2.

Definition encode_basestring_ascii (s : str) : str :=
  [34] ++ concat (map escape_char s) ++ [34].

Definition json_dumps_script (s : str) : str :=
  [123] ++ encode_basestring_ascii (lit "script") ++ lit ": "
        ++ encode_basestring_ascii s ++ [125].

(** ** [s.encode('utf-8')]

    [None] stands for [UnicodeEncodeError] (a lone surrogate, or a value
    that is not a code point). *)

Definition utf8_char (c : N) : option bytes :=
  if c <? 0x80 then Some [byte_of_N c]
  else if c <? 0x800 then
    Some [byte_of_N (N.lor 0xC0 (N.shiftr c 6));
          byte_of_N (N.lor 0x80 (N.land c 0x3F))]
  else if c <? 0x10000 then
    if (0xD800 <=? c) && (c <=? 0xDFFF) then None
    else
      Some [byte_of_N (N.lor 0xE0 (N.shiftr c 12));
            byte_of_N (N.lor 0x80 (N.land (N.shiftr c 6) 0x3F));
            byte_of_N (N.lor 0x80 (N.land c 0x3F))]
  else if c <? 0x110000 then
    Some [byte_of_N (N.lor 0xF0 (N.shiftr c 18));
          byte_of_N (N.lor 0x80 (N.land (N.shiftr c 12) 0x3F));
          byte_of_N (N.lor 0x80 (N.land (N.shiftr c 6) 0x3F));
          byte_of_N (N.lor 0x80 (N.land c 0x3F))]
  else None.

Fixpoint encode_utf8 (s : str) : option bytes :=
  match s with
  | [] => Some []
  | c :: r =>
      match utf8_char c, encode_utf8 r with
      | Some b, Some br => Some (b ++ br)
      | _, _ => None
      end
  end.

(** ** [s.strip()], [sub in s], [str(n)] *)

(** [str.isspace] on one code point. *)
Definition isspace (c : N) : bool :=
  ((9 <=? c) && (c <=? 13)) || ((28 <=? c) && (c <=? 32))
  || (c =? 0x85) || (c =? 0xA0) || (c =? 0x1680)
  || ((0x2000 <=? c) && (c <=? 0x200A))
  || (c =? 0x2028) || (c =? 0x2029) || (c =? 0x202F)
  || (c =? 0x205F) || (c =? 0x3000).

Fixpoint lstrip (s : str) : str :=
  match s with
  | c :: r => if isspace c then lstrip r else s
  | [] => []
  end.

Definition strip (s : str) : str := rev (lstrip (rev (lstrip s))).

Fixpoint startswith (s p : str) : bool :=
  match p, s with
  | [], _ => true
  | a :: p', b :: s' => (a =? b) && startswith s' p'
  | _ :: _, [] => false
  end.

(** [sub in s] *)
Fixpoint contains (sub s : str) : bool :=
  startswith s sub ||
  match s with
  | [] => false
  | _ :: r => contains sub r
  end.

(** [str(n)] for an [int]. *)
Definition str_of_int (z : Z) : str := lit (NilZero.string_of_int (Z.to_int z)).

(** ** Python values and exceptions *)

Inductive pyobj : Type :=
| PyNone
| PyBool (b : bool)
| PyInt (z : Z)
| PyFloat (lexeme : str)
| PyStr (s : str)
| PyList (l : list pyobj)
| PyDict (items : list (str * pyobj)).

Inductive exn : Type :=
| TypeError (msg : str)
| KeyError (msg : str)
| ValueError (msg : str)
| OSError (msg : str)
| UnicodeEncodeError (msg : str)
| UnicodeDecodeError (reason : str)
| KeyboardInterrupt.

(** [isinstance(e, Exception)]: what [except Exception] catches. *)
Definition is_Exception (e : exn) : bool :=
  match e with
  | KeyboardInterrupt => false
  | _ => true
  end.

(** [str(e)] *)
Definition str_of_exn (e : exn) : str :=
  match e with
  | TypeError m | KeyError m | ValueError m | OSError m
  | UnicodeEncodeError m | UnicodeDecodeError m => m
  | KeyboardInterrupt => []
  end.

(** ** [b.decode('utf-8')]

    The strict decoder, as [unicodeobject.c] has it: overlong forms,
    surrogates and values above [0x10FFFF] are refused at the first
    continuation byte, a sequence cut short by the end of the data is
    [unexpected end of data].  The result is the string, or the
    [UnicodeDecodeError] with its message. *)

Definition is_continuation (c : N) : bool := (0x80 <=? c) && (c <=? 0xBF).

(** The error for the bytes from [start] up to [stop], [c] being the first
    of them. *)
Definition decode_error (c start stop : N) (reason : string) : exn :=
  UnicodeDecodeError
    (if stop =? start + 1 then
       lit "'utf-8' codec can't decode byte 0x" ++ zfill 2 (drop 2 (hex c))
         ++ lit " in position " ++ str_of_int (Z.of_N start)
         ++ lit ": " ++ lit reason
     else
       lit "'utf-8' codec can't decode bytes in position "
         ++ str_of_int (Z.of_N start) ++ lit "-"
         ++ str_of_int (Z.of_N (stop - 1)) ++ lit ": " ++ lit reason).

Definition decoded (c : N) (r : exn + str) : exn + str :=
  match r with
  | inr s => inr (c :: s)
  | inl e => inl e
  end.

Fixpoint decode_utf8_from (pos : N) (bs : bytes) : exn + str :=
  match bs with
  | [] => inr []
  | b1 :: r1 =>
      let c1 := Byte.to_N b1 in
      let stop := pos + len bs in
      if c1 <? 0x80 then decoded c1 (decode_utf8_from (pos + 1) r1)
      else if c1 <? 0xC2 then
        inl (decode_error c1 pos (pos + 1) "invalid start byte")
      else if c1 <? 0xE0 then
        match r1 with
        | [] => inl (decode_error c1 pos stop "unexpected end of data")
        | b2 :: r2 =>
            let c2 := Byte.to_N b2 in
            if is_continuation c2 then
              decoded (N.shiftl (N.land c1 0x1F) 6 + N.land c2 0x3F)
                      (decode_utf8_from (pos + 2) r2)
            else inl (decode_error c1 pos (pos + 1) "invalid continuation byte")
        end
      else if c1 <? 0xF0 then
        match r1 with
        | [] => inl (decode_error c1 pos stop "unexpected end of data")
        | b2 :: r2 =>
            let c2 := Byte.to_N b2 in
            if negb (is_continuation c2)
               || (if c2 <? 0xA0 then c1 =? 0xE0 else c1 =? 0xED) then
              inl (decode_error c1 pos (pos + 1) "invalid continuation byte")
            else
              match r2 with
              | [] => inl (decode_error c1 pos stop "unexpected end of data")
              | b3 :: r3 =>
                  let c3 := Byte.to_N b3 in
                  if is_continuation c3 then
                    decoded (N.shiftl (N.land c1 0x0F) 12
                             + N.shiftl (N.land c2 0x3F) 6 + N.land c3 0x3F)
                            (decode_utf8_from (pos + 3) r3)
                  else
                    inl (decode_error c1 pos (pos + 2)
                                      "invalid continuation byte")
              end
        end
      else if c1 <? 0xF5 then
        match r1 with
        | [] => inl (decode_error c1 pos stop "unexpected end of data")
        | b2 :: r2 =>
            let c2 := Byte.to_N b2 in
            if negb (is_continuation c2)
               || (if c2 <? 0x90 then c1 =? 0xF0 else c1 =? 0xF4) then
              inl (decode_error c1 pos (pos + 1) "invalid continuation byte")
            else
              match r2 with
              | [] => inl (decode_error c1 pos stop "unexpected end of data")
              | b3 :: r3 =>
                  let c3 := Byte.to_N b3 in
                  if negb (is_continuation c3) then
                    inl (decode_error c1 pos (pos + 2)
                                      "invalid continuation byte")
                  else
                    match r3 with
                    | [] =>
                        inl (decode_error c1 pos stop "unexpected end of data")
                    | b4 :: r4 =>
                        let c4 := Byte.to_N b4 in
                        if is_continuation c4 then
                          decoded (N.shiftl (N.land c1 0x07) 18
                                   + N.shiftl (N.land c2 0x3F) 12
                                   + N.shiftl (N.land c3 0x3F) 6
                                   + N.land c4 0x3F)
                                  (decode_utf8_from (pos + 4) r4)
                        else
                          inl (decode_error c1 pos (pos + 3)
                                            "invalid continuation byte")
                    end
              end
        end
      else inl (decode_error c1 pos (pos + 1) "invalid start byte")
  end.

Definition decode_utf8 (bs : bytes) : exn + str := decode_utf8_from 0 bs.

(** A [dict] built from a list of pairs: the last binding of a key wins. *)
Fixpoint dict_get (key : str) (items : list (str * pyobj)) : option pyobj :=
  match items with
  | [] => None
  | (k, v) :: r =>
      match dict_get key r with
      | Some v' => Some v'
      | None => if bool_decide (k = key) then Some v else None
      end
  end.

(** [o[key]] for a [str] key. *)
Definition getitem (o : pyobj) (key : str) : exn + pyobj :=
  match o with
  | PyDict items =>
      match dict_get key items with
      | Some v => inr v
      | None => inl (KeyError key)
      end
  | PyList _ => inl (TypeError (lit "list indices must be integers or slices, not str"))
  | PyStr _ => inl (TypeError (lit "string indices must be integers"))
  | _ => inl (TypeError (lit "object is not subscriptable"))
  end.

(** [o == s] for a [str] [s]. *)
Definition eq_str (o : pyobj) (s : str) : bool :=
  match o with
  | PyStr t => bool_decide (t = s)
  | _ => false
  end.

(** ** Events

    The classes [ReadWriteLock] and [VariableSync] are imported by
    [py_nodejs.py] from modules that are not among the sources.  Their
    calls are recorded as events; what [syncfrom] returns is part of the
    scenario of a run ([pulled] below). *)

Inductive thread : Type := Coordinator | Monitor.

Inductive event : Type :=
| acquire_write                 (* NODE_LOCK.acquire_write() *)
| release_write                 (* NODE_LOCK.release_write() *)
| acquire_read                  (* NODE_LOCK.acquire_read() *)
| release_read                  (* NODE_LOCK.release_read() *)
| new_lock                      (* NODE_LOCK = ReadWriteLock() *)
| read_flag (b : bool)          (* a read of NODE_IS_RUNNING, and its value *)
| write_flag (b : bool)         (* NODE_IS_RUNNING = b *)
| kill (p : N)                  (* os.kill(p, signal.SIGTERM) *)
| stop_monitor                  (* self.nstdproc.stop() *)
| spawn (p : N)                 (* Popen(...) and NodeSTDProc(self.process) *)
| stdin_write (p : N) (data : bytes)   (* self.process.stdin.write(data) *)
| stdin_flush (p : N)           (* self.process.stdin.flush() *)
| print (s : str)               (* print(s) *)
| syncto (vars : gmap str pyobj)    (* self.vs.syncto(vars, ...) *)
| syncfrom (vars : gmap str pyobj). (* self.vs.syncfrom(...) and its result *)

Definition trace := list (thread * event).

(** ** The lock

    Modelled from the spec: [ReadWriteLock] is missing from the sources;
    the spec describes it as a multiple-reader/single-writer lock guarding
    the flag.  A thread holds it in read mode between its [acquire_read]
    and [release_read], in write mode between its [acquire_write] and
    [release_write].  [acquire_write] returns once no thread holds the lock
    in either mode: a thread that asks for the write lock while it holds
    the lock itself waits for ever ([Deadlock] below).  The events of a
    trace are the acquisitions that were granted. *)
Record held : Type := Held { readers : nat; writer : bool }.

Definition nothing_held : held := Held 0 false.

Definition step_held (h : held) (e : event) : held :=
  match e with
  | acquire_read => Held (S (readers h)) (writer h)
  | release_read => Held (pred (readers h)) (writer h)
  | acquire_write => Held (readers h) true
  | release_write => Held (readers h) false
  | new_lock => nothing_held
  | _ => h
  end.

(** What the coordinator holds after the events [tr], when it held [h]
    before them. *)
Fixpoint coordinator_holds (h : held) (tr : trace) : held :=
  match tr with
  | [] => h
  | (Coordinator, e) :: r => coordinator_holds (step_held h e) r
  | (Monitor, new_lock) :: r => coordinator_holds nothing_held r
  | (Monitor, _) :: r => coordinator_holds h r
  end.

(** ** The state *)

Definition loc := positive.

Record world : Type := World {
  NODE_IS_RUNNING : bool;       (* the module global *)
  pid : N;                      (* self.process.pid *)
  reaped : bool;                (* self.process.poll() has returned an exit code *)
  stop_event : bool;            (* self.nstdproc._stop_event.is_set() *)
  monitor_alive : bool;         (* the thread self.nstdproc is still in its loop *)
  next_pid : N;                 (* the next process id the system hands out *)
  heap : gmap loc (gmap str pyobj)  (* the dict objects *)
}.

(** The dict created once, when [def run(self, script, vars = {}, ...)] is
    evaluated: the default value of [vars]. *)
Definition run_default_vars : loc := 1%positive.

(** ** A monad for methods: state, exceptions, and the events performed *)

Inductive outcome (A : Type) : Type :=
| Val (a : A)          (* returned a *)
| Exc (e : exn)        (* raised e *)
| Spin                 (* still in the wait loop when the scenario ends *)
| Deadlock.             (* waiting for ever in NODE_LOCK.acquire_write() *)
Arguments Val {A} a.
Arguments Exc {A} e.
Arguments Spin {A}.
Arguments Deadlock {A}.

Record result (A : Type) : Type := Result {
  out : outcome A;
  post : world;
  evs : trace
}.
Arguments Result {A} out post evs.
Arguments out {A} r.
Arguments post {A} r.
Arguments evs {A} r.

Definition M (A : Type) : Type := world -> result A.

Definition ret {A} (a : A) : M A := fun w => Result (Val a) w [].

Definition bind {A B} (m : M A) (k : A -> M B) : M B := fun w =>
  match m w with
  | Result (Val a) w1 l1 =>
      match k a w1 with
      | Result o w2 l2 => Result o w2 (l1 ++ l2)
      end
  | Result (Exc e) w1 l1 => Result (Exc e) w1 l1
  | Result Spin w1 l1 => Result Spin w1 l1
  | Result Deadlock w1 l1 => Result Deadlock w1 l1
  end.

Declare Scope M_scope.
Delimit Scope M_scope with M.
Bind Scope M_scope with M.
Notation "x <- m ;; k" := (bind m (fun x => k))
  (at level 100, m at next level, k at level 200, right associativity) : M_scope.
Notation "m ;; k" := (bind m (fun _ => k)) : M_scope.
Local Open Scope M_scope.

Definition raise {A} (e : exn) : M A := fun w => Result (Exc e) w [].
Definition spin {A} : M A := fun w => Result Spin w [].
Definition deadlock {A} : M A := fun w => Result Deadlock w [].
Definition emit (t : thread) (e : event) : M unit :=
  fun w => Result (Val tt) w [(t, e)].
Definition get : M world := fun w => Result (Val w) w [].
Definition put (w : world) : M unit := fun _ => Result (Val tt) w [].

(** [try: body except Exception as e: handler(e)] *)
Definition try_except {A} (body : M A) (handler : exn -> M A) : M A := fun w =>
  match body w with
  | Result (Exc e) w1 l1 =>
      if is_Exception e then
        match handler e w1 with
        | Result o w2 l2 => Result o w2 (l1 ++ l2)
        end
      else Result (Exc e) w1 l1
  | r => r
  end.

(** [try: body except KeyboardInterrupt: handler], in the coordinator,
    entered with nothing held of the lock.  The handler starts with what
    the body acquired and has not released when the interrupt came. *)
Definition try_except_KeyboardInterrupt {A} (body : M A)
           (handler : held -> M A) : M A :=
  fun w =>
  match body w with
  | Result (Exc KeyboardInterrupt) w1 l1 =>
      match handler (coordinator_holds nothing_held l1) w1 with
      | Result o w2 l2 => Result o w2 (l1 ++ l2)
      end
  | r => r
  end.

Definition lift {A} (r : exn + A) : M A :=
  match r with
  | inl e => raise e
  | inr a => ret a
  end.

(** [NODE_IS_RUNNING = b] by thread [t] *)
Definition set_running (t : thread) (b : bool) : M unit :=
  w <- get ;;
  put (World b (pid w) (reaped w) (stop_event w) (monitor_alive w)
             (next_pid w) (heap w)) ;;
  emit t (write_flag b).

(** An expression reading [NODE_IS_RUNNING] in thread [t] *)
Definition get_running (t : thread) : M bool :=
  w <- get ;;
  emit t (read_flag (NODE_IS_RUNNING w)) ;;
  ret (NODE_IS_RUNNING w).

(** Field updates of the state. *)
Definition with_reaped (b : bool) (w : world) : world :=
  World (NODE_IS_RUNNING w) (pid w) b (stop_event w) (monitor_alive w)
        (next_pid w) (heap w).
Definition with_stop_event (b : bool) (w : world) : world :=
  World (NODE_IS_RUNNING w) (pid w) (reaped w) b (monitor_alive w)
        (next_pid w) (heap w).
Definition with_monitor_alive (b : bool) (w : world) : world :=
  World (NODE_IS_RUNNING w) (pid w) (reaped w) (stop_event w) b
        (next_pid w) (heap w).
Definition with_heap (h : gmap loc (gmap str pyobj)) (w : world) : world :=
  World (NODE_IS_RUNNING w) (pid w) (reaped w) (stop_event w)
        (monitor_alive w) (next_pid w) h.

(** [NODE_LOCK.acquire_write(); NODE_IS_RUNNING = False;
    NODE_LOCK.release_write()], as it occurs five times in the source. *)
Definition clear_running (t : thread) : M unit :=
  emit t acquire_write ;;
  set_running t false ;;
  emit t release_write.

(** [NODE_LOCK.acquire_write()] by the coordinator when it holds [h]. *)
Definition acquire_write_holding (h : held) : M unit :=
  if writer h || negb (Nat.eqb (readers h) 0) then deadlock
  else emit Coordinator acquire_write.

(** ** What the bridge does not control *)

(** The outcome of [stdin.write(..)] followed by [stdin.flush()]: both go
    through, one of them raises an [OSError], or a [KeyboardInterrupt] is
    delivered while [stdin.write] waits for the pipe. *)
Inductive pipe_outcome : Type :=
| PipeOk
| WriteRaises (msg : str)
| FlushRaises (msg : str)
| WriteInterrupted.

(** One iteration of the monitor: the bytes that [readline()] returned and
    the value of [self.process.poll()]. *)
Definition mon_input : Type := bytes * option Z.

(** Where in an iteration of the wait loop a [KeyboardInterrupt] is
    delivered: at the test of [while flag] (line 294, outside the [try]);
    in the [try], before [acquire_read] (line 296), between [acquire_read]
    and [release_read] (after line 297), after [release_read] (line 299);
    in the timeout branch, after [cancel()] returned (line 302), between
    [acquire_write] and [release_write] (after line 303), and after
    [release_write] (line 305).  A point of the timeout branch is reached
    only when the timeout has passed. *)
Inductive ipoint : Type :=
| AtLoopTest
| BeforeAcquire | HoldingRead | AfterRelease
| AfterCancel | HoldingWrite | AfterForcing.

Definition ipoint_eqb (p q : ipoint) : bool :=
  match p, q with
  | AtLoopTest, AtLoopTest
  | BeforeAcquire, BeforeAcquire
  | HoldingRead, HoldingRead
  | AfterRelease, AfterRelease
  | AfterCancel, AfterCancel
  | HoldingWrite, HoldingWrite
  | AfterForcing, AfterForcing => true
  | _, _ => false
  end.

(** One iteration of the wait loop of [Node.run]: what the monitor thread
    did since the previous one, whether an interrupt is delivered, and the
    value of [time.time()] in the timeout test. *)
Record tick : Type := Tick {
  mon : list mon_input;
  interrupt : option ipoint;
  now : Z
}.

(** The scenario of one call of [Node.run]. *)
Record env : Type := Env {
  pipe : pipe_outcome;
  early : list mon_input;   (* monitor iterations before the flag is first sampled *)
  start : Z;                (* start = time.time() *)
  ticks : list tick;
  pulled : gmap str pyobj   (* the dict returned by self.vs.syncfrom *)
}.

(** ** [Node.write], lines 330-347: the bytes handed to [stdin.write] *)

Definition build_frame (s : str) : exn + bytes :=
  let msg_json := json_dumps_script s in
  let msg_length_int := len msg_json in
  let msg_length_hex := hex msg_length_int in
  let msg_length_str := drop 2 msg_length_hex in
  if (8 <? len msg_length_str) || (16 ^ 8 <=? msg_length_int) then
    (* raise("Script size exceeds Node.js string limit:", ...): a tuple is raised *)
    inl (TypeError (lit "exceptions must derive from BaseException"))
  else
    let msg_head := lit "E" ++ zfill 8 msg_length_str ++ lit "C" in
    let string_to_send := msg_head ++ msg_json in
    match encode_utf8 string_to_send with
    | Some string_encoded => inr string_encoded
    | None => inl (UnicodeEncodeError (lit "surrogates not allowed"))
    end.

(** [merge]: [for key in new_vars.keys(): vars[key] = new_vars[key]] *)
Definition merge_vars (vars new_vars : gmap str pyobj) : gmap str pyobj :=
  foldl (fun d key =>
           match new_vars !! key with
           | Some v => <[key := v]> d
           | None => d
           end)
        vars (map_to_list new_vars).*1.

Section Bridge.

(** [json.loads] of the standard library; [None] when it raises. *)
Variable json_loads : str -> option pyobj.

(** *** [Node.init_process]

    [Popen] starts a new companion process and [NodeSTDProc] a new monitor
    for it.  The system hands out process ids in increasing order: the new
    process never gets the id of an earlier one.  (The arguments and the
    environment of the process play no part here.)

    The scenarios of this development are those in which [Popen] and
    [Thread.start] succeed.  When one of them raises, the exception leaves
    [init_process], and [cancel], which calls it outside its [try]
    statements: that is the spawn failure of the spec, surfaced to the
    caller, and no statement below is about it. *)
Definition init_process : M unit :=
  w <- get ;;
  put (World (NODE_IS_RUNNING w) (next_pid w) false false true
             (N.succ (next_pid w)) (heap w)) ;;
  emit Coordinator (spawn (next_pid w)).

(** *** [NodeSTDProc.stop] *)
Definition stop : M unit :=
  w <- get ;;
  put (with_stop_event true w) ;;
  emit Coordinator stop_monitor.

(** [os.kill(self.process.pid, signal.SIGTERM)] *)
Definition os_kill : M unit :=
  w <- get ;;
  if reaped w then raise (OSError (lit "[Errno 3] No such process"))
  else emit Coordinator (kill (pid w)).

(** *** [Node.cancel] *)
Definition cancel (restart : bool) : M unit :=
  try_except (os_kill ;; stop)
             (fun e => emit Coordinator (print (str_of_exn e))) ;;
  try_except stop
             (fun e => emit Coordinator (print (str_of_exn e))) ;;
  if restart then init_process else ret tt.

(** *** [Node.clear] *)
Definition clear : M unit := cancel true.

(** *** [Node.clean_lock] *)
Definition clean_lock : M unit :=
  set_running Coordinator false ;;
  emit Coordinator new_lock.

(** [self.process.stdin.write(string_encoded); self.process.stdin.flush()] *)
Definition stdin_write_flush (p : pipe_outcome) (data : bytes) : M unit :=
  w <- get ;;
  match p with
  | WriteInterrupted => raise KeyboardInterrupt
  | WriteRaises m => raise (OSError m)
  | FlushRaises m =>
      emit Coordinator (stdin_write (pid w) data) ;;
      raise (OSError m)
  | PipeOk =>
      emit Coordinator (stdin_write (pid w) data) ;;
      emit Coordinator (stdin_flush (pid w))
  end.

(** *** [Node.write] *)
Definition write (p : pipe_outcome) (s : str) : M Z :=
  try_except
    (string_encoded <- lift (build_frame s) ;;
     stdin_write_flush p string_encoded ;;
     ret 1%Z)
    (fun e =>
       (if contains (lit "Broken pipe") (str_of_exn e) then
          cancel true ;;
          emit Coordinator (print (lit "Pipe broke and was restarted"))
        else
          cancel true ;;
          emit Coordinator (print (lit "Pipe died for some reason: ")) ;;
          emit Coordinator (print (str_of_exn e))) ;;
       clear_running Coordinator ;;
       ret (-1)%Z).

(** *** [NodeSTDProc.run] *)

Inductive loop_ctl : Type := Continue | Break.

(** [if (output and len(output.strip()) > 0): print(output.strip())] *)
Definition print_stripped (output : str) : M unit :=
  if negb (bool_decide (output = [])) && (0 <? len (strip output)) then
    emit Monitor (print (strip output))
  else ret tt.

(** The body of the [while] loop, when [readline()] returned [raw] and
    with [poll] the value of [self.process.poll()].  The line is decoded
    first (line 158), outside the [try]. *)
Definition monitor_iter (raw : bytes) (poll : option Z) : M loop_ctl :=
  output <- lift (decode_utf8 raw) ;;
  if bool_decide (poll <> None) then
    w <- get ;;
    put (with_reaped true w) ;;
    clear_running Monitor ;;
    ret Break
  else if bool_decide (output = []) then ret Continue
  else if negb (bool_decide (output = [])) then
    try_except
      (output_json <- lift (match json_loads output with
                            | Some o => inr o
                            | None => inl (ValueError (lit "JSONDecodeError"))
                            end) ;;
       ty <- lift (getitem output_json (lit "type")) ;;
       (if eq_str ty (lit "done") then clear_running Monitor
        else print_stripped output) ;;
       ret Continue)
      (fun e => print_stripped output ;; ret Continue)
  else ret Continue.

(** The thread has left [run]. *)
Definition thread_ends : M unit :=
  w <- get ;; put (with_monitor_alive false w).

(** The loop [while not self._stop_event.is_set()] of the monitor of the
    current process ([self.nstdproc]), fed with what its successive calls
    of [readline] return.  A thread that is alive has passed the test of
    the loop and waits in [readline]: it handles the line it gets whether
    or not [stop()] was called meanwhile, and tests the event after that.
    When the inputs are used up the thread waits in [readline] again.

    The monitor of a process that [cancel] has replaced is no longer
    [self.nstdproc] and is not followed: what it still reads of the killed
    process is not among the inputs of a scenario. *)
Fixpoint NodeSTDProc_run (inputs : list mon_input) : M unit :=
  match inputs with
  | [] => ret tt
  | (raw, poll) :: rest =>
      w <- get ;;
      if negb (monitor_alive w) then ret tt
      else
        c <- monitor_iter raw poll ;;
        match c with
        | Break => thread_ends
        | Continue =>
            w' <- get ;;
            if stop_event w' then thread_ends else NodeSTDProc_run rest
        end
  end.

(** [run] as [threading] calls it in the thread started by
    [NodeSTDProc.__init__]: an exception that leaves [run] ends the thread
    (its traceback goes to the standard error stream) and reaches no other
    thread. *)
Definition Thread_bootstrap (run : M unit) : M unit := fun w =>
  match run w with
  | Result (Exc e) w1 l1 => Result (Val tt) (with_monitor_alive false w1) l1
  | r => r
  end.

(** What the monitor thread does with the inputs it gets. *)
Definition monitor_thread (inputs : list mon_input) : M unit :=
  Thread_bootstrap (NodeSTDProc_run inputs).

(** *** [Node.run] *)

Definition interrupt_at (p : ipoint) (t : tick) : M unit :=
  match interrupt t with
  | Some q => if ipoint_eqb p q then raise KeyboardInterrupt else ret tt
  | None => ret tt
  end.

(** The [try] statement that is the body of [while flag]. *)
Definition wait_body (timeout : option Z) (start : Z) (t : tick) : M bool :=
  try_except_KeyboardInterrupt
    (interrupt_at BeforeAcquire t ;;
     emit Coordinator acquire_read ;;
     flag <- get_running Coordinator ;;
     interrupt_at HoldingRead t ;;
     emit Coordinator release_read ;;
     interrupt_at AfterRelease t ;;
     match timeout with
     | Some T =>
         if (T <? now t - start)%Z then
           cancel true ;;
           interrupt_at AfterCancel t ;;
           emit Coordinator acquire_write ;;
           set_running Coordinator false ;;
           interrupt_at HoldingWrite t ;;
           emit Coordinator release_write ;;
           interrupt_at AfterForcing t ;;
           emit Coordinator
                (print (lit "Process took longer than " ++ str_of_int T))
         else ret tt
     | None => ret tt
     end ;;
     ret flag)
    (fun h =>
       cancel true ;;
       acquire_write_holding h ;;
       set_running Coordinator false ;;
       emit Coordinator release_write ;;
       emit Coordinator (print (lit "Process was interrupted.")) ;;
       raise KeyboardInterrupt).

(** One iteration of [while flag: ...]: the test of the loop, which is not
    inside the [try], and the body. *)
Definition wait_iter (timeout : option Z) (start : Z) (t : tick) : M bool :=
  interrupt_at AtLoopTest t ;;
  wait_body timeout start t.

(** [while flag: ...], one [tick] per iteration: what the monitor thread
    did meanwhile, and the iteration. *)
Fixpoint wait_loop (timeout : option Z) (start : Z) (flag : bool)
         (ts : list tick) {struct ts} : M unit :=
  if flag then
    match ts with
    | [] => spin
    | t :: rest =>
        monitor_thread (mon t) ;;
        flag' <- wait_iter timeout start t ;;
        wait_loop timeout start flag' rest
    end
  else ret tt.

(** [vars] is the dict object passed by the caller, or [None] when the
    argument is omitted; the result is [None] for the bare [return], the
    dict object for [return vars]. *)
Definition run (script : str) (vars : option loc) (timeout : option Z)
           (e : env) : M (option loc) :=
  let vars := default run_default_vars vars in
  w <- get ;;
  emit Coordinator (syncto (default ∅ (heap w !! vars))) ;;
  emit Coordinator acquire_write ;;
  set_running Coordinator true ;;
  emit Coordinator release_write ;;
  retCode <- write (pipe e) script ;;
  if (retCode <? 0)%Z then
    emit Coordinator (print (lit "Could not run script")) ;;
    ret None
  else
    monitor_thread (early e) ;;
    flag <- get_running Coordinator ;;
    wait_loop timeout (start e) flag (ticks e) ;;
    emit Coordinator (syncfrom (pulled e)) ;;
    w1 <- get ;;
    put (with_heap (<[vars := merge_vars (default ∅ (heap w1 !! vars))
                                         (pulled e)]> (heap w1)) w1) ;;
    ret (Some vars).

End Bridge.

(** ** [json.loads]

    A reader for the JSON grammar as [json.decoder] and [json.scanner]
    implement it in Python 3.11 (the default decoder: [strict=True], the
    constants [NaN], [Infinity] and [-Infinity] accepted).  A float keeps
    its lexeme.  It is the instance of [json_loads] at which the scenarios
    below are run. *)
Module JSON.

Definition is_ws (c : N) : bool :=
  (c =? 32) || (c =? 9) || (c =? 10) || (c =? 13).

Fixpoint skip_ws (s : str) : str :=
  match s with
  | c :: r => if is_ws c then skip_ws r else s
  | [] => []
  end.

Definition is_digit (c : N) : bool := (48 <=? c) && (c <=? 57).

Fixpoint span_digits (s : str) : str * str :=
  match s with
  | c :: r =>
      if is_digit c then let '(d, r') := span_digits r in (c :: d, r')
      else ([], s)
  | [] => ([], [])
  end.

Definition hexval_any (c : N) : option N :=
  if is_digit c then Some (c - 48)
  else if (97 <=? c) && (c <=? 102) then Some (c - 87)
  else if (65 <=? c) && (c <=? 70) then Some (c - 55)
  else None.

(** The four hexadecimal digits of a [\uXXXX] escape. *)
Definition scan_u (s : str) : option (N * str) :=
  match s with
  | a :: b :: c :: d :: r =>
      match hexval_any a, hexval_any b, hexval_any c, hexval_any d with
      | Some a, Some b, Some c, Some d =>
          Some (((a * 16 + b) * 16 + c) * 16 + d, r)
      | _, _, _, _ => None
      end
  | _ => None
  end.

Definition simple_escape (c : N) : option N :=
  if c =? 34 then Some 34
  else if c =? 92 then Some 92
  else if c =? 47 then Some 47
  else if c =? 98 then Some 8
  else if c =? 102 then Some 12
  else if c =? 110 then Some 10
  else if c =? 114 then Some 13
  else if c =? 116 then Some 9
  else None.

Definition push (c : N) (r : option (str * str)) : option (str * str) :=
  match r with
  | Some (s, rest) => Some (c :: s, rest)
  | None => None
  end.

(** The characters of a string after its opening quote. *)
Fixpoint scanstring (fuel : nat) (s : str) : option (str * str) :=
  match fuel with
  | O => None
  | S f =>
      match s with
      | [] => None
      | c :: r =>
          if c =? 34 then Some ([], r)
          else if c =? 92 then
            match r with
            | [] => None
            | e :: r1 =>
                if e =? 117 then
                  match scan_u r1 with
                  | None => None
                  | Some (u, r2) =>
                      if (0xD800 <=? u) && (u <=? 0xDBFF) then
                        match r2 with
                        | 92 :: 117 :: r3 =>
                            match scan_u r3 with
                            | Some (u2, r4) =>
                                if (0xDC00 <=? u2) && (u2 <=? 0xDFFF) then
                                  push (0x10000 + (u - 0xD800) * 0x400
                                        + (u2 - 0xDC00))
                                       (scanstring f r4)
                                else push u (scanstring f r2)
                            | None => None
                            end
                        | _ => push u (scanstring f r2)
                        end
                      else push u (scanstring f r2)
                  end
                else
                  match simple_escape e with
                  | Some c' => push c' (scanstring f r1)
                  | None => None
                  end
            end
          else if c <? 32 then None
          else push c (scanstring f r)
      end
  end.

Definition decimal_value (ds : str) : Z :=
  fold_left (fun acc d => (acc * 10 + Z.of_N (d - 48))%Z) ds 0%Z.

(** The limit on the number of digits that [int] converts
    ([sys.get_int_max_str_digits()] as the interpreter starts). *)
Definition max_str_digits : N := 4300.

(** A number at the head of [s].  An integer is converted by [int], which
    raises [ValueError] above the limit; a number with a fraction or an
    exponent is converted by [float]. *)
Definition match_number (s : str) : option (pyobj * str) :=
  let '(neg, s1) := match s with
                    | 45 :: r => (true, r)
                    | _ => (false, s)
                    end in
  let int_part :=
    match s1 with
    | c :: r =>
        if (49 <=? c) && (c <=? 57) then
          let '(d, r') := span_digits r in Some (c :: d, r')
        else if c =? 48 then Some ([48], r)
        else None
    | [] => None
    end in
  match int_part with
  | None => None
  | Some (ip, s2) =>
      let '(frac, s3) :=
        match s2 with
        | 46 :: c :: r =>
            if is_digit c then
              let '(d, r') := span_digits (c :: r) in (46 :: d, r')
            else ([], s2)
        | _ => ([], s2)
        end in
      let '(ex, s4) :=
        match s3 with
        | e :: r =>
            if (e =? 101) || (e =? 69) then
              let '(sg, r1) := match r with
                               | c :: r' => if is_sign c then ([c], r') else ([], r)
                               | [] => ([], r)
                               end in
              let '(d, r2) := span_digits r1 in
              match d with
              | [] => ([], s3)
              | _ => (e :: sg ++ d, r2)
              end
            else ([], s3)
        | [] => ([], s3)
        end in
      let sign := if neg : bool then [45] else [] in
      match frac, ex with
      | [], [] =>
          if max_str_digits <? len ip then None
          else
            Some (PyInt (if neg then - decimal_value ip else decimal_value ip)%Z,
                  s4)
      | _, _ => Some (PyFloat (sign ++ ip ++ frac ++ ex), s4)
      end
  end.

Definition expect (p : string) (v : pyobj) (s : str) : option (pyobj * str) :=
  if startswith s (lit p) then Some (v, drop (String.length p) s) else None.

Section Scan.
Variable scan_once : str -> option (pyobj * str).

(** The elements of an array, after [[] and white space. *)
Fixpoint parse_array (fuel : nat) (s : str) : option (list pyobj * str) :=
  match fuel with
  | O => None
  | S f =>
      match scan_once s with
      | None => None
      | Some (v, r) =>
          match skip_ws r with
          | 93 :: r' => Some ([v], r')
          | 44 :: r' =>
              match parse_array f (skip_ws r') with
              | Some (vs, r'') => Some (v :: vs, r'')
              | None => None
              end
          | _ => None
          end
      end
  end.

(** The members of an object, after [{] and white space. *)
Fixpoint parse_object (fuel : nat) (s : str)
  : option (list (str * pyobj) * str) :=
  match fuel with
  | O => None
  | S f =>
      match s with
      | 34 :: r =>
          match scanstring (length r) r with
          | None => None
          | Some (key, r1) =>
              match skip_ws r1 with
              | 58 :: r2 =>
                  match scan_once (skip_ws r2) with
                  | None => None
                  | Some (v, r3) =>
                      match skip_ws r3 with
                      | 125 :: r4 => Some ([(key, v)], r4)
                      | 44 :: r4 =>
                          match parse_object f (skip_ws r4) with
                          | Some (kvs, r5) => Some ((key, v) :: kvs, r5)
                          | None => None
                          end
                      | _ => None
                      end
                  end
              | _ => None
              end
          end
      | _ => None
      end
  end.
End Scan.

Fixpoint scan_once (fuel : nat) (s : str) : option (pyobj * str) :=
  match fuel with
  | O => None
  | S f =>
      match s with
      | [] => None
      | c :: r =>
          if c =? 34 then
            match scanstring (length r) r with
            | Some (t, r') => Some (PyStr t, r')
            | None => None
            end
          else if c =? 123 then
            match skip_ws r with
            | 125 :: r' => Some (PyDict [], r')
            | r1 =>
                match parse_object (scan_once f) (length r1) r1 with
                | Some (kvs, r') => Some (PyDict kvs, r')
                | None => None
                end
            end
          else if c =? 91 then
            match skip_ws r with
            | 93 :: r' => Some (PyList [], r')
            | r1 =>
                match parse_array (scan_once f) (length r1) r1 with
                | Some (vs, r') => Some (PyList vs, r')
                | None => None
                end
            end
          else if startswith s (lit "null") then expect "null" PyNone s
          else if startswith s (lit "true") then expect "true" (PyBool true) s
          else if startswith s (lit "false") then expect "false" (PyBool false) s
          else if startswith s (lit "NaN") then expect "NaN" (PyFloat (lit "NaN")) s
          else if startswith s (lit "Infinity") then
            expect "Infinity" (PyFloat (lit "Infinity")) s
          else if startswith s (lit "-Infinity") then
            expect "-Infinity" (PyFloat (lit "-Infinity")) s
          else match_number s
      end
  end.

Definition loads (s : str) : option pyobj :=
  if startswith s [0xFEFF] then None
  else
    match scan_once (S (length s)) (skip_ws s) with
    | Some (obj, r) =>
        match skip_ws r with
        | [] => Some obj
        | _ => None
        end
    | None => None
    end.

End JSON.

(** ** The framing, as the companion reads it

    The value of a header field: lower-case hexadecimal digits, most
    significant first. *)

Definition hexval (b : byte) : option N :=
  let c := Byte.to_N b in
  if (48 <=? c) && (c <=? 57) then Some (c - 48)
  else if (97 <=? c) && (c <=? 102) then Some (c - 87)
  else None.

Fixpoint unhex_from (acc : N) (ds : bytes) : option N :=
  match ds with
  | [] => Some acc
  | d :: r =>
      match hexval d with
      | Some v => unhex_from (16 * acc + v) r
      | None => None
      end
  end.

Definition header_value (ds : bytes) : option N := unhex_from 0 ds.

(** ** The locking discipline on a trace

    What each thread holds of [NODE_LOCK], and whether every access to
    [NODE_IS_RUNNING] in a trace is made by a thread that holds the lock in
    a sufficient mode. *)

(** [reads] tells whether the reads of the flag are checked as well. *)
Definition access_ok (reads : bool) (h : held) (e : event) : bool :=
  match e with
  | read_flag _ => negb reads || writer h || negb (Nat.eqb (readers h) 0)
  | write_flag _ => writer h
  | _ => true
  end.

(** [hc] and [hm]: what the coordinator and the monitor hold.  Replacing
    the lock object ([new_lock]) leaves no thread holding the new one. *)
Fixpoint guarded_from (reads : bool) (hc hm : held) (tr : trace) : bool :=
  match tr with
  | [] => true
  | (Coordinator, e) :: r =>
      access_ok reads hc e &&
      guarded_from reads (step_held hc e)
                   (match e with new_lock => nothing_held | _ => hm end) r
  | (Monitor, e) :: r =>
      access_ok reads hm e &&
      guarded_from reads (match e with new_lock => nothing_held | _ => hc end)
                   (step_held hm e) r
  end.

(** Every read and every write of the flag is made under the lock. *)
Definition guarded (tr : trace) : bool :=
  guarded_from true nothing_held nothing_held tr.

(** Every write of the flag is made under the lock. *)
Definition writes_guarded (tr : trace) : bool :=
  guarded_from false nothing_held nothing_held tr.

(** ** Vocabulary of the statements *)

(** A lower-case hexadecimal digit, as a code point. *)
Definition is_hexchar (c : N) : bool :=
  ((48 <=? c) && (c <=? 57)) || ((97 <=? c) && (c <=? 102)).

(** A string of ASCII characters. *)
Definition ascii_only (s : str) : Prop := Forall (fun c => c < 128) s.

(** The payload of the frame for [script]: the UTF-8 encoding of the
    structured text. *)
Definition payload_of (script : str) : option bytes :=
  encode_utf8 (json_dumps_script script).

(** The state after [init_process]. *)
Definition respawned (w : world) : world :=
  World (NODE_IS_RUNNING w) (next_pid w) false false true
        (N.succ (next_pid w)) (heap w).

Definition with_running (b : bool) (w : world) : world :=
  World b (pid w) (reaped w) (stop_event w) (monitor_alive w)
        (next_pid w) (heap w).

(** The events of [cancel(restart=True)] in state [w]. *)
Definition cancel_trace (w : world) : trace :=
  (if reaped w
   then [(Coordinator, print (lit "[Errno 3] No such process"))]
   else [(Coordinator, kill (pid w)); (Coordinator, stop_monitor)])
  ++ [(Coordinator, stop_monitor); (Coordinator, spawn (next_pid w))].

(** The events of the three statements that clear the flag. *)
Definition clear_trace (t : thread) : trace :=
  [(t, acquire_write); (t, write_flag false); (t, release_write)].

(** What the handler of [Node.write] prints for the exception [e]. *)
Definition failure_prints (e : exn) : trace :=
  if contains (lit "Broken pipe") (str_of_exn e) then
    [(Coordinator, print (lit "Pipe broke and was restarted"))]
  else
    [(Coordinator, print (lit "Pipe died for some reason: "));
     (Coordinator, print (str_of_exn e))].

(** The events of the handler of [Node.write]. *)
Definition write_failure_trace (e : exn) (w : world) : trace :=
  cancel_trace w ++ failure_prints e ++ clear_trace Coordinator.

(** The events of [Node.run] up to the call of [Node.write]. *)
Definition dispatch_trace (vars : loc) (w : world) : trace :=
  [(Coordinator, syncto (default ∅ (heap w !! vars)));
   (Coordinator, acquire_write);
   (Coordinator, write_flag true);
   (Coordinator, release_write)].

(** The scenario [e] cut after the iterations [ts] of the wait loop. *)
Definition with_ticks (ts : list tick) (e : env) : env :=
  Env (pipe e) (early e) (start e) ts (pulled e).

(** A line that parses as a structured message whose declared type is the
    completion marker. *)
Definition declared_type (json_loads : str -> option pyobj) (line : str)
  : option pyobj :=
  match json_loads line with
  | Some (PyDict items) => dict_get (lit "type") items
  | _ => None
  end.

Definition is_completion (json_loads : str -> option pyobj) (line : str)
  : bool :=
  match declared_type json_loads line with
  | Some (PyStr t) => bool_decide (t = lit "done")
  | _ => false
  end.

(** A monitor iteration that is no completion signal: the process has not
    exited, and the line is text that is not a completion message. *)
Definition quiet (json_loads : str -> option pyobj) (i : mon_input) : bool :=
  bool_decide (i.2 = None) &&
  match decode_utf8 i.1 with
  | inr line => negb (is_completion json_loads line)
  | inl _ => false
  end.

(** What the monitor forwards for a line that is no completion message. *)
Definition forwarded (line : str) : trace :=
  if negb (bool_decide (line = [])) && (0 <? len (strip line))
  then [(Monitor, print (strip line))]
  else [].

(** The number of times the coordinator polled the lock. *)
Definition polls (tr : trace) : nat :=
  length (List.filter (fun te => match te with
                                 | (Coordinator, acquire_read) => true
                                 | _ => false
                                 end) tr).


(** The contents of the dict object [l]. *)
Definition dict_at (w : world) (l : loc) : gmap str pyobj :=
  default ∅ (heap w !! l).

(** The events of one poll of the flag in the wait loop. *)
Definition poll_trace (b : bool) : trace :=
  [(Coordinator, acquire_read); (Coordinator, read_flag b);
   (Coordinator, release_read)].

(** What the body of the wait loop has done of its poll when the interrupt
    arrives. *)
Definition interrupted_prefix (p : ipoint) (b : bool) : trace :=
  match p with
  | AtLoopTest | BeforeAcquire => []
  | HoldingRead => [(Coordinator, acquire_read); (Coordinator, read_flag b)]
  | _ => poll_trace b
  end.

(** What the timeout branch has done when the interrupt arrives. *)
Definition timeout_prefix (p : ipoint) (w : world) : trace :=
  cancel_trace w ++
  match p with
  | AfterCancel => []
  | HoldingWrite =>
      [(Coordinator, acquire_write); (Coordinator, write_flag false)]
  | _ => clear_trace Coordinator
  end.

(** The events of the [except KeyboardInterrupt] handler. *)
Definition interrupt_trace (w : world) : trace :=
  cancel_trace w ++ clear_trace Coordinator
    ++ [(Coordinator, print (lit "Process was interrupted."))].

(** The events of the timeout branch. *)
Definition timeout_trace (T : Z) (w : world) : trace :=
  cancel_trace w ++ clear_trace Coordinator
    ++ [(Coordinator, print (lit "Process took longer than " ++ str_of_int T))].

(** Events that neither touch the lock nor the flag. *)
Definition plain (e : event) : bool :=
  match e with
  | kill _ | stop_monitor | spawn _ | stdin_write _ _ | stdin_flush _
  | print _ | syncto _ | syncfrom _ => true
  | _ => false
  end.

Definition is_sync (e : event) : bool :=
  match e with
  | syncto _ | syncfrom _ => true
  | _ => false
  end.

(** Traces made of writes of the flag bracketed by the write lock, polls
    of the flag bracketed by the read lock, and plain events; [sync] tells
    whether calls of [VariableSync] may occur. *)
Inductive atom (sync : bool) : trace -> Prop :=
| atom_locked_write t b :
    atom sync [(t, acquire_write); (t, write_flag b); (t, release_write)]
| atom_poll b : atom sync (poll_trace b)
| atom_plain t e :
    plain e = true -> (is_sync e = true -> sync = true) -> atom sync [(t, e)].

Inductive tame (sync : bool) : trace -> Prop :=
| tame_nil : tame sync []
| tame_app a l : atom sync a -> tame sync l -> tame sync (a ++ l).

(** A trace is transparent when, checked from any state in which no thread
    holds the write lock, it passes and leaves what each thread holds
    unchanged. *)
Definition transparent (reads : bool) (tr : trace) : Prop :=
  forall hc hm rest,
    writer hc = false -> writer hm = false ->
    guarded_from reads hc hm (tr ++ rest) = guarded_from reads hc hm rest.

(** A trace passes the check from any state in which no thread holds the
    write lock. *)
Definition passes (reads : bool) (tr : trace) : Prop :=
  forall hc hm,
    writer hc = false -> writer hm = false ->
    guarded_from reads hc hm tr = true.

(** What every method preserves: the dict objects are untouched, process
    ids are handed out in increasing order, and the current process is
    either the same one or one spawned later. *)
Definition evolves (w w' : world) : Prop :=
  heap w' = heap w /\
  next_pid w <= next_pid w' /\
  (pid w < next_pid w -> pid w' < next_pid w') /\
  (pid w' = pid w \/ next_pid w <= pid w').

(** No call of [VariableSync] in a trace. *)
Definition no_sync (tr : trace) : Prop :=
  forall t e, In (t, e) tr -> is_sync e = false.

(** ** Scenarios *)

(** A state in which process 100 runs and its monitor is alive; the only
    dict object is the default value of [vars], still empty. *)
Definition w0 : world :=
  World false 100 false false true 101 {[ run_default_vars := ∅ ]}.

(** The line [{"type": "done"}] followed by a newline, as text and as the
    bytes that [readline] returns. *)
Definition done_text : str :=
  [123; 34] ++ lit "type" ++ [34] ++ lit ": " ++ [34] ++ lit "done"
            ++ [34; 125; 10].
Definition done_line : bytes := map byte_of_N done_text.

(** A script of 16^8 letters [a]. *)
Definition oversized_script : str := repeat 97 (N.to_nat (16 ^ 8)).

(** The script [x = 1] and its payload. *)
Definition script0 : str := lit "x = 1".
Definition payload0 : bytes := map byte_of_N (json_dumps_script script0).

(** Scenarios of a call of [run] in which the pipe to the companion is
    broken, and in which nothing happens after the dispatch. *)
Definition env_broken_pipe : env :=
  Env (WriteRaises (lit "[Errno 32] Broken pipe")) [] 0 [] ∅.
Definition env_idle : env := Env PipeOk [] 0 [] ∅.

(** A state in which a run is in progress. *)
Definition w_running : world := with_running true w0.

(** An empty output line, a line of log text, and a line that is not
    UTF-8 (the byte [0xff] and a newline). *)
Definition blank_line : bytes := [x0a].
Definition log_text : str := lit "hello" ++ [10].
Definition log_line : bytes := map byte_of_N log_text.
Definition bad_line : bytes := [xff; x0a].

(** Scenarios of the wait loop: two quiet polls, then a clock reading
    beyond a timeout of 5, and one more poll; a poll during which an
    interrupt is delivered while the read lock is held, or before which
    one is delivered at the test of the loop; a poll before which the
    monitor read the completion message, or found the process gone. *)
Definition quiet_tick (t : Z) : tick := Tick [] None t.
Definition env_slow : env :=
  Env PipeOk [] 0 [quiet_tick 1; quiet_tick 3; quiet_tick 6; quiet_tick 7] ∅.
Definition env_interrupted : env :=
  Env PipeOk [] 0 [quiet_tick 1; Tick [] (Some HoldingRead) 2; quiet_tick 3] ∅.
Definition env_interrupted_at_test : env :=
  Env PipeOk [] 0 [quiet_tick 1; Tick [] (Some AtLoopTest) 2; quiet_tick 3] ∅.
Definition pulled0 : gmap str pyobj := {[ lit "y" := PyInt 7 ]}.
Definition env_done : env :=
  Env PipeOk [] 0 [quiet_tick 1; Tick [(done_line, None)] None 2] pulled0.

(** A caller's dict object holding [x = 5], and a state that has it. *)
Definition caller_vars : loc := 2%positive.
Definition w_caller : world :=
  with_heap (<[caller_vars := {[ lit "x" := PyInt 5 ]}]> (heap w0)) w0.

(** Scenarios of two runs in a row: both complete at once; the first pulls
    [y = 7], the second pulls [z = 8]. *)
Definition env_first : env :=
  Env PipeOk [(done_line, None)] 0 [] {[ lit "y" := PyInt 7 ]}.
Definition env_second : env :=
  Env PipeOk [(done_line, None)] 0 [] {[ lit "z" := PyInt 8 ]}.

(** An iteration of the wait loop of a run with timeout [T] during which
    nothing happens: no completion signal, no interrupt, and a clock
    reading within the timeout. *)
Definition uneventful (json_loads : str -> option pyobj) (T start : Z)
           (t : tick) : Prop :=
  Forall (fun i => quiet json_loads i = true) (mon t) /\
  interrupt t = None /\
  (now t - start <= T)%Z.

(** * Definitions for the further properties *)

(** ** The reader of the framing

    [Node.write] documents the framing: each message begins with a header
    from [E00000000C] to [EffffffffC], with [E] in position 0, [C] in
    position 9 and, in positions 1 to 8, hexadecimal digits that give the
    length of the message, header excluded.  [read_frame] reads one message
    off the front of a stream accordingly. *)
Definition read_frame (stream : bytes) : option (bytes * bytes) :=
  match stream with
  | b0 :: r =>
      let digits := take 8 r in
      match drop 8 r with
      | b9 :: body =>
          if Byte.eqb b0 x45 && Byte.eqb b9 x43
             && Nat.eqb (length digits) 8 then
            match header_value digits with
            | Some n =>
                if n <=? len body
                then Some (take (N.to_nat n) body, drop (N.to_nat n) body)
                else None
            | None => None
            end
          else None
      | [] => None
      end
  | [] => None
  end.

(** The messages of a whole stream. *)
Fixpoint read_frames (fuel : nat) (stream : bytes) : option (list bytes) :=
  match stream with
  | [] => Some []
  | _ :: _ =>
      match fuel with
      | O => None
      | S f =>
          match read_frame stream with
          | Some (msg, rest) =>
              match read_frames f rest with
              | Some msgs => Some (msg :: msgs)
              | None => None
              end
          | None => None
          end
      end
  end.

(** ** What each thread holds at the end of a trace *)

Fixpoint holds_after (hc hm : held) (tr : trace) : held * held :=
  match tr with
  | [] => (hc, hm)
  | (Coordinator, e) :: r =>
      holds_after (step_held hc e)
                  (match e with new_lock => nothing_held | _ => hm end) r
  | (Monitor, e) :: r =>
      holds_after (match e with new_lock => nothing_held | _ => hc end)
                  (step_held hm e) r
  end.

(** What is held after a trace that starts with nothing held. *)
Definition held_at_end (tr : trace) : held * held :=
  holds_after nothing_held nothing_held tr.

(** The process ids spawned in a trace, in order. *)
Fixpoint spawned (tr : trace) : list N :=
  match tr with
  | [] => []
  | (_, spawn p) :: r => p :: spawned r
  | _ :: r => spawned r
  end.

(** The texts printed by the monitor in a trace, in order. *)
Fixpoint monitor_prints (tr : trace) : list str :=
  match tr with
  | [] => []
  | (Monitor, print s) :: r => s :: monitor_prints r
  | _ :: r => monitor_prints r
  end.

(** The number of times the monitor cleared the flag in a trace. *)
Fixpoint monitor_clears (tr : trace) : nat :=
  match tr with
  | [] => O
  | (Monitor, write_flag false) :: r => S (monitor_clears r)
  | _ :: r => monitor_clears r
  end.

(** No interrupt is delivered in any of the iterations. *)
Definition uninterrupted (ts : list tick) : Prop :=
  Forall (fun t => interrupt t = None) ts.

(** The four kinds of events of the monitor. *)
Inductive monitor_event : thread * event -> Prop :=
| me_acquire : monitor_event (Monitor, acquire_write)
| me_clear : monitor_event (Monitor, write_flag false)
| me_release : monitor_event (Monitor, release_write)
| me_print s : monitor_event (Monitor, print s).


(** ** [int(s)], [s.split(sep)] and the order on tuples of integers

    As [Job.dcp_install] and [Npm.__init__] use them on version strings. *)

(** What depends on the interpreter that runs the code: the decimal value
    of a code point above ASCII ([Py_UNICODE_TODECIMAL], [None] when it is
    not a decimal digit) and the limit on the number of digits that [int]
    accepts ([sys.get_int_max_str_digits()], 0 when there is none). *)
Record interpreter : Type := Interpreter {
  unicode_decimal : N -> option N;
  int_max_str_digits : N
}.

(** The white space [int] skips: [Py_ISSPACE] on ASCII, [str.isspace] above. *)
Definition int_space (c : N) : bool :=
  if c <? 127 then ((9 <=? c) && (c <=? 13)) || (c =? 32) else isspace c.

Definition int_digit (py : interpreter) (c : N) : option N :=
  if c <? 127 then
    if (48 <=? c) && (c <=? 57) then Some (c - 48) else None
  else if isspace c then None
  else unicode_decimal py c.

Fixpoint skip_int_space (s : str) : str :=
  match s with
  | c :: r => if int_space c then skip_int_space r else s
  | [] => []
  end.

(** The digits at the head of [s], with single underscores between them:
    their values and what follows, or [None] when an underscore follows an
    underscore or ends the digits.  [prev] tells that the previous
    character was an underscore. *)
Fixpoint scan_int (py : interpreter) (prev : bool) (s : str)
  : option (list N * str) :=
  match s with
  | c :: r =>
      if c =? 95 then (if prev then None else scan_int py true r)
      else
        match int_digit py c with
        | Some d =>
            match scan_int py false r with
            | Some (ds, rest) => Some (d :: ds, rest)
            | None => None
            end
        | None => if prev then None else Some ([], s)
        end
  | [] => if prev then None else Some ([], [])
  end.

Definition digits_value (ds : list N) : Z :=
  fold_left (fun acc d => (acc * 10 + Z.of_N d)%Z) ds 0%Z.

Definition invalid_literal : exn :=
  ValueError (lit "invalid literal for int() with base 10").

Definition exceeds_limit : exn :=
  ValueError (lit "Exceeds the limit for integer string conversion").

(** [int(s)] for a [str]. *)
Definition int_of_str (py : interpreter) (s : str) : exn + Z :=
  let s1 := skip_int_space s in
  let '(negative, s2) :=
    match s1 with
    | 43 :: r => (false, r)
    | 45 :: r => (true, r)
    | _ => (false, s1)
    end in
  match s2 with
  | 95 :: _ => inl invalid_literal
  | _ =>
      match scan_int py false s2 with
      | Some (d :: ds, rest) =>
          if (640 <? len (d :: ds)) && (0 <? int_max_str_digits py)
             && (int_max_str_digits py <? len (d :: ds))
          then inl exceeds_limit
          else
            match skip_int_space rest with
            | [] => inr (if negative : bool
                         then (- digits_value (d :: ds))%Z
                         else digits_value (d :: ds))
            | _ :: _ => inl invalid_literal
            end
      | _ => inl invalid_literal
      end
  end.

(** [s.split(sep)] for a separator of one character. *)
Fixpoint split (sep : N) (s : str) : list str :=
  match s with
  | [] => [[]]
  | c :: r =>
      if c =? sep then [] :: split sep r
      else
        match split sep r with
        | p :: ps => (c :: p) :: ps
        | [] => [[c]]
        end
  end.

(** [sep.join(l)] *)
Fixpoint join (sep : str) (l : list str) : str :=
  match l with
  | [] => []
  | [p] => p
  | p :: ps => p ++ sep ++ join sep ps
  end.

(** [a < b] on tuples of integers. *)
Fixpoint tuple_lt (a b : list Z) : bool :=
  match a, b with
  | [], [] => false
  | [], _ :: _ => true
  | _ :: _, [] => false
  | x :: a', y :: b' => if (x =? y)%Z then tuple_lt a' b' else (x <? y)%Z
  end.

(** [tuple(int(e) for e in l)] *)
Fixpoint ints (py : interpreter) (l : list str) : exn + list Z :=
  match l with
  | [] => inr []
  | e :: r =>
      match int_of_str py e with
      | inl x => inl x
      | inr z =>
          match ints py r with
          | inl x => inl x
          | inr zs => inr (z :: zs)
          end
      end
  end.

(** The digits of a decimal numeral, most significant first. *)
Fixpoint uint_digits (d : Decimal.uint) : list N :=
  match d with
  | Decimal.Nil => []
  | Decimal.D0 r => 0 :: uint_digits r
  | Decimal.D1 r => 1 :: uint_digits r
  | Decimal.D2 r => 2 :: uint_digits r
  | Decimal.D3 r => 3 :: uint_digits r
  | Decimal.D4 r => 4 :: uint_digits r
  | Decimal.D5 r => 5 :: uint_digits r
  | Decimal.D6 r => 6 :: uint_digits r
  | Decimal.D7 r => 7 :: uint_digits r
  | Decimal.D8 r => 8 :: uint_digits r
  | Decimal.D9 r => 9 :: uint_digits r
  end.

(** The characters of which [int] can make a number. *)
Definition int_char (py : interpreter) (c : N) : bool :=
  int_space c || (c =? 43) || (c =? 45) || (c =? 95)
  || match int_digit py c with Some _ => true | None => false end.

Definition ascii_letter (c : N) : bool :=
  ((65 <=? c) && (c <=? 90)) || ((97 <=? c) && (c <=? 122)).

(** *** [_parse_version] of [Job.dcp_install] *)
Definition _parse_version (py : interpreter) (version_string : str)
  : exn + list Z :=
  ints py (split 46 version_string).

(** ** [Npm]: the calls to npm

    A process started by [Npm.run] is given by what the successive
    iterations of its loop read: a line of the standard output (empty at
    the end of the file), the value of [process.poll()], and a line of the
    standard error. *)
Record reading : Type := Reading {
  stdout_line : str;
  poll_result : option Z;
  stderr_line : str
}.

(** The loop of [Npm.run]: the texts it prints and the return code, [None]
    when the readings are used up before the loop is left. *)
Fixpoint Npm_run_loop (warn log : bool) (rs : list reading)
  : list str * option Z :=
  match rs with
  | [] => ([], None)
  | r :: rest =>
      if bool_decide (stdout_line r = []) && bool_decide (poll_result r <> None)
      then ([], poll_result r)
      else
        let '(printed, code) := Npm_run_loop warn log rest in
        ((if negb (bool_decide (stdout_line r = [])) && log
          then [strip (stdout_line r)] else [])
           ++ (if negb (bool_decide (stderr_line r = [])) && warn
               then [strip (stderr_line r)] else [])
           ++ printed,
         code)
  end.

(** The lines of the standard error that the loop prints, with [warn]
    on, in the iterations [rs]. *)
Definition stderr_texts (rs : list reading) : list str :=
  flat_map (fun r => if bool_decide (stderr_line r = []) then []
                     else [strip (stderr_line r)]) rs.

(** What the calls do: start a process with a command line, print a text
    on the standard output. *)
Inductive npm_event : Type :=
| Popen (argv : list str)
| Printed (text : str).

(** An [AttributeError] beside the exceptions met so far. *)
Inductive raised : Type :=
| Builtin (e : exn)
| AttributeError (msg : str).

Inductive ending (A : Type) : Type :=
| Returned (a : A)
| Raised (e : raised)
| Blocked.
Arguments Returned {A} a.
Arguments Raised {A} e.
Arguments Blocked {A}.

Definition act (A : Type) : Type := ending A * list npm_event.

Definition act_ret {A} (a : A) : act A := (Returned a, []).

Definition act_bind {A B} (m : act A) (k : A -> act B) : act B :=
  match m with
  | (Returned a, l) => let '(e, l') := k a in (e, l ++ l')
  | (Raised x, l) => (Raised x, l)
  | (Blocked, l) => (Blocked, l)
  end.

Declare Scope act_scope.
Delimit Scope act_scope with act.
Notation "x <- m ;; k" := (act_bind m (fun x => k))
  (at level 100, m at next level, right associativity) : act_scope.
Notation "m ;; k" := (act_bind m (fun _ => k))
  (at level 100, right associativity) : act_scope.

Definition act_raise {A} (e : exn) : act A := (Raised (Builtin e), []).

Definition act_lift {A} (r : exn + A) : act A :=
  match r with
  | inr a => act_ret a
  | inl e => act_raise e
  end.

(** [print(text)] *)
Definition act_print (text : str) : act unit := (Returned tt, [Printed text]).

(** What [io.StringIO.getvalue()] gives after the texts were printed. *)
Definition getvalue (printed : list npm_event) : str :=
  concat (map (fun ev => match ev with
                         | Printed text => text ++ [10]
                         | Popen _ => []
                         end) printed).

Definition is_Printed (ev : npm_event) : bool :=
  match ev with
  | Printed _ => true
  | Popen _ => false
  end.

(** [with contextlib.redirect_stdout(npm_io): body], followed by
    [npm_io.getvalue()]: what [body] prints is collected instead of being
    printed. *)
Definition redirect_stdout {A} (body : act A) : act str :=
  match body with
  | (Returned _, l) =>
      (Returned (getvalue l), filter (fun ev => negb (is_Printed ev)) l)
  | (Raised x, l) => (Raised x, filter (fun ev => negb (is_Printed ev)) l)
  | (Blocked, l) => (Blocked, filter (fun ev => negb (is_Printed ev)) l)
  end.

(** [o.strip()] for a value read from JSON. *)
Definition strip_obj (o : pyobj) : act str :=
  match o with
  | PyStr s => act_ret (strip s)
  | _ => (Raised (AttributeError (lit "object has no attribute 'strip'")), [])
  end.

(** The missing modules that [Npm.__init__] looks for, and the platform. *)
Record platform : Type := Platform {
  exists_mmap : bool;      (* node_modules/@raygun-nickj/mmap-io *)
  exists_xxhash : bool;    (* node_modules/xxhash-wasm *)
  exists_shmmap : bool;    (* node_modules/shmmap *)
  has_mp_shared : bool;
  is_windows : bool;
  is_darwin : bool
}.

(** The attributes [js_needs_mmap], [js_needs_xxhash], [js_needs_shm] and
    [nodejs_major_version] of an [Npm] object. *)
Record Npm : Type := NpmObject {
  nodejs_major_version : Z;
  js_needs_mmap : bool;
  js_needs_xxhash : bool;
  js_needs_shm : bool
}.

Section NpmCalls.
(** [json.loads]; the interpreter; the path of the npm executable
    ([shutil.which('npm')]); and, for each command line, what the
    process started with it gives to read. *)
Variable json_loads : str -> option pyobj.
Variable py : interpreter.
Variable npm_exec_path : str.
Variable npm : list str -> list reading.

(** *** [Npm.run] *)
Definition Npm_run (cmd : list str) (warn log : bool) : act Z :=
  let argv := cmd ++ [lit "--no-update-notifier"] in
  let '(printed, code) := Npm_run_loop warn log (npm argv) in
  (match code with
   | Some returnCode => Returned returnCode
   | None => Blocked
   end,
   Popen argv :: map Printed printed).

(** *** [Npm.install], [Npm.uninstall], [Npm.list_modules] *)
Definition Npm_install (args : list str) : act unit :=
  (Npm_run ([npm_exec_path; lit "--quiet"; lit "install"] ++ args) false false ;;
   act_ret tt)%act.

Definition Npm_uninstall (args : list str) : act unit :=
  (Npm_run ([npm_exec_path; lit "--quiet"; lit "uninstall"] ++ args) false false ;;
   act_ret tt)%act.

Definition Npm_list_modules (args : list str) : act unit :=
  (Npm_run ([npm_exec_path; lit "list"] ++ args) true true ;;
   act_ret tt)%act.

Definition act_json_loads (s : str) : act pyobj :=
  act_lift (match json_loads s with
            | Some o => inr o
            | None => inl (ValueError (lit "JSONDecodeError"))
            end).

(** *** [Npm.package_current_version] *)
Definition Npm_package_current_version (package_name : str) : act str :=
  (version_json <-
     redirect_stdout
       (Npm_run [npm_exec_path; lit "ls"; package_name; lit "--json=true"]
                true true) ;;
   version_dict <- act_json_loads version_json ;;
   match
     match getitem version_dict (lit "dependencies") with
     | inr deps =>
         match getitem deps package_name with
         | inr package => getitem package (lit "version")
         | inl e => inl e
         end
     | inl e => inl e
     end
   with
   | inr version_string => strip_obj version_string
   | inl (KeyError _) => strip_obj (PyStr (lit "0.0.0"))
   | inl e => act_raise e
   end)%act.

(** *** [Npm.package_latest_version] *)
Definition Npm_package_latest_version (package_name : str) : act str :=
  (version_string <-
     redirect_stdout
       (Npm_run [npm_exec_path; lit "view"; package_name; lit "version"]
                true true) ;;
   act_ret (strip version_string))%act.

(** *** [Npm.nodejs_version] *)
Definition Npm_nodejs_version : act str :=
  (version_json <-
     redirect_stdout
       (Npm_run [npm_exec_path; lit "version"; lit "--json=true"] true true) ;;
   version_dict <- act_json_loads version_json ;;
   version_string <- act_lift (getitem version_dict (lit "node")) ;;
   strip_obj version_string)%act.

(** *** [Npm.__init__] *)
Definition Npm_init (pf : platform) : act Npm :=
  (version <- Npm_nodejs_version ;;
   major <- act_lift (int_of_str py (hd [] (split 46 version))) ;;
   let needs_mmap := negb (exists_mmap pf) in
   let needs_xxhash := negb (exists_xxhash pf) in
   let needs_shm :=
     has_mp_shared pf && negb (is_windows pf) && negb (is_darwin pf)
     && negb (exists_shmmap pf) && (major <? 16)%Z in
   if needs_mmap || needs_xxhash || needs_shm then
     Npm_run [npm_exec_path; lit "init"; lit "--yes"] false false ;;
     (if needs_mmap then
        if (major <? 16)%Z
        then Npm_install [lit "@raygun-nickj/mmap-io@1.2.2"]
        else Npm_install [lit "@raygun-nickj/mmap-io@1.3.0"]
      else act_ret tt) ;;
     (if needs_xxhash then Npm_install [lit "xxhash-wasm@0.4.2"]
      else act_ret tt) ;;
     (if needs_shm
      then Npm_install [lit "git+https://github.com/chris-c-mcintyre/shmmap.js"]
      else act_ret tt) ;;
     act_ret (NpmObject major false false false)
   else act_ret (NpmObject major needs_mmap needs_xxhash needs_shm))%act.

(** *** [_npm_checker] of [Job.dcp_install] *)
Definition _npm_checker (package_name : str) : act unit :=
  (npm_check <- redirect_stdout (Npm_list_modules [package_name]) ;;
   if contains (lit "(empty)") npm_check then
     act_print (lit "installing " ++ package_name) ;;
     Npm_install [package_name]
   else
     package_latest <- Npm_package_latest_version package_name ;;
     package_current <- Npm_package_current_version package_name ;;
     current <- act_lift (_parse_version py package_current) ;;
     latest <- act_lift (_parse_version py package_latest) ;;
     if tuple_lt current latest then
       act_print (lit "installing version " ++ package_latest ++ lit " of "
                      ++ package_name) ;;
       Npm_install [package_name ++ lit "@" ++ package_latest]
     else act_ret tt)%act.

End NpmCalls.

(** ** [Job.__dcp_run]: the deployment and its output

    The two statements
    [node_output = node.run(self.python_deploy, run_parameters)] and
    [result_set = node_output['jobOutput']], with [run_parameters] the dict
    object built just before. *)
Definition dcp_run_job_output (json_loads : str -> option pyobj)
           (python_deploy : str) (run_parameters : loc) (e : env) : M pyobj :=
  node_output <- run json_loads python_deploy (Some run_parameters) None e ;;
  match node_output with
  | None => raise (TypeError (lit "'NoneType' object is not subscriptable"))
  | Some vars =>
      w <- get ;;
      match dict_at w vars !! lit "jobOutput" with
      | Some result_set => ret result_set
      | None => raise (KeyError (lit "jobOutput"))
      end
  end.

(** ** Scenarios of calls to npm *)

(** An interpreter with the default limit of 4300 digits; the scenarios
    hold no digit above ASCII, and its table of those is left empty. *)
Definition py_default : interpreter := Interpreter (fun _ => None) 4300.

Definition npm_path : str := lit "/usr/bin/npm".
Definition dcp_client : str := lit "dcp-client".

(** A process that has closed its output and exited with [code]; a process
    that writes [lines] on its standard output, nothing on its standard
    error, and exits with code 0. *)
Definition exited (code : Z) : reading := Reading [] (Some code) [].
Definition writes (lines : list str) : list reading :=
  map (fun l => Reading (l ++ [10]) None []) lines ++ [exited 0].

(** npm given by a table of command lines; any other command exits at
    once. *)
Fixpoint lookup_cmd (tbl : list (list str * list reading)) (argv : list str)
  : list reading :=
  match tbl with
  | [] => [exited 0]
  | (cmd, rs) :: r =>
      if bool_decide (cmd ++ [lit "--no-update-notifier"] = argv) then rs
      else lookup_cmd r argv
  end.

Definition quoted (s : str) : str := [34] ++ s ++ [34].

(** [{"dependencies": {package: {"version": version}}}] and
    [{"node": version}] *)
Definition ls_json (package version : str) : str :=
  [123] ++ quoted (lit "dependencies") ++ lit ": " ++ [123] ++ quoted package
        ++ lit ": " ++ [123] ++ quoted (lit "version") ++ lit ": "
        ++ quoted version ++ [125; 125; 125].
Definition node_json (version : str) : str :=
  [123] ++ quoted (lit "node") ++ lit ": " ++ quoted version ++ [125].

(** [npm view] answers 4.2.1, without and with a warning on the standard
    error. *)
Definition npm_view_clean : list str -> list reading :=
  fun _ => writes [lit "4.2.1"].
Definition npm_view_warning : list str -> list reading :=
  fun _ => [Reading (lit "4.2.1" ++ [10]) None
                    (lit "npm WARN old lockfile" ++ [10]);
            exited 0].

(** npm answers [{}] to every query: the package is not in the tree, and
    no version of Node.js is reported. *)
Definition npm_empty_object : list str -> list reading :=
  fun _ => writes [lit "{}"].

(** The package is not listed; it is listed at 4.2.1 and the latest version
    is 4.2.1; it is listed at 4.2.1 and the latest is 4.3.0-beta. *)
Definition npm_not_listed : list str -> list reading :=
  lookup_cmd [([npm_path; lit "list"; dcp_client],
               writes [lit "/home/user"; lit "`-- (empty)"])].
Definition npm_listed (latest : str) : list str -> list reading :=
  lookup_cmd [([npm_path; lit "list"; dcp_client],
               writes [lit "/home/user"; lit "`-- dcp-client@4.2.1"]);
              ([npm_path; lit "view"; dcp_client; lit "version"], writes [latest]);
              ([npm_path; lit "ls"; dcp_client; lit "--json=true"],
               writes [ls_json dcp_client (lit "4.2.1")])].

(** The package is listed, but [npm view] fails: it writes an error on its
    standard error only and exits with code 1. *)
Definition npm_view_fails : list str -> list reading :=
  lookup_cmd [([npm_path; lit "list"; dcp_client],
               writes [lit "/home/user"; lit "`-- dcp-client@4.2.1"]);
              ([npm_path; lit "view"; dcp_client; lit "version"],
               [Reading [] (Some 1%Z) (lit "npm ERR! code E404" ++ [10])]);
              ([npm_path; lit "ls"; dcp_client; lit "--json=true"],
               writes [ls_json dcp_client (lit "4.2.1")])].

(** The same failure, when the exit of [npm view] is not yet reported at
    the first end of its standard output: a line of its standard error is
    read before the loop is left. *)
Definition npm_view_fails_late : list str -> list reading :=
  lookup_cmd [([npm_path; lit "list"; dcp_client],
               writes [lit "/home/user"; lit "`-- dcp-client@4.2.1"]);
              ([npm_path; lit "view"; dcp_client; lit "version"],
               [Reading [] None (lit "npm ERR! code E404" ++ [10]);
                Reading [] (Some 1%Z) []]);
              ([npm_path; lit "ls"; dcp_client; lit "--json=true"],
               writes [ls_json dcp_client (lit "4.2.1")])].

(** Node.js 14.17.1 on a Linux with shared memory and an empty
    [node_modules]. *)
Definition npm_node14 : list str -> list reading :=
  lookup_cmd [([npm_path; lit "version"; lit "--json=true"],
               writes [node_json (lit "14.17.1")])].
Definition bare_linux : platform := Platform false false false true false false.

(** * Evaluation of the runtime functions *)

Example hex_255 : hex 255 = lit "0xff".
Proof. reflexivity. Qed.
Example hex_0 : hex 0 = lit "0x0".
Proof. reflexivity. Qed.
Example hex_big : hex (16 ^ 8) = lit "0x100000000".
Proof. vm_compute. reflexivity. Qed.
Example dumps_ex :
  json_dumps_script (lit "a\b" ++ [233; 0x1F600; 10])
  = [123; 34] ++ lit "script" ++ [34] ++ lit ": " ++ [34]
      ++ lit "a\\b\u00e9\ud83d\ude00\n" ++ [34; 125].
Proof. vm_compute. reflexivity. Qed.

(** * Hexadecimal digits *)

Lemma hexdigit_hexchar d : d < 16 -> is_hexchar (hexdigit d) = true.
Proof.
  intros H. unfold hexdigit, is_hexchar.
  destruct (N.ltb_spec d 10); apply orb_true_iff; [left | right];
    apply andb_true_iff; split; apply N.leb_le; lia.
Qed.

Lemma hexval_hexdigit d : d < 16 -> hexval (byte_of_N (hexdigit d)) = Some d.
Proof.
  intros H.
  assert (Hc : forall k, (k < 16)%nat -> hexval (byte_of_N (hexdigit (N.of_nat k))) = Some (N.of_nat k)).
  { intros k Hk. do 16 (destruct k as [|k]; [reflexivity|]). lia. }
  rewrite <- (N2Nat.id d). apply Hc. lia.
Qed.

Lemma hex_le_hexchars f n : Forall (fun c => is_hexchar c = true) (hex_le f n).
Proof.
  revert n. induction f as [|f IH]; intros n; simpl; [constructor|].
  destruct (N.ltb_spec n 16).
  - repeat constructor. now apply hexdigit_hexchar.
  - constructor; [|apply IH]. apply hexdigit_hexchar. apply N.mod_lt. lia.
Qed.

Lemma hex_le_length f n k :
  n < 16 ^ N.of_nat k -> (1 <= k)%nat -> (length (hex_le f n) <= k)%nat.
Proof.
  revert n k. induction f as [|f IH]; intros n k Hn Hk; simpl; [lia|].
  destruct (N.ltb_spec n 16); simpl; [lia|].
  destruct k as [|[|k]]; [lia| simpl in Hn; lia |].
  apply le_n_S, IH; [|lia].
  replace (N.of_nat (S (S k))) with (N.succ (N.of_nat (S k))) in Hn by lia.
  rewrite N.pow_succ_r' in Hn.
  apply N.Div0.div_lt_upper_bound. lia.
Qed.

Lemma unhex_from_app acc l1 l2 :
  unhex_from acc (l1 ++ l2) =
  match unhex_from acc l1 with
  | Some a => unhex_from a l2
  | None => None
  end.
Proof.
  revert acc. induction l1 as [|d l1 IH]; intros acc; simpl; [reflexivity|].
  destruct (hexval d); [apply IH | reflexivity].
Qed.

Lemma unhex_hex_le f n :
  n < 16 ^ N.of_nat f ->
  unhex_from 0 (map byte_of_N (rev (hex_le f n))) = Some n.
Proof.
  revert n. induction f as [|f IH]; intros n Hn.
  - simpl in *. f_equal. lia.
  - simpl. destruct (N.ltb_spec n 16) as [Hlt|Hge].
    + simpl. rewrite hexval_hexdigit by assumption. reflexivity.
    + simpl. rewrite map_app, unhex_from_app.
      replace (N.of_nat (S f)) with (N.succ (N.of_nat f)) in Hn by lia.
      rewrite N.pow_succ_r' in Hn.
      rewrite IH by (apply N.Div0.div_lt_upper_bound; lia).
      simpl. rewrite hexval_hexdigit by (apply N.mod_lt; lia).
      f_equal. pose proof (N.div_mod n 16). lia.
Qed.

Lemma hex_fuel n : n < 16 ^ N.of_nat (S (N.to_nat (N.log2 n))).
Proof.
  replace (N.of_nat (S (N.to_nat (N.log2 n)))) with (N.succ (N.log2 n)) by lia.
  destruct (N.eq_dec n 0) as [->|Hn]; [reflexivity|].
  eapply N.lt_le_trans; [apply N.log2_spec; lia|].
  apply N.pow_le_mono_l. lia.
Qed.

Lemma hex_drop n : drop 2 (hex n) = rev (hex_le (S (N.to_nat (N.log2 n))) n).
Proof. reflexivity. Qed.

Lemma hexchar_not_sign c : is_hexchar c = true -> is_sign c = false.
Proof.
  unfold is_hexchar, is_sign. intros H.
  destruct (N.eqb_spec c 43); destruct (N.eqb_spec c 45); subst; try reflexivity;
    vm_compute in H; discriminate.
Qed.

Lemma hexchar_ascii c : is_hexchar c = true -> c < 128.
Proof.
  unfold is_hexchar. intros H.
  apply orb_true_iff in H as [H|H]; apply andb_true_iff in H as [_ H];
    apply N.leb_le in H; lia.
Qed.

Lemma zfill_hexchars w ds :
  Forall (fun c => is_hexchar c = true) ds ->
  zfill w ds = repeat 48 (w - length ds)%nat ++ ds.
Proof.
  intros H. unfold zfill. destruct H as [|c r Hc Hr]; simpl.
  - now rewrite app_nil_r.
  - now rewrite (hexchar_not_sign c Hc).
Qed.

Lemma unhex_from_zeros k acc ds :
  unhex_from acc (map byte_of_N (repeat 48 k) ++ ds) = unhex_from (16 ^ N.of_nat k * acc) ds.
Proof.
  revert acc. induction k as [|k IH]; intros acc.
  - simpl. f_equal. lia.
  - cbn [repeat map app unhex_from]. change (hexval (byte_of_N 48)) with (Some 0).
    cbv iota beta. rewrite IH. f_equal.
    replace (N.of_nat (S k)) with (N.succ (N.of_nat k)) by lia.
    rewrite N.pow_succ_r'. lia.
Qed.

(** The eight-digit field of the header, as code points. *)
Lemma header_field n :
  n < 16 ^ 8 ->
  let field := zfill 8 (drop 2 (hex n)) in
  length field = 8%nat /\
  Forall (fun c => is_hexchar c = true) field /\
  header_value (map byte_of_N field) = Some n.
Proof.
  intros Hn field. subst field. rewrite hex_drop.
  set (f := S (N.to_nat (N.log2 n))).
  assert (Hc : Forall (fun c => is_hexchar c = true) (rev (hex_le f n))).
  { apply Forall_rev, hex_le_hexchars. }
  assert (Hl : (length (rev (hex_le f n)) <= 8)%nat).
  { rewrite length_rev. apply hex_le_length; [exact Hn | lia]. }
  rewrite zfill_hexchars by exact Hc.
  split; [|split].
  - rewrite length_app, repeat_length. lia.
  - apply Forall_app; split; [|exact Hc].
    apply List.Forall_forall. intros x Hx. apply repeat_spec in Hx. now subst.
  - unfold header_value. rewrite map_app, unhex_from_zeros.
    rewrite N.mul_0_r. apply unhex_hex_le, hex_fuel.
Qed.

(** * The payload is ASCII *)

Lemma hex4_hexchars n : Forall (fun c => is_hexchar c = true) (hex4 n).
Proof.
  unfold hex4. rewrite hex_drop.
  assert (Hc : Forall (fun c => is_hexchar c = true)
                      (rev (hex_le (S (N.to_nat (N.log2 n))) n))).
  { apply Forall_rev, hex_le_hexchars. }
  rewrite zfill_hexchars by exact Hc.
  apply Forall_app; split; [|exact Hc].
  apply List.Forall_forall. intros x Hx. apply repeat_spec in Hx. now subst.
Qed.

Lemma hex4_ascii n : ascii_only (hex4 n).
Proof.
  eapply Forall_impl; [apply hex4_hexchars|]. intros c. apply hexchar_ascii.
Qed.

Lemma escape_char_ascii c : ascii_only (escape_char c).
Proof.
  unfold escape_char, ascii_only.
  repeat match goal with
         | |- context [if ?b then _ else _] =>
             let E := fresh "E" in destruct b eqn:E
         end;
    try (repeat constructor; lia).
  - apply andb_true_iff in E6 as [_ E6]. apply N.leb_le in E6.
    repeat constructor. lia.
  - repeat (constructor; [lia|]). apply hex4_ascii.
  - cbv zeta. repeat (constructor; [lia|]).
    apply Forall_app; split; [apply hex4_ascii|].
    repeat (constructor; [lia|]). apply hex4_ascii.
Qed.

Lemma escape_char_nonempty c : (1 <= length (escape_char c))%nat.
Proof.
  unfold escape_char.
  repeat match goal with
         | |- context [if ?b then _ else _] => destruct b
         end; simpl; lia.
Qed.

Lemma encode_basestring_ascii_ascii s : ascii_only (encode_basestring_ascii s).
Proof.
  unfold encode_basestring_ascii, ascii_only.
  apply Forall_app; split; [repeat constructor; lia|].
  apply Forall_app; split; [|repeat constructor; lia].
  induction s as [|c s IH]; simpl; [constructor|].
  apply Forall_app; split; [apply escape_char_ascii | exact IH].
Qed.

Lemma json_dumps_script_ascii s : ascii_only (json_dumps_script s).
Proof.
  unfold json_dumps_script, ascii_only.
  apply Forall_app; split; [repeat constructor; lia|].
  apply Forall_app; split; [apply encode_basestring_ascii_ascii|].
  apply Forall_app; split; [simpl; repeat constructor; lia|].
  apply Forall_app; split; [apply encode_basestring_ascii_ascii|].
  repeat constructor; lia.
Qed.

Lemma json_dumps_script_length s : (length s <= length (json_dumps_script s))%nat.
Proof.
  unfold json_dumps_script, encode_basestring_ascii.
  repeat rewrite length_app.
  assert (length s <= length (concat (map escape_char s)))%nat; [|lia].
  induction s as [|c s IH]; simpl; [lia|].
  rewrite length_app. pose proof (escape_char_nonempty c). lia.
Qed.

Lemma encode_utf8_ascii s :
  ascii_only s -> encode_utf8 s = Some (map byte_of_N s).
Proof.
  induction 1 as [|c s Hc _ IH]; simpl; [reflexivity|].
  rewrite IH. unfold utf8_char.
  destruct (N.ltb_spec c 128); [reflexivity | lia].
Qed.

(** The payload always exists, and has one byte per character of the
    structured text. *)
Lemma payload_of_total s :
  payload_of s = Some (map byte_of_N (json_dumps_script s)).
Proof. apply encode_utf8_ascii, json_dumps_script_ascii. Qed.

Lemma payload_length s payload :
  payload_of s = Some payload -> len payload = len (json_dumps_script s).
Proof.
  intros H. assert (payload = map byte_of_N (json_dumps_script s)) as ->.
  { rewrite payload_of_total in H. congruence. }
  unfold len. now rewrite length_map.
Qed.

(** * [Node.write] *)

(** The frame of a script whose payload fits the header. *)
Lemma build_frame_small s payload :
  payload_of s = Some payload ->
  len payload < 16 ^ 8 ->
  build_frame s =
  inr ([x45] ++ map byte_of_N (zfill 8 (drop 2 (hex (len payload))))
             ++ [x43] ++ payload).
Proof.
  intros Hp Hl. pose proof (payload_length s payload Hp) as Hlen.
  rewrite payload_of_total in Hp.
  assert (payload = map byte_of_N (json_dumps_script s)) as -> by congruence.
  rewrite Hlen in *. clear Hlen Hp.
  destruct (header_field _ Hl) as (H8 & Hc & _).
  unfold build_frame. cbv zeta.
  replace (8 <? len (drop 2 (hex (len (json_dumps_script s))))) with false.
  2:{ symmetry. apply N.ltb_ge. unfold len at 1.
      pose proof (hex_le_length (S (N.to_nat (N.log2 (len (json_dumps_script s)))))
                                (len (json_dumps_script s)) 8 Hl ltac:(lia)).
      rewrite hex_drop, length_rev. lia. }
  replace (16 ^ 8 <=? len (json_dumps_script s)) with false
    by (symmetry; apply N.leb_gt; exact Hl).
  cbn [orb].
  rewrite encode_utf8_ascii.
  - f_equal. rewrite !map_app, <- !app_assoc. reflexivity.
  - apply Forall_app; split; [|apply json_dumps_script_ascii].
    apply Forall_app; split; [repeat constructor; lia|].
    apply Forall_app; split; [|repeat constructor; lia].
    eapply Forall_impl; [exact Hc|]. intros c. apply hexchar_ascii.
Qed.

(** The frame of a script whose payload does not fit: the [raise] of a
    tuple is a [TypeError]. *)
Lemma build_frame_oversized s payload :
  payload_of s = Some payload ->
  16 ^ 8 <= len payload ->
  build_frame s = inl (TypeError (lit "exceptions must derive from BaseException")).
Proof.
  intros Hp Hl. rewrite (payload_length s payload Hp) in Hl.
  unfold build_frame. cbv zeta.
  replace (16 ^ 8 <=? len (json_dumps_script s)) with true
    by (symmetry; apply N.leb_le; exact Hl).
  now rewrite orb_true_r.
Qed.

Lemma cancel_true w :
  cancel true w = Result (Val tt) (respawned w) (cancel_trace w).
Proof.
  unfold cancel, cancel_trace, try_except, bind, os_kill, stop, get, put, emit,
    init_process, raise; cbn.
  destruct (reaped w); reflexivity.
Qed.

Ltac unfold_monad :=
  unfold try_except, try_except_KeyboardInterrupt, bind, lift, ret, raise,
    spin, deadlock, get, put, emit, set_running, get_running, clear_running,
    acquire_write_holding.

Lemma write_ok s data w :
  build_frame s = inr data ->
  write PipeOk s w =
  Result (Val 1%Z) w
         [(Coordinator, stdin_write (pid w) data);
          (Coordinator, stdin_flush (pid w))].
Proof.
  intros H. unfold write, stdin_write_flush. unfold_monad. rewrite H. reflexivity.
Qed.

Lemma write_handler e w :
  ((if contains (lit "Broken pipe") (str_of_exn e) then
      cancel true ;;
      emit Coordinator (print (lit "Pipe broke and was restarted"))
    else
      cancel true ;;
      emit Coordinator (print (lit "Pipe died for some reason: ")) ;;
      emit Coordinator (print (str_of_exn e))) ;;
   clear_running Coordinator ;;
   ret (-1)%Z)%M w
  = Result (Val (-1)%Z) (with_running false (respawned w))
           (write_failure_trace e w).
Proof.
  unfold write_failure_trace, failure_prints.
  destruct (contains _ _); unfold_monad; rewrite cancel_true; cbn;
    rewrite <- ?app_assoc; reflexivity.
Qed.

Lemma try_except_caught {A} (body : M A) h w e w1 l1 o w2 l2 :
  body w = Result (Exc e) w1 l1 ->
  is_Exception e = true ->
  h e w1 = Result o w2 l2 ->
  try_except body h w = Result o w2 (l1 ++ l2).
Proof. intros Hb He Hh. unfold try_except. now rewrite Hb, He, Hh. Qed.

Lemma write_frame_fails p s e w :
  build_frame s = inl e ->
  is_Exception e = true ->
  write p s w =
  Result (Val (-1)%Z) (with_running false (respawned w))
         (write_failure_trace e w).
Proof.
  intros H He. unfold write.
  apply (try_except_caught _ _ w e w [] _ _ _); [| exact He | apply write_handler].
  unfold_monad. now rewrite H.
Qed.

Lemma write_raises s data m w :
  build_frame s = inr data ->
  write (WriteRaises m) s w =
  Result (Val (-1)%Z) (with_running false (respawned w))
         (write_failure_trace (OSError m) w).
Proof.
  intros H. unfold write.
  apply (try_except_caught _ _ w (OSError m) w [] _ _ _);
    [| reflexivity | apply write_handler].
  unfold stdin_write_flush. unfold_monad. now rewrite H.
Qed.

Lemma flush_raises s data m w :
  build_frame s = inr data ->
  write (FlushRaises m) s w =
  Result (Val (-1)%Z) (with_running false (respawned w))
         ((Coordinator, stdin_write (pid w) data)
            :: write_failure_trace (OSError m) w).
Proof.
  intros H. unfold write.
  apply (try_except_caught _ _ w (OSError m) w
           [(Coordinator, stdin_write (pid w) data)] _ _ _);
    [| reflexivity | apply write_handler].
  unfold stdin_write_flush. unfold_monad. now rewrite H.
Qed.

Lemma write_interrupted s data w :
  build_frame s = inr data ->
  write WriteInterrupted s w = Result (Exc KeyboardInterrupt) w [].
Proof.
  intros H. unfold write, stdin_write_flush. unfold_monad. rewrite H. reflexivity.
Qed.

(** * [NodeSTDProc.run] *)

Section Monitor.
Variable json_loads : str -> option pyobj.

Lemma print_stripped_eq output w :
  print_stripped output w = Result (Val tt) w (forwarded output).
Proof.
  unfold print_stripped, forwarded.
  destruct (negb (bool_decide (output = [])) && (0 <? len (strip output)));
    reflexivity.
Qed.

(** One iteration of the monitor, case by case. *)
Lemma monitor_iter_eq raw poll w :
  monitor_iter json_loads raw poll w =
  match decode_utf8 raw with
  | inl e => Result (Exc e) w []
  | inr output =>
      match poll with
      | Some _ =>
          Result (Val Break) (with_running false (with_reaped true w))
                 (clear_trace Monitor)
      | None =>
          if bool_decide (output = []) then Result (Val Continue) w []
          else if is_completion json_loads output then
            Result (Val Continue) (with_running false w) (clear_trace Monitor)
          else Result (Val Continue) w (forwarded output)
      end
  end.
Proof.
  unfold monitor_iter. unfold bind at 1, lift at 1.
  destruct (decode_utf8 raw) as [e|output]; [reflexivity|].
  unfold ret at 1. cbn [app]. 
  match goal with |- match ?m w with _ => _ end = _ =>
    assert (Hm : forall r, m w = r -> match m w with
                                       | Result o w2 l2 => Result o w2 l2
                                       end = r)
      by (intros r <-; now destruct (m w))
  end.
  apply Hm. clear Hm.
  destruct poll as [code|].
  - rewrite bool_decide_eq_true_2 by discriminate. reflexivity.
  - rewrite bool_decide_eq_false_2 by (intros H; now apply H).
    destruct (bool_decide (output = [])) eqn:Hempty; [reflexivity|].
    cbn [negb]. unfold is_completion, declared_type.
    unfold try_except, bind at 1, lift at 1.
    assert (Hfw : forall e' : exn,
               (print_stripped output ;; ret Continue)%M w
               = Result (Val Continue) w (forwarded output)).
    { intros _. unfold bind, ret. rewrite print_stripped_eq.
      now rewrite app_nil_r. }
    assert (Hfw' : (print_stripped output ;; ret Continue)%M w
                   = Result (Val Continue) w (forwarded output)).
    { exact (Hfw KeyboardInterrupt). }
    destruct (json_loads output) as [o|].
    2:{ unfold raise. cbn [is_Exception]. now rewrite Hfw'. }
    unfold ret at 1. unfold bind at 1, lift at 1.
    destruct o; cbn [getitem]; unfold raise;
      try (cbn [is_Exception]; now rewrite Hfw').
    destruct (dict_get (lit "type") items) as [ty|].
    2:{ cbn [is_Exception]. now rewrite Hfw'. }
    unfold ret at 1.
    destruct ty; cbn [eq_str]; try (now rewrite Hfw').
    destruct (bool_decide (s = lit "done")).
    + reflexivity.
    + now rewrite Hfw'.
Qed.


End Monitor.

(** * Traces *)

Lemma tame_concat sync l1 l2 : tame sync l1 -> tame sync l2 -> tame sync (l1 ++ l2).
Proof.
  induction 1 as [|a l Ha Hl IH]; intros H2; [exact H2|].
  rewrite <- app_assoc. constructor; [exact Ha | now apply IH].
Qed.

Lemma tame_atom sync a : atom sync a -> tame sync a.
Proof. intros H. rewrite <- (app_nil_r a). constructor; [exact H | constructor]. Qed.

Lemma tame_weaken l : tame false l -> tame true l.
Proof.
  induction 1 as [|a l Ha Hl IH]; constructor; [|exact IH].
  destruct Ha; constructor; auto.
Qed.

Lemma tame_clear sync t : tame sync (clear_trace t).
Proof. apply tame_atom. constructor. Qed.

Lemma tame_plain sync t e :
  plain e = true -> is_sync e = false -> tame sync [(t, e)].
Proof. intros H1 H2. apply tame_atom. constructor; [exact H1 | congruence]. Qed.

Lemma tame_cons_plain sync t e l :
  plain e = true -> is_sync e = false -> tame sync l -> tame sync ((t, e) :: l).
Proof.
  intros H1 H2 Hl. apply (tame_concat sync [(t, e)] l); [now apply tame_plain | exact Hl].
Qed.

Lemma tame_cancel sync w : tame sync (cancel_trace w).
Proof.
  unfold cancel_trace.
  destruct (reaped w); cbn [app];
    repeat (apply tame_cons_plain; [reflexivity | reflexivity |]); constructor.
Qed.

Lemma tame_forwarded sync line : tame sync (forwarded line).
Proof.
  unfold forwarded. destruct (_ && _); [now apply tame_plain | constructor].
Qed.

Lemma tame_timeout sync T w : tame sync (timeout_trace T w).
Proof.
  unfold timeout_trace.
  apply tame_concat; [apply tame_cancel|].
  apply tame_concat; [apply tame_clear | now apply tame_plain].
Qed.

Lemma tame_poll sync b : tame sync (poll_trace b).
Proof. apply tame_atom. constructor. Qed.

Lemma atom_transparent sync reads a : atom sync a -> transparent reads a.
Proof.
  intros Ha hc hm rest Hc Hm. destruct hc as [rc wc], hm as [rm wm].
  simpl in Hc, Hm. subst.
  destruct Ha as [t b | b | t e He _].
  - destruct t; reflexivity.
  - simpl. now rewrite orb_true_r.
  - destruct t; destruct e; try discriminate He; reflexivity.
Qed.

Lemma tame_transparent sync reads l : tame sync l -> transparent reads l.
Proof.
  induction 1 as [|a l Ha Hl IH]; intros hc hm rest Hc Hm; [reflexivity|].
  rewrite <- app_assoc.
  rewrite (atom_transparent sync reads a Ha) by assumption. now apply IH.
Qed.

Lemma transparent_passes reads l : transparent reads l -> passes reads l.
Proof.
  intros H hc hm Hc Hm. rewrite <- (app_nil_r l). now rewrite H.
Qed.

Lemma passes_app reads l1 l2 :
  transparent reads l1 -> passes reads l2 -> passes reads (l1 ++ l2).
Proof. intros H1 H2 hc hm Hc Hm. rewrite H1 by assumption. now apply H2. Qed.

Lemma transparent_app reads l1 l2 :
  transparent reads l1 -> transparent reads l2 -> transparent reads (l1 ++ l2).
Proof.
  intros H1 H2 hc hm rest Hc Hm. rewrite <- app_assoc.
  rewrite H1 by assumption. now apply H2.
Qed.

Lemma passes_guarded l : passes true l -> guarded l = true.
Proof. intros H. now apply H. Qed.

Lemma passes_writes_guarded l : passes false l -> writes_guarded l = true.
Proof. intros H. now apply H. Qed.

(** No call of [VariableSync] in a trace. *)
Lemma tame_no_sync l t e : tame false l -> In (t, e) l -> is_sync e = false.
Proof.
  induction 1 as [|a l Ha Hl IH]; intros Hin; [destruct Hin|].
  apply in_app_or in Hin as [Hin|Hin]; [|now apply IH].
  destruct Ha as [t' b | b | t' e' He Hs]; simpl in Hin.
  - destruct Hin as [[= <- <-]|[[= <- <-]|[[= <- <-]|[]]]]; reflexivity.
  - destruct Hin as [[= <- <-]|[[= <- <-]|[[= <- <-]|[]]]]; reflexivity.
  - destruct Hin as [[= <- <-]|[]]. destruct (is_sync e'); [now specialize (Hs eq_refl) | reflexivity].
Qed.

(** * State invariants *)

Lemma evolves_refl w : evolves w w.
Proof. unfold evolves. repeat split; auto; lia. Qed.

Lemma evolves_trans w1 w2 w3 : evolves w1 w2 -> evolves w2 w3 -> evolves w1 w3.
Proof.
  unfold evolves. intros (Hh1 & Hn1 & Hp1 & Hq1) (Hh2 & Hn2 & Hp2 & Hq2).
  split; [congruence|]. split; [lia|]. split; [auto|lia].
Qed.

Lemma evolves_respawned w : evolves w (with_running false (respawned w)).
Proof. unfold evolves; simpl. repeat split; auto; lia. Qed.

Lemma evolves_same w w' :
  pid w' = pid w -> next_pid w' = next_pid w -> heap w' = heap w -> evolves w w'.
Proof. intros Hp Hn Hh. unfold evolves. rewrite Hp, Hn, Hh. repeat split; auto; lia. Qed.

(** * The monitor loop and the wait loop *)

Section Loops.
Variable json_loads : str -> option pyobj.

Lemma NodeSTDProc_run_cons raw poll rest w :
  NodeSTDProc_run json_loads ((raw, poll) :: rest) w =
  if negb (monitor_alive w) then Result (Val tt) w []
  else
    let ri := monitor_iter json_loads raw poll w in
    match out ri with
    | Val Break =>
        Result (Val tt) (with_monitor_alive false (post ri)) (evs ri)
    | Val Continue =>
        if stop_event (post ri) then
          Result (Val tt) (with_monitor_alive false (post ri)) (evs ri)
        else
          let rr := NodeSTDProc_run json_loads rest (post ri) in
          Result (out rr) (post rr) (evs ri ++ evs rr)
    | Exc e => Result (Exc e) (post ri) (evs ri)
    | Spin => Result Spin (post ri) (evs ri)
    | Deadlock => Result Deadlock (post ri) (evs ri)
    end.
Proof.
  cbn [NodeSTDProc_run]. unfold bind at 1, get at 1.
  destruct (negb (monitor_alive w)); [reflexivity|]. cbv zeta.
  unfold bind at 1.
  destruct (monitor_iter json_loads raw poll w) as [[[]|e| |] wi li];
    cbn [out post evs]; try reflexivity.
  - unfold bind at 1, get at 1.
    destruct (stop_event wi).
    + unfold thread_ends, bind, get, put. cbn. now rewrite !app_nil_r.
    + destruct (NodeSTDProc_run json_loads rest wi); reflexivity.
  - unfold thread_ends, bind, get, put. cbn. now rewrite !app_nil_r.
Qed.

(** What the loop of the monitor does to the state, whether it goes on
    waiting in [readline], ends, or raises. *)
Lemma NodeSTDProc_run_spec inputs w :
  exists o w' l,
    NodeSTDProc_run json_loads inputs w = Result o w' l /\
    (o = Val tt \/ exists e, o = Exc e) /\
    pid w' = pid w /\ next_pid w' = next_pid w /\ heap w' = heap w /\
    (NODE_IS_RUNNING w' = true -> NODE_IS_RUNNING w = true) /\
    tame false l.
Proof.
  revert w. induction inputs as [|[raw poll] rest IH]; intros w.
  - exists (Val tt), w, []. repeat split; auto. constructor.
  - rewrite NodeSTDProc_run_cons.
    destruct (negb (monitor_alive w)).
    { exists (Val tt), w, []. repeat split; auto. constructor. }
    cbv zeta. rewrite monitor_iter_eq.
    destruct (decode_utf8 raw) as [e|output]; cbn [out post evs].
    { exists (Exc e), w, []. repeat split; eauto. constructor. }
    destruct poll as [code|]; cbn [out post evs].
    { eexists _, _, _. split; [reflexivity|]. cbn. repeat split; auto.
      - discriminate.
      - apply tame_clear. }
    assert (Hgo : forall w1 l1,
               pid w1 = pid w -> next_pid w1 = next_pid w -> heap w1 = heap w ->
               (NODE_IS_RUNNING w1 = true -> NODE_IS_RUNNING w = true) ->
               tame false l1 ->
               exists o w' l,
                 (if stop_event w1
                  then Result (Val tt) (with_monitor_alive false w1) l1
                  else Result (out (NodeSTDProc_run json_loads rest w1))
                              (post (NodeSTDProc_run json_loads rest w1))
                              (l1 ++ evs (NodeSTDProc_run json_loads rest w1)))
                 = Result o w' l /\
                 (o = Val tt \/ exists e, o = Exc e) /\
                 pid w' = pid w /\ next_pid w' = next_pid w /\ heap w' = heap w /\
                 (NODE_IS_RUNNING w' = true -> NODE_IS_RUNNING w = true) /\
                 tame false l).
    { intros w1 l1 Hp1 Hn1 Hh1 Hf1 Ht1. destruct (stop_event w1).
      - eexists _, _, _. split; [reflexivity|]. cbn. repeat split; auto.
      - destruct (IH w1) as (o & w' & l & -> & Ho & Hp & Hn & Hh & Hf & Ht).
        cbn [out post evs]. exists o, w', (l1 ++ l). split; [reflexivity|].
        split; [exact Ho|]. repeat split; try congruence; auto.
        now apply tame_concat. }
    destruct (bool_decide (output = [])); cbn [out post evs].
    { apply Hgo; auto. constructor. }
    destruct (is_completion json_loads output); cbn [out post evs].
    + apply Hgo; auto; [discriminate | apply tame_clear].
    + apply Hgo; auto. apply tame_forwarded.
Qed.

Lemma monitor_run_spec inputs w :
  exists w' l,
    monitor_thread json_loads inputs w = Result (Val tt) w' l /\
    pid w' = pid w /\ next_pid w' = next_pid w /\ heap w' = heap w /\
    (NODE_IS_RUNNING w' = true -> NODE_IS_RUNNING w = true) /\
    tame false l.
Proof.
  unfold monitor_thread, Thread_bootstrap.
  destruct (NodeSTDProc_run_spec inputs w)
    as (o & w' & l & -> & [->|(e & ->)] & Hp & Hn & Hh & Hf & Ht).
  - exists w', l. repeat split; auto.
  - exists (with_monitor_alive false w'), l. repeat split; auto.
Qed.

Lemma wait_iter_eq timeout start t w :
  wait_iter timeout start t w =
  match interrupt t with
  | None =>
      match timeout with
      | Some T =>
          if (T <? now t - start)%Z then
            Result (Val (NODE_IS_RUNNING w)) (with_running false (respawned w))
                   (poll_trace (NODE_IS_RUNNING w) ++ timeout_trace T w)
          else Result (Val (NODE_IS_RUNNING w)) w (poll_trace (NODE_IS_RUNNING w))
      | None => Result (Val (NODE_IS_RUNNING w)) w (poll_trace (NODE_IS_RUNNING w))
      end
  | Some p =>
      if match p, timeout with
         | (AfterCancel | HoldingWrite | AfterForcing), Some T =>
             negb (T <? now t - start)%Z
         | (AfterCancel | HoldingWrite | AfterForcing), None => true
         | _, _ => false
         end
      then Result (Val (NODE_IS_RUNNING w)) w (poll_trace (NODE_IS_RUNNING w))
      else
        match p with
        | AtLoopTest => Result (Exc KeyboardInterrupt) w []
        | BeforeAcquire | AfterRelease =>
            Result (Exc KeyboardInterrupt) (with_running false (respawned w))
                   (interrupted_prefix p (NODE_IS_RUNNING w) ++ interrupt_trace w)
        | HoldingRead =>
            Result Deadlock (respawned w)
                   (interrupted_prefix p (NODE_IS_RUNNING w) ++ cancel_trace w)
        | AfterCancel =>
            Result (Exc KeyboardInterrupt)
                   (with_running false (respawned (respawned w)))
                   (poll_trace (NODE_IS_RUNNING w) ++ timeout_prefix p w
                      ++ interrupt_trace (respawned w))
        | HoldingWrite =>
            Result Deadlock (respawned (with_running false (respawned w)))
                   (poll_trace (NODE_IS_RUNNING w) ++ timeout_prefix p w
                      ++ cancel_trace (respawned w))
        | AfterForcing =>
            Result (Exc KeyboardInterrupt)
                   (with_running false (respawned (respawned w)))
                   (poll_trace (NODE_IS_RUNNING w) ++ timeout_prefix p w
                      ++ interrupt_trace (respawned w))
        end
  end.
Proof.
  unfold wait_iter, wait_body, interrupt_at, interrupt_trace, timeout_trace,
    timeout_prefix.
  destruct (interrupt t) as [[]|];
    (destruct timeout as [T|]; [destruct (T <? now t - start)%Z|]);
    unfold_monad; cbn -[cancel lit]; rewrite ?cancel_true;
    cbn -[lit cancel_trace cancel]; rewrite ?cancel_true;
    unfold cancel_trace; destruct (reaped w);
    cbn -[lit]; rewrite ?app_nil_r, <- ?app_assoc; reflexivity.
Qed.

Lemma wait_loop_cons timeout start t rest w :
  wait_loop json_loads timeout start true (t :: rest) w =
  let rm := monitor_thread json_loads (mon t) w in
  let rb := wait_iter timeout start t (post rm) in
  match out rb with
  | Val f =>
      let rl := wait_loop json_loads timeout start f rest (post rb) in
      Result (out rl) (post rl) (evs rm ++ evs rb ++ evs rl)
  | Exc x => Result (Exc x) (post rb) (evs rm ++ evs rb)
  | Spin => Result Spin (post rb) (evs rm ++ evs rb)
  | Deadlock => Result Deadlock (post rb) (evs rm ++ evs rb)
  end.
Proof.
  cbn [wait_loop]. cbv zeta. unfold bind at 1.
  destruct (monitor_run_spec (mon t) w) as (wm & lm & -> & _). cbn [out post evs].
  unfold bind.
  destruct (wait_iter timeout start t wm) as [[f|x| |] wb lb]; cbn [out post evs];
    try reflexivity.
  destruct (wait_loop json_loads timeout start f rest wb) as [o wl ll].
  reflexivity.
Qed.


Lemma no_sync_app l1 l2 : no_sync l1 -> no_sync l2 -> no_sync (l1 ++ l2).
Proof.
  intros H1 H2 t e Hin. apply in_app_or in Hin as [Hin|Hin]; eauto.
Qed.

Lemma tame_no_sync' l : tame false l -> no_sync l.
Proof. intros H t e. now apply tame_no_sync. Qed.

Lemma tame_interrupt w : tame false (interrupt_trace w).
Proof.
  unfold interrupt_trace.
  apply tame_concat; [apply tame_cancel|].
  apply tame_concat; [apply tame_clear | now apply tame_plain].
Qed.

Lemma tame_interrupted p b w :
  p = BeforeAcquire \/ p = AfterRelease ->
  tame false (interrupted_prefix p b ++ interrupt_trace w).
Proof.
  intros [->| ->]; cbn [interrupted_prefix]; [apply tame_interrupt|].
  apply tame_concat; [apply tame_poll | apply tame_interrupt].
Qed.

Lemma no_sync_interrupted p b w :
  no_sync (interrupted_prefix p b ++ interrupt_trace w).
Proof.
  apply no_sync_app; [|apply tame_no_sync', tame_interrupt].
  destruct p; cbn; intros t e Hin;
    repeat (destruct Hin as [[= <- <-]|Hin]; [reflexivity|]); destruct Hin.
Qed.

Lemma evolves_respawned_twice w :
  evolves w (with_running false (respawned (respawned w))).
Proof. unfold evolves; simpl. repeat split; auto; lia. Qed.

Lemma evolves_respawned' w : evolves w (respawned w).
Proof. unfold evolves; simpl. repeat split; auto; lia. Qed.

(** The test of the loop and its body. *)
Lemma wait_iter_spec timeout start t w :
  let rb := wait_iter timeout start t w in
  evolves w (post rb) /\
  passes true (evs rb) /\
  no_sync (evs rb) /\
  (out rb <> Deadlock -> tame false (evs rb)) /\
  ((out rb = Val (NODE_IS_RUNNING w) /\
    (NODE_IS_RUNNING w = false -> NODE_IS_RUNNING (post rb) = false)) \/
   out rb = Exc KeyboardInterrupt \/ out rb = Deadlock).
Proof.
  cbv zeta. rewrite wait_iter_eq.
  assert (Htame : forall (o : outcome bool) w' l,
             evolves w w' -> tame false l ->
             (o = Val (NODE_IS_RUNNING w) /\
              (NODE_IS_RUNNING w = false -> NODE_IS_RUNNING w' = false)) \/
             o = Exc KeyboardInterrupt ->
             evolves w (post (Result o w' l)) /\
             passes true (evs (Result o w' l)) /\
             no_sync (evs (Result o w' l)) /\
             (out (Result o w' l) <> Deadlock -> tame false (evs (Result o w' l))) /\
             ((out (Result o w' l) = Val (NODE_IS_RUNNING w) /\
               (NODE_IS_RUNNING w = false ->
                NODE_IS_RUNNING (post (Result o w' l)) = false)) \/
              out (Result o w' l) = Exc KeyboardInterrupt \/
              out (Result o w' l) = Deadlock)).
  { intros o w' l He Hl Ho. cbn [out post evs].
    split; [exact He|].
    split; [apply transparent_passes, (tame_transparent false), Hl|].
    split; [now apply tame_no_sync'|].
    split; [intros _; exact Hl|].
    destruct Ho as [Ho|Ho]; [left; exact Ho | right; left; exact Ho]. }
  assert (Hblocked : forall w' l,
             evolves w w' -> passes true l -> no_sync l ->
             evolves w (post (@Result bool Deadlock w' l)) /\
             passes true (evs (@Result bool Deadlock w' l)) /\
             no_sync (evs (@Result bool Deadlock w' l)) /\
             (out (@Result bool Deadlock w' l) <> Deadlock ->
              tame false (evs (@Result bool Deadlock w' l))) /\
             ((out (@Result bool Deadlock w' l) = Val (NODE_IS_RUNNING w) /\
               (NODE_IS_RUNNING w = false ->
                NODE_IS_RUNNING (post (@Result bool Deadlock w' l)) = false)) \/
              out (@Result bool Deadlock w' l) = Exc KeyboardInterrupt \/
              out (@Result bool Deadlock w' l) = Deadlock)).
  { intros w' l He Hp Hn. cbn [out post evs].
    split; [exact He|]. split; [exact Hp|]. split; [exact Hn|].
    split; [intros H; now contradiction H | right; right; reflexivity]. }
  assert (Hquiet : forall T : Z,
             tame false (poll_trace (NODE_IS_RUNNING w) ++ timeout_trace T w)).
  { intros T. apply tame_concat; [apply tame_poll | apply tame_timeout]. }
  destruct (interrupt t) as [p|].
  2:{ destruct timeout as [T|]; [destruct (T <? now t - start)%Z|].
      - apply Htame; [apply evolves_respawned | apply Hquiet | left; now split].
      - apply Htame; [apply evolves_refl | apply tame_poll | left; now split].
      - apply Htame; [apply evolves_refl | apply tame_poll | left; now split]. }
  destruct (match p, timeout with
            | (AfterCancel | HoldingWrite | AfterForcing), Some T =>
                negb (T <? now t - start)%Z
            | (AfterCancel | HoldingWrite | AfterForcing), None => true
            | _, _ => false
            end).
  { apply Htame; [apply evolves_refl | apply tame_poll | left; now split]. }
  destruct p.
  - apply Htame; [apply evolves_refl | constructor | now right].
  - apply Htame; [apply evolves_respawned | | now right].
    apply tame_interrupted. now left.
  - apply Hblocked; [apply evolves_respawned' | |].
    + intros [rc wc] hm Hc Hm. simpl in Hc. subst.
      unfold cancel_trace. destruct (reaped w); reflexivity.
    + intros t' e Hin. unfold cancel_trace in Hin.
      destruct (reaped w); cbn in Hin;
        repeat (destruct Hin as [[= <- <-]|Hin]; [reflexivity|]); destruct Hin.
  - apply Htame; [apply evolves_respawned | | now right].
    apply tame_interrupted. now right.
  - apply Htame; [apply evolves_respawned_twice | | now right].
    apply tame_concat; [apply tame_poll|]. unfold timeout_prefix.
    rewrite app_nil_r. apply tame_concat; [apply tame_cancel | apply tame_interrupt].
  - apply Hblocked; [unfold evolves; simpl; repeat split; auto; lia | |].
    + apply passes_app; [apply (tame_transparent false), tame_poll|].
      intros [rc wc] hm Hc Hm. simpl in Hc. subst.
      unfold timeout_prefix, cancel_trace. destruct (reaped w); reflexivity.
    + intros t' e Hin. unfold timeout_prefix, cancel_trace in Hin.
      destruct (reaped w); cbn in Hin;
        repeat (destruct Hin as [[= <- <-]|Hin]; [reflexivity|]); destruct Hin.
  - apply Htame; [apply evolves_respawned_twice | | now right].
    apply tame_concat; [apply tame_poll|]. unfold timeout_prefix.
    rewrite <- app_assoc.
    apply tame_concat; [apply tame_cancel|].
    apply tame_concat; [apply tame_clear | apply tame_interrupt].
Qed.

(** One iteration of the wait loop. *)
Lemma wait_step timeout start t w :
  let rm := monitor_thread json_loads (mon t) w in
  let rb := wait_iter timeout start t (post rm) in
  evolves w (post rb) /\
  passes true (evs rm ++ evs rb) /\
  no_sync (evs rm ++ evs rb) /\
  (out rb <> Deadlock -> tame false (evs rm ++ evs rb)) /\
  ((exists f, out rb = Val f /\
              (f = false -> NODE_IS_RUNNING (post rb) = false) /\
              (NODE_IS_RUNNING w = false -> f = false)) \/
   out rb = Exc KeyboardInterrupt \/ out rb = Deadlock).
Proof.
  cbv zeta.
  destruct (monitor_run_spec (mon t) w) as (wm & lm & -> & Hp & Hn & Hh & Hf & Ht).
  cbn [post evs].
  destruct (wait_iter_spec timeout start t wm) as (Hev & Hpass & Hns & Htame & Hcase).
  assert (Hev0 : evolves w wm) by now apply evolves_same.
  assert (Hflag : NODE_IS_RUNNING w = false -> NODE_IS_RUNNING wm = false).
  { intros H0. destruct (NODE_IS_RUNNING wm); [|reflexivity].
    rewrite Hf in H0; [discriminate | reflexivity]. }
  split; [eapply evolves_trans; eassumption|].
  split; [apply passes_app; [apply (tame_transparent false), Ht | exact Hpass]|].
  split; [apply no_sync_app; [now apply tame_no_sync' | exact Hns]|].
  split; [intros Hb; apply tame_concat; auto|].
  destruct Hcase as [(Ho & Hfl)|Ho]; [left | right; exact Ho].
  exists (NODE_IS_RUNNING wm). split; [exact Ho|]. split; [|exact Hflag].
  intros H0. now apply Hfl.
Qed.

(** The wait loop as a whole. *)
Lemma wait_loop_spec timeout start flag ts w :
  let r := wait_loop json_loads timeout start flag ts w in
  evolves w (post r) /\
  passes true (evs r) /\
  no_sync (evs r) /\
  (out r = Val tt \/ out r = Exc KeyboardInterrupt \/ out r = Spin
   \/ out r = Deadlock) /\
  ((flag = false -> NODE_IS_RUNNING w = false) ->
   out r = Val tt -> NODE_IS_RUNNING (post r) = false) /\
  (out r <> Deadlock -> tame false (evs r)).
Proof.
  cbv zeta. revert flag w. induction ts as [|t rest IH]; intros flag w.
  - destruct flag; cbn;
      (split; [apply evolves_refl|]; split; [intros ? ? ? ?; reflexivity|];
       split; [intros ? ? []|]; split; [auto|]; split; [|intros _; constructor]).
    + intros _ H. discriminate H.
    + intros H _. now apply H.
  - destruct flag.
    2:{ cbn. split; [apply evolves_refl|]. split; [intros ? ? ? ?; reflexivity|].
        split; [intros ? ? []|]. split; [auto|].
        split; [intros H _; now apply H | intros _; constructor]. }
    rewrite wait_loop_cons. cbv zeta.
    destruct (wait_step timeout start t w) as (Hev & Hpass & Hns & Htame & Hcase).
    destruct Hcase as [(f & Hout & Hf & Hf')|[Hout|Hout]]; rewrite Hout in *;
      cbn [out post evs].
    + specialize (IH f (post (wait_iter timeout start t
                               (post (monitor_thread json_loads (mon t) w))))).
      destruct IH as (IHev & IHpass & IHns & IHout & IHfl & IHtame).
      assert (Htame' : tame false
                         (evs (monitor_thread json_loads (mon t) w)
                            ++ evs (wait_iter timeout start t
                                      (post (monitor_thread json_loads (mon t) w)))))
        by (apply Htame; discriminate).
      split; [eapply evolves_trans; eassumption|].
      rewrite app_assoc.
      split; [apply passes_app; [apply (tame_transparent false), Htame' | exact IHpass]|].
      split; [apply no_sync_app; assumption|].
      split; [exact IHout|].
      split; [intros _ Hv; apply IHfl; assumption|].
      intros Hx. apply tame_concat; auto.
    + split; [exact Hev|]. split; [exact Hpass|]. split; [exact Hns|].
      split; [right; left; reflexivity|].
      split; [intros _ H; discriminate H | intros _; apply Htame; discriminate].
    + split; [exact Hev|]. split; [exact Hpass|]. split; [exact Hns|].
      split; [right; right; right; reflexivity|].
      split; [intros _ H; discriminate H | intros Hx; now contradiction Hx].
Qed.

(** A loop that is still waiting after the iterations [before] goes on with
    the following ones. *)
Lemma wait_loop_app timeout start flag before rest w :
  out (wait_loop json_loads timeout start flag before w) = Spin ->
  wait_loop json_loads timeout start flag (before ++ rest) w =
  let r := wait_loop json_loads timeout start flag before w in
  let r' := wait_loop json_loads timeout start true rest (post r) in
  Result (out r') (post r') (evs r ++ evs r').
Proof.
  cbv zeta. revert flag w. induction before as [|t before IH]; intros flag w Hspin.
  - destruct flag; [|discriminate Hspin]. cbn [app wait_loop spin post evs].
    destruct (wait_loop json_loads timeout start true rest w); reflexivity.
  - destruct flag; [|discriminate Hspin].
    rewrite <- app_comm_cons. rewrite !wait_loop_cons in *. cbv zeta in *.
    destruct (wait_step timeout start t w) as (_ & _ & _ & _ & Hcase).
    destruct (out (wait_iter timeout start t
                     (post (monitor_thread json_loads (mon t) w)))) as [f|x| |];
      cbn [out post evs] in *; try discriminate Hspin.
    + rewrite (IH f _ Hspin). cbn [out post evs]. now rewrite !app_assoc.
    + destruct Hcase as [(f & Hf & _)|[Hx|Hx]]; discriminate.
Qed.

End Loops.

(** * [Node.write] and [Node.run] as a whole *)

Lemma build_frame_exn s e : build_frame s = inl e -> is_Exception e = true.
Proof.
  unfold build_frame. cbv zeta.
  destruct (_ || _); [intros [= <-]; reflexivity|].
  destruct (encode_utf8 _); [discriminate | intros [= <-]; reflexivity].
Qed.

Lemma tame_failure_prints sync e : tame sync (failure_prints e).
Proof.
  unfold failure_prints. destruct (contains _ _);
    repeat (apply tame_cons_plain; [reflexivity | reflexivity |]); constructor.
Qed.

Lemma tame_write_failure sync e w : tame sync (write_failure_trace e w).
Proof.
  unfold write_failure_trace.
  apply tame_concat; [apply tame_cancel|].
  apply tame_concat; [apply tame_failure_prints | apply tame_clear].
Qed.

(** [Node.write] returns 1 with the state unchanged, or -1 with a fresh
    process and the flag cleared, or lets the [KeyboardInterrupt] through
    that was delivered in [stdin.write]. *)
Lemma write_spec p s w :
  (exists data,
      build_frame s = inr data /\ p = PipeOk /\
      write p s w = Result (Val 1%Z) w
                           [(Coordinator, stdin_write (pid w) data);
                            (Coordinator, stdin_flush (pid w))]) \/
  (exists l,
      write p s w = Result (Val (-1)%Z) (with_running false (respawned w)) l /\
      tame false l) \/
  (exists data,
      build_frame s = inr data /\ p = WriteInterrupted /\
      write p s w = Result (Exc KeyboardInterrupt) w []).
Proof.
  destruct (build_frame s) as [e|data] eqn:Hf.
  - right. left. eexists. split.
    + apply write_frame_fails; [exact Hf | now apply build_frame_exn in Hf].
    + apply tame_write_failure.
  - destruct p as [|m|m|].
    + left. exists data. repeat split. now apply write_ok.
    + right. left. eexists.
      split; [now apply (write_raises s data) | apply tame_write_failure].
    + right. left. eexists. split; [now apply (flush_raises s data)|].
      apply tame_cons_plain; [reflexivity | reflexivity | apply tame_write_failure].
    + right. right. exists data. repeat split. now apply (write_interrupted s data).
Qed.

Section Run.
Variable json_loads : str -> option pyobj.

Lemma run_eq script vars timeout e w :
  run json_loads script vars timeout e w =
  let v := default run_default_vars vars in
  let rw := write (pipe e) script (with_running true w) in
  match out rw with
  | Val retCode =>
      if (retCode <? 0)%Z then
        Result (Val None) (post rw)
               (dispatch_trace v w ++ evs rw
                  ++ [(Coordinator, print (lit "Could not run script"))])
      else
        let rm := monitor_thread json_loads (early e) (post rw) in
        let f := NODE_IS_RUNNING (post rm) in
        let rl := wait_loop json_loads timeout (start e) f (ticks e) (post rm) in
        let pre := dispatch_trace v w ++ evs rw ++ evs rm
                     ++ [(Coordinator, read_flag f)] ++ evs rl in
        match out rl with
        | Val _ =>
            Result (Val (Some v))
                   (with_heap (<[v := merge_vars (dict_at (post rl) v) (pulled e)]>
                                 (heap (post rl))) (post rl))
                   (pre ++ [(Coordinator, syncfrom (pulled e))])
        | Exc x => Result (Exc x) (post rl) pre
        | Spin => Result Spin (post rl) pre
        | Deadlock => Result Deadlock (post rl) pre
        end
  | Exc x => Result (Exc x) (post rw) (dispatch_trace v w ++ evs rw)
  | Spin => Result Spin (post rw) (dispatch_trace v w ++ evs rw)
  | Deadlock => Result Deadlock (post rw) (dispatch_trace v w ++ evs rw)
  end.
Proof.
  unfold run. cbv zeta. set (v := default run_default_vars vars).
  unfold bind at 1, get at 1. unfold bind at 1, emit at 1.
  unfold bind at 1, emit at 1. unfold bind at 1, set_running at 1.
  unfold bind at 1, get at 1. unfold bind at 1, put at 1. unfold emit at 1.
  unfold bind at 1, emit at 1. unfold bind at 1.
  change (World true (pid w) (reaped w) (stop_event w) (monitor_alive w)
                (next_pid w) (heap w)) with (with_running true w).
  destruct (write (pipe e) script (with_running true w)) as [[rc|x| |] w1 l1];
    cbn [out post evs]; try reflexivity.
  destruct (rc <? 0)%Z.
  - unfold bind, emit, ret. cbn [app]. unfold dispatch_trace.
    cbn [app]. reflexivity.
  - unfold bind at 1.
    destruct (monitor_run_spec json_loads (early e) w1) as (wm & lm & -> & _).
    cbn [out post evs].
    unfold bind at 1, get_running at 1. unfold bind at 1, get at 1.
    unfold bind at 1, emit at 1. unfold ret at 1. unfold bind at 1.
    destruct (wait_loop json_loads timeout (start e) (NODE_IS_RUNNING wm)
                        (ticks e) wm) as [[[]|x| |] wl ll]; cbn [out post evs];
      unfold dispatch_trace; cbn [app]; rewrite ?app_nil_r, <- ?app_assoc;
      reflexivity.
Qed.

End Run.

Section RunFacts.
Variable json_loads : str -> option pyobj.

(** A dispatch that fails: nothing but the handler of [Node.write] runs. *)
Lemma run_write_failed script vars timeout e w l :
  write (pipe e) script (with_running true w)
  = Result (Val (-1)%Z) (with_running false (respawned w)) l ->
  run json_loads script vars timeout e w =
  Result (Val None) (with_running false (respawned w))
         (dispatch_trace (default run_default_vars vars) w ++ l
            ++ [(Coordinator, print (lit "Could not run script"))]).
Proof. intros H. rewrite run_eq. cbv zeta. rewrite H. reflexivity. Qed.

Lemma run_frame_fails script vars timeout e w err :
  build_frame script = inl err ->
  run json_loads script vars timeout e w =
  Result (Val None) (with_running false (respawned w))
         (dispatch_trace (default run_default_vars vars) w
            ++ write_failure_trace err w
            ++ [(Coordinator, print (lit "Could not run script"))]).
Proof.
  intros H. apply run_write_failed.
  exact (write_frame_fails (pipe e) script err (with_running true w) H
                           (build_frame_exn script err H)).
Qed.

End RunFacts.

Lemma not_stdin_write_failure e w q data :
  ~ In (Coordinator, stdin_write q data) (write_failure_trace e w).
Proof.
  unfold write_failure_trace, cancel_trace, failure_prints, clear_trace.
  destruct (reaped w), (contains _ _); cbn [app]; intros Hin;
    repeat (destruct Hin as [Hin|Hin]; [discriminate Hin|]); destruct Hin.
Qed.

Lemma long_script_payload (n : N) :
  exists payload,
    payload_of (repeat 97 (N.to_nat n)) = Some payload /\ n <= len payload.
Proof.
  eexists. split; [apply payload_of_total|].
  unfold len. rewrite length_map.
  pose proof (json_dumps_script_length (repeat 97 (N.to_nat n))) as H.
  rewrite repeat_length in H. lia.
Qed.

Lemma oversized_payload :
  exists payload,
    payload_of oversized_script = Some payload /\ 16 ^ 8 <= len payload.
Proof. exact (long_script_payload (16 ^ 8)). Qed.

(** * The claims *)

(** C1.  For every script whose payload has byte length [L < 16^8], what
    [Node.write] hands to the input stream of the companion is the byte
    [E], eight lower-case hexadecimal digits whose value is [L], the byte
    [C], and then the payload: the UTF-8 encoding of the structured text.
    ([header_value] accepts the digits [0-9a-f] only.)  This is the only
    write to the stream, whatever the pipe does. *)
Theorem C1_frame_is_header_then_payload
        (script : str) (payload : bytes) (w : world) :
  payload_of script = Some payload ->
  len payload < 16 ^ 8 ->
  exists digits : bytes,
    length digits = 8%nat /\
    header_value digits = Some (len payload) /\
    write PipeOk script w =
      Result (Val 1%Z) w
             [(Coordinator,
               stdin_write (pid w) ([x45] ++ digits ++ [x43] ++ payload));
              (Coordinator, stdin_flush (pid w))] /\
    forall p q data,
      In (Coordinator, stdin_write q data) (evs (write p script w)) ->
      q = pid w /\ data = [x45] ++ digits ++ [x43] ++ payload.
Proof.
  intros Hp Hl.
  pose proof (build_frame_small script payload Hp Hl) as Hf.
  destruct (header_field _ Hl) as (H8 & _ & Hv).
  exists (map byte_of_N (zfill 8 (drop 2 (hex (len payload))))).
  split; [now rewrite length_map|]. split; [exact Hv|].
  split; [now apply write_ok|].
  intros p q data Hin. destruct p as [|m|m|].
  4:{ rewrite (write_interrupted _ _ _ Hf) in Hin. destruct Hin. }
  - rewrite (write_ok _ _ _ Hf) in Hin. cbn [evs] in Hin.
    destruct Hin as [[= <- <-]|[[=]|[]]]. now split.
  - rewrite (write_raises _ _ m _ Hf) in Hin. cbn [evs] in Hin.
    now apply not_stdin_write_failure in Hin.
  - rewrite (flush_raises _ _ m _ Hf) in Hin. cbn [evs] in Hin.
    destruct Hin as [[= <- <-]|Hin]; [now split|].
    now apply not_stdin_write_failure in Hin.
Qed.

Lemma C1_witness :
  exists digits : bytes,
    length digits = 8%nat /\
    header_value digits = Some (len payload0) /\
    write PipeOk script0 w0 =
      Result (Val 1%Z) w0
             [(Coordinator,
               stdin_write (pid w0) ([x45] ++ digits ++ [x43] ++ payload0));
              (Coordinator, stdin_flush (pid w0))] /\
    forall p q data,
      In (Coordinator, stdin_write q data) (evs (write p script0 w0)) ->
      q = pid w0 /\ data = [x45] ++ digits ++ [x43] ++ payload0.
Proof.
  apply (C1_frame_is_header_then_payload script0 payload0 w0).
  - vm_compute. reflexivity.
  - vm_compute. reflexivity.
Defined.

(** C3, as the code has it.  For every payload of length at least [16^8],
    [Node.write] fails before anything is written to the input stream: the
    [raise] of a tuple is a [TypeError], which the handler of [write] turns
    into the result -1, and [run] returns [None] without waiting or
    pulling.  The handler calls [cancel()] for every exception, so the
    companion process is killed and a new one is spawned. *)
Theorem C3_oversized_fails_before_write_and_restarts
        (json_loads : str -> option pyobj) (script : str) (payload : bytes)
        (vars : option loc) (timeout : option Z) (e : env) (w : world) :
  payload_of script = Some payload ->
  16 ^ 8 <= len payload ->
  let err := TypeError (lit "exceptions must derive from BaseException") in
  let r := run json_loads script vars timeout e w in
  build_frame script = inl err /\
  r = Result (Val None) (with_running false (respawned w))
             (dispatch_trace (default run_default_vars vars) w
                ++ write_failure_trace err w
                ++ [(Coordinator, print (lit "Could not run script"))]) /\
  (forall q data, ~ In (Coordinator, stdin_write q data) (evs r)) /\
  In (Coordinator, spawn (next_pid w)) (evs r) /\
  pid (post r) = next_pid w.
Proof.
  intros Hp Hl err r.
  pose proof (build_frame_oversized script payload Hp Hl) as Hf.
  subst r. rewrite (run_frame_fails json_loads script vars timeout e w err Hf).
  split; [exact Hf|]. split; [reflexivity|]. cbn [evs post].
  split; [|split; [|reflexivity]].
  - intros q data Hin. apply in_app_or in Hin as [Hin|Hin].
    + cbn in Hin. repeat (destruct Hin as [Hin|Hin]; [discriminate Hin|]).
      destruct Hin.
    + apply in_app_or in Hin as [Hin|Hin];
        [now apply not_stdin_write_failure in Hin|].
      destruct Hin as [Hin|[]]. discriminate Hin.
  - apply in_or_app. right. apply in_or_app. left.
    unfold write_failure_trace, cancel_trace. apply in_or_app. left.
    apply in_or_app. right. right. left. reflexivity.
Qed.

Lemma C3_witness :
  exists payload,
    payload_of oversized_script = Some payload /\
    16 ^ 8 <= len payload /\
    pid (post (run JSON.loads oversized_script None None env_idle w0)) = 101.
Proof.
  destruct oversized_payload as (payload & Hp & Hl).
  exists payload. split; [exact Hp|]. split; [exact Hl|].
  exact (proj2 (proj2 (proj2 (proj2
           (C3_oversized_fails_before_write_and_restarts
              JSON.loads oversized_script payload None None env_idle w0
              Hp Hl))))).
Defined.

(** C3 as stated fails: on an oversized script the companion process is
    restarted. *)
Lemma C3_counterexample :
  exists payload,
    payload_of oversized_script = Some payload /\
    16 ^ 8 <= len payload /\
    let r := run JSON.loads oversized_script None None env_idle w0 in
    In (Coordinator, kill 100) (evs r) /\
    In (Coordinator, spawn 101) (evs r) /\
    pid (post r) <> pid w0.
Proof.
  destruct oversized_payload as (payload & Hp & Hl).
  exists payload. split; [exact Hp|]. split; [exact Hl|]. cbv zeta.
  rewrite (run_frame_fails JSON.loads oversized_script None None env_idle w0 _
             (build_frame_oversized _ _ Hp Hl)).
  cbn [evs post]. split; [|split].
  - vm_compute. tauto.
  - vm_compute. tauto.
  - vm_compute. discriminate.
Qed.

(** C7.  When [stdin.write] or [stdin.flush] raises (a broken pipe or any
    other I/O error), [Node.write] does not raise: it returns -1 to [run],
    which prints a message and returns [None] to its caller, without
    entering the wait loop and without pulling variables; the handler has
    killed the companion process and spawned a new one, and cleared the
    flag under the write lock. *)
Theorem C7_write_failure_is_reported_and_process_restarted
        (json_loads : str -> option pyobj) (script : str) (payload : bytes)
        (vars : option loc) (timeout : option Z) (e : env) (w : world)
        (msg : str) :
  payload_of script = Some payload ->
  len payload < 16 ^ 8 ->
  pipe e = WriteRaises msg \/ pipe e = FlushRaises msg ->
  let r := run json_loads script vars timeout e w in
  out (write (pipe e) script (with_running true w)) = Val (-1)%Z /\
  out r = Val None /\
  post r = with_running false (respawned w) /\
  exists sent,
    (sent = [] \/ exists data, sent = [(Coordinator, stdin_write (pid w) data)]) /\
    evs r = dispatch_trace (default run_default_vars vars) w
              ++ sent
              ++ (cancel_trace w ++ failure_prints (OSError msg)
                    ++ clear_trace Coordinator)
              ++ [(Coordinator, print (lit "Could not run script"))].
Proof.
  intros Hp Hl Hpipe r.
  pose proof (build_frame_small script payload Hp Hl) as Hf.
  destruct Hpipe as [Hpipe|Hpipe].
  - pose proof (write_raises script _ msg (with_running true w) Hf) as Hw.
    rewrite <- Hpipe in Hw.
    subst r. rewrite (run_write_failed json_loads script vars timeout e w _ Hw).
    rewrite Hw. cbn [out post evs]. repeat split. exists []. split; [now left|].
    reflexivity.
  - pose proof (flush_raises script _ msg (with_running true w) Hf) as Hw.
    rewrite <- Hpipe in Hw.
    subst r. rewrite (run_write_failed json_loads script vars timeout e w _ Hw).
    rewrite Hw. cbn [out post evs]. repeat split.
    eexists [_]. split; [right; eexists; reflexivity|]. reflexivity.
Qed.

Lemma C7_witness :
  let r := run JSON.loads script0 None None env_broken_pipe w0 in
  out r = Val None /\ post r = with_running false (respawned w0).
Proof.
  pose proof (C7_write_failure_is_reported_and_process_restarted
                JSON.loads script0 payload0 None None env_broken_pipe w0
                (lit "[Errno 32] Broken pipe")) as H.
  cbv zeta in H.
  assert (H1 : payload_of script0 = Some payload0) by (vm_compute; reflexivity).
  assert (H2 : len payload0 < 16 ^ 8) by (vm_compute; reflexivity).
  destruct (H H1 H2 (or_introl eq_refl)) as (_ & Ho & Hpost & _).
  split; [exact Ho | exact Hpost].
Defined.

(** C2.  The code breaks the claim on a line that is not UTF-8, here the
    byte [0xff] and a newline (for a line that is text it holds): the line is
    decoded outside the [try], so the [UnicodeDecodeError] leaves
    [NodeSTDProc.run] and ends the monitor thread.  The line is not
    forwarded, and the completion message that follows it is never
    handled: the flag stays set and a run with no timeout waits for ever.
    A line of text in the same place is printed, and the completion
    message after it clears the flag. *)
Theorem C2_undecodable_line_ends_the_monitor :
  decode_utf8 bad_line
  = inl (UnicodeDecodeError
           (lit "'utf-8' codec can't decode byte 0xff in position 0: invalid start byte")) /\
  (exists e, monitor_iter JSON.loads bad_line None w_running
             = Result (Exc e) w_running []) /\
  monitor_thread JSON.loads [(bad_line, None); (done_line, None)] w_running
  = Result (Val tt) (with_monitor_alive false w_running) [] /\
  monitor_thread JSON.loads [(log_line, None); (done_line, None)] w_running
  = Result (Val tt) w0
           ((Monitor, print (lit "hello")) :: clear_trace Monitor) /\
  (let r := run JSON.loads script0 None None
                (Env PipeOk [(bad_line, None); (done_line, None)] 0
                     [quiet_tick 1; Tick [(done_line, None)] None 2] ∅) w0 in
   out r = Spin /\ NODE_IS_RUNNING (post r) = true /\
   monitor_alive (post r) = false /\
   forall t e, In (t, e) (evs r) -> t = Coordinator).
Proof.
  split; [vm_compute; reflexivity|].
  split; [eexists; vm_compute; reflexivity|].
  split; [vm_compute; reflexivity|].
  split; [vm_compute; reflexivity|].
  cbv zeta. split; [vm_compute; reflexivity|].
  split; [vm_compute; reflexivity|].
  split; [vm_compute; reflexivity|].
  assert (H : forallb (fun te => match te.1 with
                                 | Coordinator => true
                                 | Monitor => false
                                 end)
                      (evs (run JSON.loads script0 None None
                              (Env PipeOk [(bad_line, None); (done_line, None)] 0
                                   [quiet_tick 1; Tick [(done_line, None)] None 2] ∅)
                              w0)) = true)
    by (vm_compute; reflexivity).
  intros t e Hin. rewrite forallb_forall in H. specialize (H _ Hin).
  destruct t; [reflexivity | discriminate H].
Qed.

(** * The locking discipline *)

Lemma guarded_from_mono hc hm l :
  guarded_from true hc hm l = true -> guarded_from false hc hm l = true.
Proof.
  revert hc hm. induction l as [|[t e] l IH]; intros hc hm H; [reflexivity|].
  destruct t; cbn [guarded_from] in *; apply andb_true_iff in H as [H1 H2];
    apply andb_true_iff; (split; [|now apply IH]);
    destruct e; cbn [access_ok negb orb] in *; auto.
Qed.

Lemma passes_mono l : passes true l -> passes false l.
Proof. intros H hc hm Hc Hm. apply guarded_from_mono. now apply H. Qed.

Lemma transparent_unlocked_read b :
  transparent false [(Coordinator, read_flag b)].
Proof. intros [rc wc] hm rest _ _. reflexivity. Qed.

Lemma tame_dispatch v w : tame true (dispatch_trace v w).
Proof.
  unfold dispatch_trace.
  apply (tame_concat true [_]); [apply tame_atom; now constructor|].
  apply tame_atom. constructor.
Qed.

Section Lock.
Variable json_loads : str -> option pyobj.

Lemma write_tame p s w : tame false (evs (write p s w)).
Proof.
  destruct (write_spec p s w)
    as [(data & _ & _ & ->)|[(l & -> & Hl)|(data & _ & _ & ->)]];
    cbn [evs]; [| exact Hl | constructor].
  repeat (apply tame_cons_plain; [reflexivity | reflexivity |]). constructor.
Qed.

Lemma write_out p s w :
  (exists rc, out (write p s w) = Val rc) \/
  (p = WriteInterrupted /\ out (write p s w) = Exc KeyboardInterrupt).
Proof.
  destruct (write_spec p s w)
    as [(data & _ & _ & ->)|[(l & -> & Hl)|(data & _ & -> & ->)]]; eauto.
Qed.

Lemma run_writes_pass script vars timeout e w :
  passes false (evs (run json_loads script vars timeout e w)).
Proof.
  rewrite run_eq. cbv zeta.
  set (v := default run_default_vars vars).
  set (rw := write (pipe e) script (with_running true w)).
  pose proof (write_tame (pipe e) script (with_running true w)) as Hw.
  assert (Hd : transparent false (dispatch_trace v w)).
  { apply (tame_transparent true), tame_dispatch. }
  assert (Hw' : transparent false (evs rw)) by now apply (tame_transparent false).
  destruct (write_out (pipe e) script (with_running true w)) as [(rc & Hrc)|(_ & Hrc)];
    fold rw in Hrc; rewrite Hrc.
  2:{ cbn [evs]. apply transparent_passes. now apply transparent_app. }
  destruct (rc <? 0)%Z; cbn [evs].
  - apply transparent_passes. apply transparent_app; [exact Hd|].
    apply transparent_app; [exact Hw'|].
    apply (tame_transparent false). now apply tame_plain.
  - destruct (monitor_run_spec json_loads (early e) (post rw))
      as (wm & lm & Hm & _ & _ & _ & _ & Hlm).
    rewrite Hm. cbn [post evs].
    destruct (wait_loop_spec json_loads timeout (start e) (NODE_IS_RUNNING wm)
                             (ticks e) wm) as (_ & Hpass & _ & _ & _ & Htame).
    set (rl := wait_loop json_loads timeout (start e) (NODE_IS_RUNNING wm)
                         (ticks e) wm) in *.
    assert (Hpre : forall tail,
               passes false tail ->
               passes false (dispatch_trace v w ++ evs rw ++ lm
                               ++ [(Coordinator, read_flag (NODE_IS_RUNNING wm))]
                               ++ tail)).
    { intros tail Htail.
      apply passes_app; [exact Hd|]. apply passes_app; [exact Hw'|].
      apply passes_app; [now apply (tame_transparent false)|].
      apply passes_app; [apply transparent_unlocked_read | exact Htail]. }
    destruct (out rl) as [[]|x| |] eqn:Hout; cbn [evs].
    + rewrite <- !app_assoc. apply Hpre.
      apply transparent_passes, transparent_app.
      * apply (tame_transparent false), Htame. congruence.
      * apply (tame_transparent true), tame_atom. now constructor.
    + apply Hpre. now apply passes_mono.
    + apply Hpre. now apply passes_mono.
    + apply Hpre. now apply passes_mono.
Qed.

End Lock.

(** C4, as the code has it.  Every write of the flag made by [Node.run],
    by [Node.write] and its failure handler and by the monitor is made by a
    thread that holds the write lock, and every read made in the wait loop
    is made under the read lock.  [Node.clean_lock] sets the flag to false
    without acquiring the lock, and then replaces the lock by a new one. *)
Theorem C4_flag_accesses_and_the_lock (json_loads : str -> option pyobj) :
  (forall script vars timeout e w,
      writes_guarded (evs (run json_loads script vars timeout e w)) = true) /\
  (forall timeout t0 flag ts w,
      guarded (evs (wait_loop json_loads timeout t0 flag ts w)) = true) /\
  (forall p s w, guarded (evs (write p s w)) = true) /\
  (forall inputs w, guarded (evs (NodeSTDProc_run json_loads inputs w)) = true) /\
  (forall w,
      clean_lock w =
      Result (Val tt) (with_running false w)
             [(Coordinator, write_flag false); (Coordinator, new_lock)]).
Proof.
  split; [|split; [|split; [|split]]].
  - intros. apply passes_writes_guarded, run_writes_pass.
  - intros timeout t0 flag ts w. apply passes_guarded.
    now destruct (wait_loop_spec json_loads timeout t0 flag ts w) as (_ & H & _).
  - intros p s w. apply passes_guarded, transparent_passes, (tame_transparent false).
    apply write_tame.
  - intros inputs w.
    apply passes_guarded, transparent_passes, (tame_transparent false).
    now destruct (NodeSTDProc_run_spec json_loads inputs w)
      as (o & w' & l & -> & _ & _ & _ & _ & _ & H).
  - reflexivity.
Qed.

(** C4 as stated fails: [clean_lock] writes the flag while holding nothing,
    and [run] reads it once before the wait loop while holding nothing. *)
Lemma C4_counterexample :
  guarded (evs (clean_lock w_running)) = false /\
  guarded (evs (run JSON.loads script0 None None env_idle w0)) = false /\
  evs (run JSON.loads script0 None None env_idle w0)
  = dispatch_trace run_default_vars w0
      ++ [(Coordinator, stdin_write 100 ([x45] ++ map byte_of_N (lit "00000013")
                                           ++ [x43] ++ payload0));
          (Coordinator, stdin_flush 100);
          (Coordinator, read_flag true)].
Proof. repeat split; vm_compute; reflexivity. Qed.

(** * Resuming a run that is still waiting *)

Section Resume.
Variable json_loads : str -> option pyobj.

Lemma wait_loop_false timeout start ts w :
  wait_loop json_loads timeout start false ts w = Result (Val tt) w [].
Proof. destruct ts; reflexivity. Qed.

Lemma run_with_ticks script vars timeout e w :
  run json_loads script vars timeout e w
  = run json_loads script vars timeout (with_ticks (ticks e) e) w.
Proof. rewrite !run_eq. reflexivity. Qed.

(** A run that is still in its wait loop after the iterations [before]
    has dispatched the script, has not touched the dict objects, and goes
    on with the iterations that follow. *)
Lemma run_resume script vars timeout e w before rest :
  out (run json_loads script vars timeout (with_ticks before e) w) = Spin ->
  let v := default run_default_vars vars in
  let r0 := run json_loads script vars timeout (with_ticks before e) w in
  let rl := wait_loop json_loads timeout (start e) true rest (post r0) in
  evolves w (post r0) /\
  run json_loads script vars timeout (with_ticks (before ++ rest) e) w =
  match out rl with
  | Val _ =>
      Result (Val (Some v))
             (with_heap (<[v := merge_vars (dict_at (post rl) v) (pulled e)]>
                           (heap (post rl))) (post rl))
             (evs r0 ++ evs rl ++ [(Coordinator, syncfrom (pulled e))])
  | Exc x => Result (Exc x) (post rl) (evs r0 ++ evs rl)
  | Spin => Result Spin (post rl) (evs r0 ++ evs rl)
  | Deadlock => Result Deadlock (post rl) (evs r0 ++ evs rl)
  end.
Proof.
  cbv zeta. rewrite !run_eq. cbv zeta.
  cbn [pipe early start ticks pulled with_ticks].
  set (rw := write (pipe e) script (with_running true w)).
  destruct (write_spec (pipe e) script (with_running true w))
    as [(data & _ & _ & Hw)|[(l & Hw & _)|(data & _ & _ & Hw)]];
    fold rw in Hw; rewrite Hw; cbn [out post evs]; [|discriminate|discriminate].
  change (1 <? 0)%Z with false. cbv iota.
  destruct (monitor_run_spec json_loads (early e) (with_running true w))
    as (wm & lm & Hm & Hp & Hn & Hh & _). rewrite Hm. cbn [post evs].
  set (f := NODE_IS_RUNNING wm).
  destruct (wait_loop_spec json_loads timeout (start e) f before wm)
    as (Hev & _).
  intros Hspin.
  assert (Hs : out (wait_loop json_loads timeout (start e) f before wm) = Spin).
  { destruct (out (wait_loop json_loads timeout (start e) f before wm))
      as [[]|x| |]; cbn [out] in Hspin; try discriminate Hspin; reflexivity. }
  rewrite (wait_loop_app json_loads timeout (start e) f before rest wm Hs).
  cbv zeta. rewrite Hs. cbn [out post evs].
  split.
  { eapply evolves_trans; [|exact Hev]. apply evolves_same; auto. }
  set (r0l := wait_loop json_loads timeout (start e) f before wm).
  destruct (wait_loop json_loads timeout (start e) true rest (post r0l))
    as [[[]|x| |] wl ll]; cbn [out post evs];
    rewrite <- ?app_assoc; cbn [app]; rewrite <- ?app_assoc; reflexivity.
Qed.

(** After a clock reading beyond the timeout the loop runs one more
    iteration at most. *)
Lemma timeout_two_ticks T start tk tk1 rest w :
  interrupt tk = None ->
  interrupt tk1 = None ->
  (T < now tk - start)%Z ->
  let rl := wait_loop json_loads (Some T) start true (tk :: tk1 :: rest) w in
  rl = wait_loop json_loads (Some T) start true [tk; tk1] w /\
  out rl = Val tt /\
  next_pid w <= pid (post rl) /\
  exists l1 w1 l2, evs rl = l1 ++ timeout_trace T w1 ++ l2.
Proof.
  intros Hi Hi1 HT. cbv zeta. rewrite !wait_loop_cons. cbv zeta.
  destruct (monitor_run_spec json_loads (mon tk) w)
    as (wm & lm & -> & Hp & Hn & Hh & _ & _). cbn [post evs].
  rewrite !wait_iter_eq, Hi.
  apply Z.ltb_lt in HT. rewrite HT. cbn [out post evs].
  destruct (NODE_IS_RUNNING wm).
  2:{ rewrite !wait_loop_false. cbn [out post evs].
      split; [reflexivity|]. split; [reflexivity|]. split; [simpl; lia|].
      exists (lm ++ poll_trace false), wm, [].
      now rewrite !app_nil_r, <- !app_assoc. }
  rewrite !wait_loop_cons. cbv zeta.
  destruct (monitor_run_spec json_loads (mon tk1) (with_running false (respawned wm)))
    as (wm1 & lm1 & -> & Hp1 & Hn1 & Hh1 & Hf1 & _). cbn [post evs].
  assert (Hfalse : NODE_IS_RUNNING wm1 = false).
  { destruct (NODE_IS_RUNNING wm1); [|reflexivity]. now specialize (Hf1 eq_refl). }
  rewrite !wait_iter_eq, Hi1, Hfalse.
  simpl in Hp1, Hn1.
  destruct (T <? now tk1 - start)%Z; cbn [out post evs];
    rewrite !wait_loop_false; cbn [out post evs];
    (split; [reflexivity|]; split; [reflexivity|]; split; [simpl; lia|]).
  - exists (lm ++ poll_trace true), wm, (lm1 ++ poll_trace false ++ timeout_trace T wm1).
    now rewrite !app_nil_r, <- !app_assoc.
  - exists (lm ++ poll_trace true), wm, (lm1 ++ poll_trace false).
    now rewrite !app_nil_r, <- !app_assoc.
Qed.

End Resume.

(** * A run that receives no completion signal keeps waiting *)

Section Quiet.
Variable json_loads : str -> option pyobj.

Lemma with_monitor_alive_same w : with_monitor_alive (monitor_alive w) w = w.
Proof. now destruct w. Qed.

(** Quiet inputs leave the state as it is, except that the thread ends
    after the first of them when [stop()] had been called. *)
Lemma monitor_quiet inputs w :
  Forall (fun i => quiet json_loads i = true) inputs ->
  exists l a,
    monitor_thread json_loads inputs w = Result (Val tt) (with_monitor_alive a w) l.
Proof.
  unfold monitor_thread, Thread_bootstrap.
  intros H. revert w. induction H as [|[raw poll] rest Hq _ IH]; intros w.
  { exists [], (monitor_alive w). now rewrite with_monitor_alive_same. }
  rewrite NodeSTDProc_run_cons.
  destruct (negb (monitor_alive w)).
  { exists [], (monitor_alive w). now rewrite with_monitor_alive_same. }
  cbv zeta. rewrite monitor_iter_eq.
  unfold quiet in Hq. cbn [fst snd] in Hq.
  apply andb_true_iff in Hq as [Hpoll Hdone].
  apply bool_decide_eq_true_1 in Hpoll. subst poll.
  destruct (decode_utf8 raw) as [e|output]; [discriminate Hdone|].
  apply negb_true_iff in Hdone. rewrite Hdone.
  assert (Hgo : forall l1,
             exists l a,
               match
                 (if stop_event w
                  then Result (Val tt) (with_monitor_alive false w) l1
                  else Result (out (NodeSTDProc_run json_loads rest w))
                              (post (NodeSTDProc_run json_loads rest w))
                              (l1 ++ evs (NodeSTDProc_run json_loads rest w)))
               with
               | Result (Exc _) w1 l2 => Result (Val tt) (with_monitor_alive false w1) l2
               | r => r
               end = Result (Val tt) (with_monitor_alive a w) l).
  { intros l1. destruct (stop_event w); [now exists l1, false|].
    destruct (IH w) as (l & a & Hrest).
    destruct (NodeSTDProc_run json_loads rest w) as [[[]|x| |] wr lr];
      cbn [out post evs] in *; try discriminate Hrest;
      exists (l1 ++ lr), a; f_equal; exact (f_equal post Hrest). }
  destruct (bool_decide (output = [])); cbn [out post evs]; apply Hgo.
Qed.

Lemma wait_loop_uneventful T start before w :
  NODE_IS_RUNNING w = true ->
  Forall (uneventful json_loads T start) before ->
  exists l a,
    wait_loop json_loads (Some T) start true before w
    = Result Spin (with_monitor_alive a w) l.
Proof.
  intros Hrun H. revert w Hrun.
  induction H as [|t rest (Hq & Hi & Ht) _ IH]; intros w Hrun.
  { exists [], (monitor_alive w). now rewrite with_monitor_alive_same. }
  rewrite wait_loop_cons. cbv zeta.
  destruct (monitor_quiet (mon t) w Hq) as (lm & a & ->). cbn [post evs].
  rewrite wait_iter_eq, Hi.
  replace (T <? now t - start)%Z with false by (symmetry; apply Z.ltb_ge; lia).
  cbn [out post evs NODE_IS_RUNNING with_monitor_alive]. rewrite Hrun.
  destruct (IH (with_monitor_alive a w) Hrun) as (l & a' & ->).
  eexists _, a'. reflexivity.
Qed.

(** After a dispatch that succeeded, as long as the monitor reads no
    completion message and does not find the process gone, no interrupt
    arrives and the clock stays within the timeout, [run] is in its wait
    loop. *)
Lemma run_uneventful script payload vars T e w before :
  payload_of script = Some payload ->
  len payload < 16 ^ 8 ->
  pipe e = PipeOk ->
  Forall (fun i => quiet json_loads i = true) (early e) ->
  Forall (uneventful json_loads T (start e)) before ->
  out (run json_loads script vars (Some T) (with_ticks before e) w) = Spin.
Proof.
  intros Hp Hl Hpipe Hearly Hbefore. rewrite run_eq. cbv zeta.
  cbn [pipe early start ticks pulled with_ticks]. rewrite Hpipe.
  rewrite (write_ok script _ (with_running true w)
                    (build_frame_small script payload Hp Hl)).
  cbn [out post evs]. change (1 <? 0)%Z with false. cbv iota.
  destruct (monitor_quiet (early e) (with_running true w) Hearly) as (lm & a & ->).
  cbn [post evs NODE_IS_RUNNING with_running with_monitor_alive].
  destruct (wait_loop_uneventful T (start e) before
              (with_monitor_alive a (with_running true w))
              eq_refl Hbefore) as (l & a' & ->).
  reflexivity.
Qed.

End Quiet.

(** C5.  The code breaks the claim in a run with a timeout of 5 that gets
    no completion signal and whose polls read the clock at 1, 3, 6 and 7
    (the run started at 0).  The poll at 6 finds the timeout passed: the
    coordinator calls [cancel()], which kills process 100 and spawns 101,
    clears the flag under the write lock and prints the message.  It does
    not leave the loop: [while flag] tests the value sampled before the
    branch, so a run whose scenario ends there is still in the loop, and
    the next iteration samples the flag (now false), finds the timeout
    passed again, and cancels, restarts and prints a second time, killing
    the fresh process 101.  Only then does the loop end; [run] returns the
    variable set with process 102 as companion. *)
Theorem C5_timeout_does_not_leave_the_loop :
  let r3 := run JSON.loads script0 None (Some 5%Z)
                (with_ticks [quiet_tick 1; quiet_tick 3; quiet_tick 6] env_slow)
                w0 in
  let r := run JSON.loads script0 None (Some 5%Z) env_slow w0 in
  out r3 = Spin /\
  NODE_IS_RUNNING (post r3) = false /\
  pid (post r3) = 101 /\
  out r = Val (Some run_default_vars) /\
  NODE_IS_RUNNING (post r) = false /\
  pid (post r) = 102 /\
  evs r
  = dispatch_trace run_default_vars w0
      ++ [(Coordinator, stdin_write 100 ([x45] ++ map byte_of_N (lit "00000013")
                                           ++ [x43] ++ payload0));
          (Coordinator, stdin_flush 100);
          (Coordinator, read_flag true)]
      ++ poll_trace true
      ++ poll_trace true
      ++ poll_trace true ++ timeout_trace 5 w_running
      ++ poll_trace false ++ timeout_trace 5 (respawned w0)
      ++ [(Coordinator, syncfrom ∅)].
Proof. cbv zeta. repeat split; vm_compute; reflexivity. Qed.

(** C6.  The code breaks the claim for an interrupt that is delivered
    outside the [try] or while the read lock is held.

    At the test of [while flag], between two iterations, the
    [KeyboardInterrupt] is not inside the [try]: it leaves [run] at once.
    [cancel()] is not called, the companion process is the same, and the
    flag is still set.

    Between [acquire_read] and [release_read] the handler runs, and calls
    [cancel()]; the read lock is not released on that path, so the
    handler's [acquire_write] waits for ever for the coordinator's own
    read lock: the flag is not cleared and the interrupt is not raised
    again. *)
Theorem C6_interrupt_at_the_loop_test_or_under_the_read_lock :
  let r := run JSON.loads script0 None None env_interrupted_at_test w0 in
  let r' := run JSON.loads script0 None None env_interrupted w0 in
  let dispatched :=
    dispatch_trace run_default_vars w0
      ++ [(Coordinator, stdin_write 100 ([x45] ++ map byte_of_N (lit "00000013")
                                           ++ [x43] ++ payload0));
          (Coordinator, stdin_flush 100);
          (Coordinator, read_flag true)] in
  (out r = Exc KeyboardInterrupt /\
   NODE_IS_RUNNING (post r) = true /\
   pid (post r) = pid w0 /\
   evs r = dispatched ++ poll_trace true) /\
  (out r' = Deadlock /\
   NODE_IS_RUNNING (post r') = true /\
   evs r' = dispatched ++ poll_trace true
              ++ [(Coordinator, acquire_read); (Coordinator, read_flag true)]
              ++ cancel_trace w0 /\
   coordinator_holds nothing_held (evs r') = Held 1 false).
Proof. cbv zeta. repeat split; vm_compute; reflexivity. Qed.

(** * Completion and process exit *)

Section Exit.
Variable json_loads : str -> option pyobj.

(** What the monitor does with one line of text when it is alive and not
    asked to stop. *)
Lemma monitor_one raw output poll w :
  decode_utf8 raw = inr output ->
  stop_event w = false ->
  monitor_alive w = true ->
  monitor_thread json_loads [(raw, poll)] w =
  match poll with
  | Some _ =>
      Result (Val tt)
             (with_monitor_alive false (with_running false (with_reaped true w)))
             (clear_trace Monitor)
  | None =>
      if bool_decide (output = []) then Result (Val tt) w []
      else if is_completion json_loads output then
        Result (Val tt) (with_running false w) (clear_trace Monitor)
      else Result (Val tt) w (forwarded output)
  end.
Proof.
  intros Hd Hs Ha. unfold monitor_thread, Thread_bootstrap.
  rewrite NodeSTDProc_run_cons, Ha. cbn [negb]. cbv zeta.
  rewrite monitor_iter_eq, Hd.
  destruct poll as [code|]; [reflexivity|].
  destruct (bool_decide (output = [])); cbn [out post evs].
  { rewrite Hs. cbn. reflexivity. }
  destruct (is_completion json_loads output); cbn [out post evs stop_event with_running];
    rewrite Hs; cbn; now rewrite ?app_nil_r.
Qed.

End Exit.




(** * The variables pulled after a run *)

Lemma merge_keys (new d : gmap str pyobj) (ks : list str) (k : str) :
  foldl (fun d key =>
           match new !! key with
           | Some v => <[key := v]> d
           | None => d
           end) d ks !! k
  = match new !! k with
    | Some v => if decide (k ∈ ks) then Some v else d !! k
    | None => d !! k
    end.
Proof.
  revert d. induction ks as [|a ks IH]; intros d; cbn [foldl].
  - destruct (new !! k); [|reflexivity].
    destruct (decide (k ∈ [])) as [Hin|_]; [|reflexivity].
    now apply not_elem_of_nil in Hin.
  - rewrite IH. destruct (new !! k) as [v|] eqn:Hk.
    + destruct (decide (k ∈ ks)) as [Hin|Hnin].
      * rewrite decide_True by (now right). reflexivity.
      * destruct (decide (a = k)) as [->|Hne].
        -- rewrite decide_True by (now left). rewrite Hk.
           apply lookup_insert_eq.
        -- rewrite decide_False by (intros Hin; apply elem_of_cons in Hin as [?|?]; congruence).
           destruct (new !! a); [now apply lookup_insert_ne | reflexivity].
    + destruct (new !! a) as [va|] eqn:Ha; [|reflexivity].
      apply lookup_insert_ne. congruence.
Qed.

(** The merge loop of [run]: the pulled value where there is one, the
    caller's value elsewhere. *)
Lemma merge_vars_lookup (vars new : gmap str pyobj) (k : str) :
  merge_vars vars new !! k
  = match new !! k with
    | Some v => Some v
    | None => vars !! k
    end.
Proof.
  unfold merge_vars. rewrite merge_keys.
  destruct (new !! k) as [v|] eqn:Hk; [|reflexivity].
  rewrite decide_True; [reflexivity|].
  apply list_elem_of_fmap. exists (k, v). split; [reflexivity|].
  now apply elem_of_map_to_list.
Qed.

Section Pull.
Variable json_loads : str -> option pyobj.

(** A run that returns the variable set has pulled once, after the wait,
    and has merged the result into the dict object it was given. *)
Lemma run_returns script vars timeout e w l :
  out (run json_loads script vars timeout e w) = Val (Some l) ->
  l = default run_default_vars vars /\
  heap (post (run json_loads script vars timeout e w))
  = <[l := merge_vars (dict_at w l) (pulled e)]> (heap w) /\
  In (Coordinator, syncfrom (pulled e))
     (evs (run json_loads script vars timeout e w)).
Proof.
  rewrite run_eq. cbv zeta.
  destruct (write_spec (pipe e) script (with_running true w))
    as [(data & _ & _ & ->)|[(l0 & -> & _)|(data & _ & _ & ->)]];
    cbn [out post evs]; [|discriminate|discriminate].
  change (1 <? 0)%Z with false. cbv iota.
  destruct (monitor_run_spec json_loads (early e) (with_running true w))
    as (wm & lm & -> & _ & _ & Hh & _). cbn [post evs].
  destruct (wait_loop_spec json_loads timeout (start e) (NODE_IS_RUNNING wm)
                           (ticks e) wm) as ((Hh' & _) & _).
  destruct (out (wait_loop json_loads timeout (start e) (NODE_IS_RUNNING wm)
                           (ticks e) wm)) as [[]|x| |]; cbn [out post evs];
    try discriminate.
  intros [= <-]. split; [reflexivity|]. split.
  - cbn [heap with_heap]. unfold dict_at. rewrite Hh', Hh. reflexivity.
  - apply in_or_app. right. now left.
Qed.

(** Every run begins by pushing the contents of the dict object it was
    given. *)
Lemma run_pushes_first script vars timeout e w :
  exists l,
    evs (run json_loads script vars timeout e w)
    = (Coordinator, syncto (dict_at w (default run_default_vars vars))) :: l.
Proof.
  rewrite run_eq. cbv zeta.
  destruct (out (write _ _ _)) as [rc|x| |]; [destruct (rc <? 0)%Z|..];
    [| destruct (out (wait_loop _ _ _ _ _ _)) | | |]; cbn [evs];
    unfold dispatch_trace; cbn [app]; eexists; reflexivity.
Qed.

End Pull.

(** C9.  For every run that returns (after a completion or after a
    timeout), the value returned is the dict object the caller passed (the
    default one when none was passed); after the run it holds, under every
    name the pull returned, the pulled value, and under every other name
    what the caller had there; no other dict object is changed. *)
Theorem C9_pulled_variables_are_merged_and_returned
        (json_loads : str -> option pyobj) (script : str) (vars : option loc)
        (timeout : option Z) (e : env) (w : world) (l : loc) :
  let r := run json_loads script vars timeout e w in
  out r = Val (Some l) ->
  l = default run_default_vars vars /\
  In (Coordinator, syncfrom (pulled e)) (evs r) /\
  (forall k v, pulled e !! k = Some v -> dict_at (post r) l !! k = Some v) /\
  (forall k, pulled e !! k = None -> dict_at (post r) l !! k = dict_at w l !! k) /\
  (forall l', l' <> l -> heap (post r) !! l' = heap w !! l').
Proof.
  cbv zeta. intros Hout.
  destruct (run_returns json_loads script vars timeout e w l Hout)
    as (Hl & Hheap & Hin).
  split; [exact Hl|]. split; [exact Hin|].
  assert (Hd : dict_at (post (run json_loads script vars timeout e w)) l
               = merge_vars (dict_at w l) (pulled e)).
  { unfold dict_at at 1. rewrite Hheap, lookup_insert_eq. reflexivity. }
  split; [|split].
  - intros k v Hk. rewrite Hd, merge_vars_lookup, Hk. reflexivity.
  - intros k Hk. rewrite Hd, merge_vars_lookup, Hk. reflexivity.
  - intros l' Hne. rewrite Hheap. apply lookup_insert_ne. congruence.
Qed.

Lemma C9_witness :
  caller_vars = default run_default_vars (Some caller_vars) /\
  In (Coordinator, syncfrom (pulled env_done))
     (evs (run JSON.loads script0 (Some caller_vars) None env_done w_caller)) /\
  (forall k v,
      pulled env_done !! k = Some v ->
      dict_at (post (run JSON.loads script0 (Some caller_vars) None env_done
                         w_caller)) caller_vars !! k = Some v) /\
  (forall k,
      pulled env_done !! k = None ->
      dict_at (post (run JSON.loads script0 (Some caller_vars) None env_done
                         w_caller)) caller_vars !! k
      = dict_at w_caller caller_vars !! k) /\
  (forall l',
      l' <> caller_vars ->
      heap (post (run JSON.loads script0 (Some caller_vars) None env_done
                      w_caller)) !! l'
      = heap w_caller !! l').
Proof.
  apply (C9_pulled_variables_are_merged_and_returned
           JSON.loads script0 (Some caller_vars) None env_done w_caller
           caller_vars).
  vm_compute. reflexivity.
Defined.

(** C10.  The default value of [vars] is one dict object.  Of two calls of
    [run] in a row that both omit the argument and both return, the second
    returns the same object as the first; every variable the first call
    pulled is in the set the second call pushes to the companion, and is in
    the set the second call returns, with the value of the second pull if
    it is pulled again and the value of the first pull otherwise. *)
Theorem C10_default_variable_set_is_shared
        (json_loads : str -> option pyobj) (s1 s2 : str)
        (t1 t2 : option Z) (e1 e2 : env) (w : world) (l1 l2 : loc) :
  let r1 := run json_loads s1 None t1 e1 w in
  let r2 := run json_loads s2 None t2 e2 (post r1) in
  out r1 = Val (Some l1) ->
  out r2 = Val (Some l2) ->
  l1 = run_default_vars /\ l2 = l1 /\
  forall k v,
    pulled e1 !! k = Some v ->
    (exists d rest, evs r2 = (Coordinator, syncto d) :: rest /\ d !! k = Some v) /\
    dict_at (post r2) l2 !! k = Some (default v (pulled e2 !! k)).
Proof.
  cbv zeta. intros H1 H2.
  destruct (run_returns json_loads s1 None t1 e1 w l1 H1) as (Hl1 & Hh1 & _).
  destruct (run_returns json_loads s2 None t2 e2 _ l2 H2) as (Hl2 & Hh2 & _).
  cbn [default] in Hl1, Hl2. subst l1 l2.
  split; [reflexivity|]. split; [reflexivity|]. intros k v Hk.
  assert (Hd1 : dict_at (post (run json_loads s1 None t1 e1 w)) run_default_vars !! k
                = Some v).
  { unfold dict_at at 1. rewrite Hh1, lookup_insert_eq.
    cbn [default from_option id].
    rewrite merge_vars_lookup, Hk. reflexivity. }
  split.
  - destruct (run_pushes_first json_loads s2 None t2 e2
                (post (run json_loads s1 None t1 e1 w))) as (rest & Hevs).
    eexists _, rest. split; [exact Hevs | exact Hd1].
  - unfold dict_at at 1. rewrite Hh2, lookup_insert_eq.
    cbn [default from_option id].
    rewrite merge_vars_lookup. destruct (pulled e2 !! k); [reflexivity | exact Hd1].
Qed.

Lemma C10_witness :
  run_default_vars = run_default_vars /\
  run_default_vars = run_default_vars /\
  forall k v,
    pulled env_first !! k = Some v ->
    (exists d rest,
        evs (run JSON.loads script0 None None env_second
                 (post (run JSON.loads script0 None None env_first w0)))
        = (Coordinator, syncto d) :: rest /\ d !! k = Some v) /\
    dict_at (post (run JSON.loads script0 None None env_second
                       (post (run JSON.loads script0 None None env_first w0))))
            run_default_vars !! k
    = Some (default v (pulled env_second !! k)).
Proof.
  apply (C10_default_variable_set_is_shared
           JSON.loads script0 script0 None None env_first env_second w0
           run_default_vars run_default_vars).
  - vm_compute. reflexivity.
  - vm_compute. reflexivity.
Defined.

(** The scenario of C10, run: [y], pulled by the first call, is pushed and
    returned by the second. *)
Example second_run_sees_first_pull :
  let r1 := run JSON.loads script0 None None env_first w0 in
  let r2 := run JSON.loads script0 None None env_second (post r1) in
  out r2 = Val (Some run_default_vars) /\
  In (Coordinator, syncto {[ lit "y" := PyInt 7 ]}) (evs r2) /\
  dict_at (post r2) run_default_vars
  = {[ lit "y" := PyInt 7; lit "z" := PyInt 8 ]}.
Proof. cbv zeta. repeat split; vm_compute; auto. Qed.

(** * Further properties of the bridge *)

(** ** [Node.write] as a whole *)

Lemma build_frame_inr_small s frame :
  build_frame s = inr frame ->
  exists payload, payload_of s = Some payload /\ len payload < 16 ^ 8.
Proof.
  intros Hf. exists (map byte_of_N (json_dumps_script s)).
  split; [apply payload_of_total|].
  destruct (N.lt_ge_cases (len (map byte_of_N (json_dumps_script s))) (16 ^ 8))
    as [Hlt|Hge]; [exact Hlt|].
  rewrite (build_frame_oversized s _ (payload_of_total s) Hge) in Hf.
  discriminate Hf.
Qed.

(** The three ways [Node.write] ends. *)
Lemma write_cases (p : pipe_outcome) (s : str) (w : world) :
  (exists frame,
      build_frame s = inr frame /\ p = PipeOk /\
      write p s w = Result (Val 1%Z) w
                           [(Coordinator, stdin_write (pid w) frame);
                            (Coordinator, stdin_flush (pid w))]) \/
  (((exists err, build_frame s = inl err) \/
    (exists m, p = WriteRaises m \/ p = FlushRaises m)) /\
   out (write p s w) = Val (-1)%Z /\
   post (write p s w) = with_running false (respawned w)) \/
  (exists frame,
      build_frame s = inr frame /\ p = WriteInterrupted /\
      write p s w = Result (Exc KeyboardInterrupt) w []).
Proof.
  destruct (build_frame s) as [e|data] eqn:Hf.
  - right. left. rewrite (write_frame_fails p s e w Hf (build_frame_exn s e Hf)).
    split; [left; now exists e | now split].
  - destruct p as [|m|m|].
    + left. exists data. split; [reflexivity|]. split; [reflexivity|].
      now apply write_ok.
    + right. left. rewrite (write_raises s data m w Hf).
      split; [right; exists m; now left | now split].
    + right. left. rewrite (flush_raises s data m w Hf).
      split; [right; exists m; now right | now split].
    + right. right. exists data. split; [reflexivity|]. split; [reflexivity|].
      now apply (write_interrupted s data).
Qed.

(** X1.  [Node.write] returns 1, leaving the state as it was, exactly when
    the frame could be built and both [stdin.write] and [stdin.flush] went
    through.  When the frame cannot be built, or [stdin.write] or
    [stdin.flush] raises an [OSError], the handler runs: it cancels and
    restarts the companion process and clears the flag, and [write]
    returns -1.  A [KeyboardInterrupt] delivered in [stdin.write] is not
    an [Exception]: the handler does not run and the interrupt leaves
    [write], with the state as it was. *)
Theorem write_returns_1_or_minus_1_or_is_interrupted
        (p : pipe_outcome) (s : str) (w : world) :
  (exists frame,
      build_frame s = inr frame /\ p = PipeOk /\
      write p s w = Result (Val 1%Z) w
                           [(Coordinator, stdin_write (pid w) frame);
                            (Coordinator, stdin_flush (pid w))]) \/
  (((exists err, build_frame s = inl err) \/
    (exists m, p = WriteRaises m \/ p = FlushRaises m)) /\
   out (write p s w) = Val (-1)%Z /\
   post (write p s w) = with_running false (respawned w)) \/
  (exists frame,
      build_frame s = inr frame /\ p = WriteInterrupted /\
      write p s w = Result (Exc KeyboardInterrupt) w []).
Proof.
  destruct (build_frame s) as [e|data] eqn:Hf.
  - right. left. rewrite (write_frame_fails p s e w Hf (build_frame_exn s e Hf)).
    split; [left; now exists e | now split].
  - destruct p as [|m|m|].
    + left. exists data. split; [reflexivity|]. split; [reflexivity|].
      now apply write_ok.
    + right. left. rewrite (write_raises s data m w Hf).
      split; [right; exists m; now left | now split].
    + right. left. rewrite (flush_raises s data m w Hf).
      split; [right; exists m; now right | now split].
    + right. right. exists data. split; [reflexivity|]. split; [reflexivity|].
      now apply (write_interrupted s data).
Qed.

(** ** The framing can be read back *)

Lemma read_frame_app (digits payload rest : bytes) :
  length digits = 8%nat ->
  header_value digits = Some (len payload) ->
  read_frame ([x45] ++ digits ++ [x43] ++ payload ++ rest) = Some (payload, rest).
Proof.
  intros H8 Hv. cbn [app read_frame].
  rewrite (take_app_length' digits _ 8 (eq_sym H8)),
    (drop_app_length' digits _ 8 (eq_sym H8)).
  rewrite H8. change (Byte.eqb x45 x45) with true.
  change (Byte.eqb x43 x43) with true. cbn [andb Nat.eqb]. rewrite Hv.
  replace (len payload <=? len (payload ++ rest)) with true.
  2:{ symmetry. apply N.leb_le. unfold len. rewrite length_app. lia. }
  unfold len. rewrite Nat2N.id, take_app_length, drop_app_length. reflexivity.
Qed.

Lemma frame_shape s frame :
  build_frame s = inr frame ->
  exists digits payload,
    payload_of s = Some payload /\
    length digits = 8%nat /\
    header_value digits = Some (len payload) /\
    frame = [x45] ++ digits ++ [x43] ++ payload.
Proof.
  intros Hf. destruct (build_frame_inr_small s frame Hf) as (payload & Hp & Hl).
  pose proof (build_frame_small s payload Hp Hl) as Hf'.
  destruct (header_field _ Hl) as (H8 & _ & Hv).
  exists (map byte_of_N (zfill 8 (drop 2 (hex (len payload))))), payload.
  split; [exact Hp|]. split; [now rewrite length_map|]. split; [exact Hv|].
  congruence.
Qed.

(** X2.  A frame built by [Node.write] is self-delimiting: a reader that
    follows the header format documented in [write] ([E], eight hexadecimal
    digits, [C], then as many bytes as the digits say) gets the payload
    back, and is left with exactly what follows the frame in the stream. *)
Theorem frame_is_read_back (script : str) (frame rest : bytes) :
  build_frame script = inr frame ->
  exists payload,
    payload_of script = Some payload /\
    read_frame (frame ++ rest) = Some (payload, rest).
Proof.
  intros Hf. destruct (frame_shape script frame Hf)
    as (digits & payload & Hp & H8 & Hv & ->).
  exists payload. split; [exact Hp|].
  rewrite <- !app_assoc. now apply read_frame_app.
Qed.

Lemma frame_is_read_back_witness :
  exists payload,
    payload_of script0 = Some payload /\
    read_frame (([x45] ++ map byte_of_N (lit "00000013") ++ [x43] ++ payload0)
                  ++ [x45]) = Some (payload, [x45]).
Proof.
  apply (frame_is_read_back script0). vm_compute. reflexivity.
Defined.

(** X3.  The frames of successive dispatches, written one after the other,
    are told apart by the reader: the stream reads back as the list of the
    payloads, in order. *)
Theorem frames_are_read_back_in_order (scripts : list str) (frames : list bytes) :
  Forall2 (fun s f => build_frame s = inr f) scripts frames ->
  exists payloads,
    Forall2 (fun s p => payload_of s = Some p) scripts payloads /\
    read_frames (length (concat frames)) (concat frames) = Some payloads.
Proof.
  intros H.
  assert (Hgen : forall fuel, (length frames <= fuel)%nat ->
             exists payloads,
               Forall2 (fun s p => payload_of s = Some p) scripts payloads /\
               read_frames fuel (concat frames) = Some payloads).
  { induction H as [|s f scripts frames Hf _ IH]; intros fuel Hfuel.
    - exists []. split; [constructor|]. destruct fuel; reflexivity.
    - destruct (frame_shape s f Hf) as (digits & payload & Hp & H8 & Hv & ->).
      destruct fuel as [|fuel]; [simpl in Hfuel; lia|].
      destruct (IH fuel ltac:(simpl in Hfuel; lia)) as (payloads & Hall & Hread).
      exists (payload :: payloads). split; [now constructor|].
      cbn [concat]. rewrite <- !app_assoc.
      change (read_frames (S fuel) ([x45] ++ digits ++ [x43] ++ payload ++ concat frames))
        with (match read_frame ([x45] ++ digits ++ [x43] ++ payload ++ concat frames) with
              | Some (msg, rest) =>
                  match read_frames fuel rest with
                  | Some msgs => Some (msg :: msgs)
                  | None => None
                  end
              | None => None
              end).
      rewrite (read_frame_app digits payload (concat frames) H8 Hv), Hread.
      reflexivity. }
  apply Hgen. clear Hgen.
  induction H as [|s f scripts frames Hf _ IH]; [reflexivity|].
  destruct (frame_shape s f Hf) as (digits & payload & _ & _ & _ & ->).
  cbn [concat]. rewrite !length_app. cbn [length]. lia.
Qed.

Lemma frames_are_read_back_in_order_witness :
  exists payloads,
    Forall2 (fun s p => payload_of s = Some p) [script0; lit "y"] payloads /\
    read_frames
      (length (concat [[x45] ++ map byte_of_N (lit "00000013") ++ [x43] ++ payload0;
                       [x45] ++ map byte_of_N (lit "0000000f") ++ [x43]
                             ++ map byte_of_N (json_dumps_script (lit "y"))]))
      (concat [[x45] ++ map byte_of_N (lit "00000013") ++ [x43] ++ payload0;
               [x45] ++ map byte_of_N (lit "0000000f") ++ [x43]
                     ++ map byte_of_N (json_dumps_script (lit "y"))])
    = Some payloads.
Proof.
  apply (frames_are_read_back_in_order [script0; lit "y"]).
  repeat constructor; vm_compute; reflexivity.
Defined.

(** ** [Node.run]: how it ends *)

Section RunEnds.
Variable json_loads : str -> option pyobj.

(** X4.  Whenever [Node.run] returns, be it the variable set or [None],
    the flag [NODE_IS_RUNNING] is false.  (A run that a [KeyboardInterrupt]
    leaves may leave the flag set: see the interrupts delivered in
    [stdin.write] and at the test of the wait loop.) *)
Theorem run_returns_with_flag_cleared
        (script : str) (vars : option loc) (timeout : option Z)
        (e : env) (w : world) (v : option loc) :
  let r := run json_loads script vars timeout e w in
  out r = Val v -> NODE_IS_RUNNING (post r) = false.
Proof.
  cbv zeta. rewrite run_eq. cbv zeta.
  destruct (write_spec (pipe e) script (with_running true w))
    as [(data & _ & _ & ->)|[(l & -> & _)|(data & _ & _ & ->)]];
    cbn [out post evs]; [|intros _; reflexivity|discriminate].
  change (1 <? 0)%Z with false. cbv iota.
  destruct (monitor_run_spec json_loads (early e) (with_running true w))
    as (wm & lm & -> & _). cbn [post evs].
  destruct (wait_loop_spec json_loads timeout (start e) (NODE_IS_RUNNING wm)
                           (ticks e) wm) as (_ & _ & _ & _ & Hfl & _).
  destruct (out (wait_loop json_loads timeout (start e) (NODE_IS_RUNNING wm)
                           (ticks e) wm)) as [[]|x| |] eqn:Hout;
    cbn [out post NODE_IS_RUNNING with_heap]; try discriminate.
  intros _. apply Hfl; auto.
Qed.

(** X5.  [Node.run] returns [None] exactly when the dispatch failed, that
    is, when the frame could not be built or [stdin.write] or
    [stdin.flush] raised an [OSError]; it has then left every dict object
    as it was.  In every other case it returns the dict object it was
    given, raises, or does not return. *)
Theorem run_returns_None_iff_dispatch_failed
        (script : str) (vars : option loc) (timeout : option Z)
        (e : env) (w : world) :
  let r := run json_loads script vars timeout e w in
  (out r = Val None <->
   (exists err, build_frame script = inl err) \/
   (exists m, pipe e = WriteRaises m \/ pipe e = FlushRaises m)) /\
  (out r = Val None -> heap (post r) = heap w) /\
  (forall l, out r = Val (Some l) -> l = default run_default_vars vars).
Proof.
  cbv zeta.
  destruct (write_cases (pipe e) script (with_running true w))
    as [(frame & Hf & Hp & Hw)|[(Hfail & Ho & Hpost)|(frame & Hf & Hp & Hw)]].
  - assert (Hnot : out (run json_loads script vars timeout e w) <> Val None).
    { rewrite run_eq. cbv zeta. rewrite Hw. cbn [out post evs].
      change (1 <? 0)%Z with false. cbv iota.
      destruct (out (wait_loop _ _ _ _ _ _)) as [[]|x| |]; discriminate. }
    split; [|split].
    + split; [intros H; now contradiction Hnot|].
      intros [(err & He)|(m & [Hm|Hm])]; congruence.
    + intros H. now contradiction Hnot.
    + intros l Hl. now destruct (run_returns json_loads script vars timeout e w l Hl).
  - assert (Hrun : run json_loads script vars timeout e w
                   = Result (Val None) (with_running false (respawned w))
                            (dispatch_trace (default run_default_vars vars) w
                               ++ evs (write (pipe e) script (with_running true w))
                               ++ [(Coordinator, print (lit "Could not run script"))])).
    { apply run_write_failed.
      destruct (write (pipe e) script (with_running true w)) as [o p l].
      cbn [out post evs] in *. now subst. }
    rewrite Hrun. cbn [out post]. split; [|split].
    + split; [intros _; exact Hfail | reflexivity].
    + reflexivity.
    + discriminate.
  - assert (Hrun : out (run json_loads script vars timeout e w)
                   = Exc KeyboardInterrupt).
    { rewrite run_eq. cbv zeta. now rewrite Hw. }
    rewrite Hrun. split; [|split]; try discriminate.
    split; [discriminate|].
    intros [(err & He)|(m & [Hm|Hm])]; congruence.
Qed.

End RunEnds.

Lemma run_returns_with_flag_cleared_witness :
  NODE_IS_RUNNING (post (run JSON.loads script0 None None env_done w0)) = false.
Proof.
  apply (run_returns_with_flag_cleared JSON.loads script0 None None env_done w0
                                       (Some run_default_vars)).
  vm_compute. reflexivity.
Defined.

(** ** [NodeSTDProc.run]: what the monitor can and cannot do *)

Section MonitorFacts.
Variable json_loads : str -> option pyobj.

Lemma forwarded_events line :
  Forall monitor_event (forwarded line) /\
  forall t, In t (monitor_prints (forwarded line)) ->
            t = strip line /\ t <> [] /\ line <> [].
Proof.
  unfold forwarded. destruct (negb (bool_decide (line = []))) eqn:Hne;
    cbn [andb]; [|split; [constructor | intros t []]].
  destruct (0 <? len (strip line)) eqn:Hlen; [|split; [constructor | intros t []]].
  split; [repeat constructor|].
  intros t [<-|[]]. split; [reflexivity|]. split.
  - intros Hs. rewrite Hs in Hlen. discriminate Hlen.
  - intros ->. discriminate Hne.
Qed.

Lemma monitor_prints_app a b :
  monitor_prints (a ++ b) = monitor_prints a ++ monitor_prints b.
Proof.
  induction a as [|[[] ev] a IHa]; cbn [app monitor_prints];
    [reflexivity | now destruct ev | destruct ev; try exact IHa].
  cbn [app]. now rewrite IHa.
Qed.

Lemma monitor_events_combine (raw : bytes) (output : str)
      (rest : list mon_input) l1 l2 :
  decode_utf8 raw = inr output ->
  Forall monitor_event l1 ->
  (forall t, In t (monitor_prints l1) -> t = strip output /\ t <> []) ->
  Forall monitor_event l2 ->
  (forall t, In t (monitor_prints l2) ->
             t <> [] /\
             exists raw' line poll,
               In (raw', poll) rest /\ decode_utf8 raw' = inr line /\
               t = strip line) ->
  Forall monitor_event (l1 ++ l2) /\
  forall t, In t (monitor_prints (l1 ++ l2)) ->
            t <> [] /\
            exists raw' line poll,
              In (raw', poll) ((raw, None) :: rest) /\
              decode_utf8 raw' = inr line /\ t = strip line.
Proof.
  intros Hd Hl Hp IH1 IH2. split; [now apply Forall_app|].
  intros t Hin. rewrite monitor_prints_app in Hin.
  apply in_app_or in Hin as [Hin|Hin].
  - destruct (Hp t Hin) as (-> & Hne). split; [exact Hne|].
    exists raw, output, None. split; [now left | now split].
  - destruct (IH2 t Hin) as (Hne & raw' & line & poll0 & Hin' & Hd' & ->).
    split; [exact Hne|]. exists raw', line, poll0.
    split; [now right | now split].
Qed.

(** What leaves the loop of the monitor, and what it does meanwhile. *)
Lemma monitor_run_events inputs w :
  exists o w' l,
    NodeSTDProc_run json_loads inputs w = Result o w' l /\
    (o = Val tt \/
     exists raw poll e,
       In (raw, poll) inputs /\ decode_utf8 raw = inl e /\ o = Exc e) /\
    Forall monitor_event l /\
    forall t, In t (monitor_prints l) ->
              t <> [] /\
              exists raw line poll,
                In (raw, poll) inputs /\ decode_utf8 raw = inr line /\
                t = strip line.
Proof.
  revert w. induction inputs as [|[raw poll] rest IH]; intros w.
  - eexists _, _, _. split; [reflexivity|]. split; [now left|].
    split; [constructor | intros t []].
  - rewrite NodeSTDProc_run_cons.
    destruct (negb (monitor_alive w)).
    { eexists _, _, _. split; [reflexivity|]. split; [now left|].
      split; [constructor | intros t []]. }
    cbv zeta. rewrite monitor_iter_eq.
    destruct (decode_utf8 raw) as [e|output] eqn:Hd; cbn [out post evs].
    { eexists _, _, _. split; [reflexivity|].
      split; [right; exists raw, poll, e; split; [now left | now split]|].
      split; [constructor | intros t []]. }
    destruct poll as [code|]; cbn [out post evs].
    { eexists _, _, _. split; [reflexivity|]. split; [now left|]. cbn.
      split; [repeat constructor | intros t []]. }
    assert (Hgo : forall w1 l1,
               Forall monitor_event l1 ->
               (forall t, In t (monitor_prints l1) -> t = strip output /\ t <> []) ->
               exists o w' l,
                 (if stop_event w1
                  then Result (Val tt) (with_monitor_alive false w1) l1
                  else Result (out (NodeSTDProc_run json_loads rest w1))
                              (post (NodeSTDProc_run json_loads rest w1))
                              (l1 ++ evs (NodeSTDProc_run json_loads rest w1)))
                 = Result o w' l /\
                 (o = Val tt \/
                  exists raw' poll e,
                    In (raw', poll) ((raw, None) :: rest) /\
                    decode_utf8 raw' = inl e /\ o = Exc e) /\
                 Forall monitor_event l /\
                 forall t, In t (monitor_prints l) ->
                           t <> [] /\
                           exists raw' line poll,
                             In (raw', poll) ((raw, None) :: rest) /\
                             decode_utf8 raw' = inr line /\ t = strip line).
    { intros w1 l1 Hl1 Hp1. destruct (stop_event w1).
      - eexists _, _, _. split; [reflexivity|]. split; [now left|].
        rewrite <- (app_nil_r l1).
        apply (monitor_events_combine raw output rest l1 []);
          [exact Hd | exact Hl1 | exact Hp1 | constructor | intros t []].
      - destruct (IH w1) as (o2 & w2 & l2 & -> & Ho & IH1 & IH2).
        cbn [out post evs]. eexists _, _, _. split; [reflexivity|]. split.
        + destruct Ho as [->|(raw' & poll' & e & Hin & Hd' & ->)]; [now left|].
          right. exists raw', poll', e. split; [now right | now split].
        + now apply (monitor_events_combine raw output rest l1 l2). }
    destruct (bool_decide (output = [])); cbn [out post evs].
    + apply Hgo; [constructor | intros t []].
    + destruct (is_completion json_loads output); cbn [out post evs].
      * apply Hgo; [repeat constructor | intros t []].
      * destruct (forwarded_events output) as (Hf1 & Hf2).
        apply Hgo; [exact Hf1|].
        intros t Hin. destruct (Hf2 t Hin) as (? & ? & _). now split.
Qed.

(** X6.  The monitor can only clear the flag.  Whatever it reads, its loop
    never sets [NODE_IS_RUNNING] to true, leaves the process id and the
    dict objects alone, and performs nothing but acquisitions and releases
    of the write lock, writes of false to the flag, and prints.  The
    errors of [json.loads] and of the subscript are caught; what leaves
    the loop as an exception is the [UnicodeDecodeError] of a line it read
    that is not UTF-8. *)
Theorem monitor_only_clears_the_flag (inputs : list mon_input) (w : world) :
  let r := NodeSTDProc_run json_loads inputs w in
  (out r = Val tt \/
   exists raw poll e,
     In (raw, poll) inputs /\ decode_utf8 raw = inl e /\ out r = Exc e) /\
  (NODE_IS_RUNNING (post r) = true -> NODE_IS_RUNNING w = true) /\
  pid (post r) = pid w /\
  next_pid (post r) = next_pid w /\
  heap (post r) = heap w /\
  Forall monitor_event (evs r).
Proof.
  cbv zeta.
  destruct (monitor_run_events inputs w) as (o & w1 & l1 & Hr1 & Ho & He & _).
  destruct (NodeSTDProc_run_spec json_loads inputs w)
    as (o' & w' & l & Hr & _ & Hp & Hn & Hh & Hf & _).
  rewrite Hr in *. injection Hr1 as <- _ <-. cbn [out post evs] in *.
  repeat split; auto.
Qed.

(** X7.  The monitor never prints a blank line: every text it prints is an
    output line it read, decoded and stripped of surrounding white space,
    and is not empty. *)
Theorem monitor_prints_stripped_nonblank_lines
        (inputs : list mon_input) (w : world) (t : str) :
  In t (monitor_prints (evs (NodeSTDProc_run json_loads inputs w))) ->
  t <> [] /\
  exists raw line poll,
    In (raw, poll) inputs /\ decode_utf8 raw = inr line /\ t = strip line.
Proof.
  destruct (monitor_run_events inputs w) as (o & w1 & l1 & -> & _ & _ & H).
  exact (H t).
Qed.

End MonitorFacts.

Lemma monitor_prints_stripped_nonblank_lines_witness :
  lit "hello" <> [] /\
  exists raw line poll,
    In (raw, poll) [(blank_line, @None Z); (log_line, @None Z)] /\
    decode_utf8 raw = inr line /\
    lit "hello" = strip line.
Proof.
  apply (monitor_prints_stripped_nonblank_lines
           JSON.loads [(blank_line, None); (log_line, None)] w_running).
  vm_compute. left. reflexivity.
Defined.

(** ** [Node.cancel] *)

Lemma cancel_false w :
  cancel false w =
  Result (Val tt) (with_stop_event true w)
         ((if reaped w
           then [(Coordinator, print (lit "[Errno 3] No such process"))]
           else [(Coordinator, kill (pid w)); (Coordinator, stop_monitor)])
            ++ [(Coordinator, stop_monitor)]).
Proof.
  unfold cancel, try_except, bind, os_kill, stop, get, put, emit, raise, ret;
    cbn.
  destruct (reaped w); reflexivity.
Qed.

(** X8.  [Node.cancel] always tells the monitor to stop, whether or not
    the process could be signalled: [os.kill] is called exactly when the
    process has not been reaped; when the process is gone [os.kill]
    raises, the error is caught and printed, and the second [try] still
    stops the monitor.  With [restart=True] the process that
    [init_process] starts, with its new monitor, replaces the old one;
    with [restart=False] no process is spawned, and the old process id and
    a set stop event are left. *)
Theorem cancel_always_stops_the_monitor (restart : bool) (w : world) :
  let r := cancel restart w in
  In (Coordinator, stop_monitor) (evs r) /\
  (In (Coordinator, kill (pid w)) (evs r) <-> reaped w = false) /\
  (In (Coordinator, print (lit "[Errno 3] No such process")) (evs r)
   <-> reaped w = true) /\
  (if restart then
     post r = respawned w /\ spawned (evs r) = [next_pid w]
   else
     post r = with_stop_event true w /\ spawned (evs r) = []).
Proof.
  cbv zeta. destruct restart; [rewrite cancel_true | rewrite cancel_false];
    unfold cancel_trace; cbn [out post evs]; destruct (reaped w);
    cbn [app In spawned];
    (split; [tauto|]);
    (split; [split; [|intros H; try discriminate H; tauto];
             intros H; repeat (destruct H as [H|H]; try discriminate H); tauto|]);
    (split; [split; [|intros H; try discriminate H; tauto];
             intros H; repeat (destruct H as [H|H]; try discriminate H); tauto|]);
    split; reflexivity.
Qed.

(** ** Counting over traces *)

Lemma spawned_app a b : spawned (a ++ b) = spawned a ++ spawned b.
Proof.
  induction a as [|[t ev] a IH]; [reflexivity|].
  destruct ev; cbn [app spawned]; rewrite IH; reflexivity.
Qed.

Lemma monitor_clears_app a b :
  monitor_clears (a ++ b) = (monitor_clears a + monitor_clears b)%nat.
Proof.
  induction a as [|[[] ev] a IH]; [reflexivity|..];
    destruct ev as [| | | | | |[]| | | | | | | |]; cbn [app monitor_clears];
    rewrite IH; reflexivity.
Qed.

Lemma monitor_events_spawn_nothing l : Forall monitor_event l -> spawned l = [].
Proof.
  induction 1 as [|te l Hte _ IH]; [reflexivity|].
  destruct Hte; exact IH.
Qed.

Lemma spawned_cancel w : spawned (cancel_trace w) = [next_pid w].
Proof. unfold cancel_trace. destruct (reaped w); reflexivity. Qed.

Lemma spawned_timeout T w : spawned (timeout_trace T w) = [next_pid w].
Proof.
  unfold timeout_trace. rewrite spawned_app, spawned_cancel. reflexivity.
Qed.

Lemma holds_after_app hc hm a b :
  holds_after hc hm (a ++ b)
  = holds_after (holds_after hc hm a).1 (holds_after hc hm a).2 b.
Proof.
  revert hc hm. induction a as [|[[] ev] a IH]; intros hc hm;
    [reflexivity|..]; cbn [app holds_after]; apply IH.
Qed.

Lemma atom_keeps_holds sync a hc hm :
  atom sync a -> writer hc = false -> writer hm = false ->
  holds_after hc hm a = (hc, hm).
Proof.
  intros Ha Hc Hm. destruct hc as [rc wc], hm as [rm wm]. simpl in Hc, Hm. subst.
  destruct Ha as [t b | b | t e He _].
  - destruct t; reflexivity.
  - reflexivity.
  - destruct t; destruct e; try discriminate He; reflexivity.
Qed.

Lemma tame_keeps_holds sync l hc hm :
  tame sync l -> writer hc = false -> writer hm = false ->
  holds_after hc hm l = (hc, hm).
Proof.
  induction 1 as [|a l Ha Hl IH]; intros Hc Hm; [reflexivity|].
  rewrite holds_after_app, (atom_keeps_holds sync a hc hm Ha Hc Hm).
  now apply IH.
Qed.

(** ** The monitor and the flag *)

Section Clears.
Variable json_loads : str -> option pyobj.

Lemma monitor_thread_evs inputs w :
  evs (monitor_thread json_loads inputs w)
  = evs (NodeSTDProc_run json_loads inputs w).
Proof.
  unfold monitor_thread, Thread_bootstrap.
  now destruct (NodeSTDProc_run json_loads inputs w) as [[[]|x| |] w1 l1].
Qed.

(** When the flag changes under the monitor, the monitor has cleared it. *)
Lemma NodeSTDProc_run_clears inputs w :
  let r := NodeSTDProc_run json_loads inputs w in
  NODE_IS_RUNNING (post r) = NODE_IS_RUNNING w \/ (1 <= monitor_clears (evs r))%nat.
Proof.
  cbv zeta. revert w. induction inputs as [|[raw poll] rest IH]; intros w.
  - now left.
  - rewrite NodeSTDProc_run_cons.
    destruct (negb (monitor_alive w)); [now left|].
    cbv zeta. rewrite monitor_iter_eq.
    destruct (decode_utf8 raw) as [e|output]; cbn [out post evs]; [now left|].
    destruct poll as [code|]; cbn [out post evs]; [right; cbn; lia|].
    destruct (bool_decide (output = [])); cbn [out post evs].
    + destruct (stop_event w); cbn [post evs]; [now left | apply IH].
    + destruct (is_completion json_loads output); cbn [out post evs].
      * right. destruct (stop_event (with_running false w)); cbn [evs];
          [cbn; lia|]. rewrite monitor_clears_app. cbn. lia.
      * destruct (stop_event w); cbn [post evs]; [now left|].
        rewrite monitor_clears_app.
        destruct (IH w) as [H|H]; [now left | right; lia].
Qed.

Lemma monitor_run_clears inputs w :
  exists w' l,
    monitor_thread json_loads inputs w = Result (Val tt) w' l /\
    (NODE_IS_RUNNING w' = NODE_IS_RUNNING w \/ (1 <= monitor_clears l)%nat).
Proof.
  pose proof (NodeSTDProc_run_clears inputs w) as H. cbv zeta in H.
  unfold monitor_thread, Thread_bootstrap.
  destruct (NodeSTDProc_run_spec json_loads inputs w)
    as (o & w' & l & Hr & [->|(e & ->)] & _); rewrite Hr in *;
    cbn [post evs] in H; eexists _, _; (split; [reflexivity | exact H]).
Qed.

Lemma monitor_keeps_process inputs w :
  let r := monitor_thread json_loads inputs w in
  pid (post r) = pid w /\ next_pid (post r) = next_pid w /\ spawned (evs r) = [].
Proof.
  cbv zeta. rewrite monitor_thread_evs.
  destruct (monitor_run_events json_loads inputs w)
    as (o & w1 & l1 & Hr1 & _ & He & _).
  destruct (monitor_run_spec json_loads inputs w) as (w' & l & Hr & Hp & Hn & _).
  rewrite Hr, Hr1. cbn [post evs].
  split; [exact Hp|]. split; [exact Hn|]. now apply monitor_events_spawn_nothing.
Qed.

(** The wait loop of a run that has no timeout and is not interrupted. *)
Lemma wait_loop_no_timeout t0 flag ts w :
  uninterrupted ts ->
  flag = NODE_IS_RUNNING w ->
  let r := wait_loop json_loads None t0 flag ts w in
  pid (post r) = pid w /\
  next_pid (post r) = next_pid w /\
  spawned (evs r) = [] /\
  (out r = Val tt \/ out r = Spin) /\
  (out r = Val tt -> flag = false \/ (1 <= monitor_clears (evs r))%nat).
Proof.
  cbv zeta. intros Hu. revert flag w.
  induction Hu as [|t rest Hi _ IH]; intros flag w Hflag.
  - destruct flag; cbn; repeat split; auto; try discriminate.
  - destruct flag.
    2:{ cbn. repeat split; auto; discriminate. }
    rewrite wait_loop_cons. cbv zeta.
    destruct (monitor_run_clears (mon t) w) as (wm & lm & Hm & Hcl).
    destruct (monitor_keeps_process (mon t) w) as (Hp & Hn & Hsp).
    rewrite Hm in *. cbn [out post evs] in *.
    rewrite wait_iter_eq, Hi. cbn [out post evs].
    destruct (IH (NODE_IS_RUNNING wm) wm eq_refl) as (IHp & IHn & IHs & IHx & IHv).
    split; [congruence|]. split; [congruence|].
    split; [now rewrite !spawned_app, Hsp, IHs|].
    split; [exact IHx|].
    intros Hout. right. rewrite !monitor_clears_app.
    destruct Hcl as [Hcl|Hcl]; [|lia].
    destruct (IHv Hout) as [Hf|Hc]; [|lia].
    congruence.
Qed.

End Clears.

(** ** [Node.run] without a timeout, and with one *)

Section Timeouts.
Variable json_loads : str -> option pyobj.

(** X9.  A run without a timeout never times out (as the docstring of
    [run] says): when no interrupt is delivered in the wait loop and the
    run returns the variable set, it has not touched the companion
    process, and the monitor has cleared the flag at least once since the
    dispatch. *)
Theorem run_without_timeout_waits_for_the_monitor
        (script : str) (vars : option loc) (e : env) (w : world) (l : loc) :
  uninterrupted (ticks e) ->
  let r := run json_loads script vars None e w in
  out r = Val (Some l) ->
  pid (post r) = pid w /\
  spawned (evs r) = [] /\
  (1 <= monitor_clears (evs r))%nat.
Proof.
  intros Hu. cbv zeta. rewrite run_eq. cbv zeta.
  destruct (write_spec (pipe e) script (with_running true w))
    as [(data & _ & _ & ->)|[(l0 & -> & _)|(data & _ & _ & ->)]];
    cbn [out post evs]; [|discriminate|discriminate].
  change (1 <? 0)%Z with false. cbv iota.
  destruct (monitor_run_clears json_loads (early e) (with_running true w))
    as (wm & lm & Hm & Hcl).
  destruct (monitor_keeps_process json_loads (early e) (with_running true w))
    as (Hp & Hn & Hsp).
  rewrite Hm in *. cbn [out post evs] in *.
  destruct (wait_loop_no_timeout json_loads (start e) (NODE_IS_RUNNING wm)
                                 (ticks e) wm Hu eq_refl)
    as (Hlp & Hln & Hls & Hlx & Hlv).
  destruct (out (wait_loop json_loads None (start e) (NODE_IS_RUNNING wm)
                           (ticks e) wm)) as [[]|x| |] eqn:Hout;
    cbn [out post evs]; try discriminate.
  intros _. cbn [pid with_heap].
  split; [simpl in Hp; congruence|].
  split.
  - rewrite !spawned_app, Hsp, Hls. reflexivity.
  - rewrite !monitor_clears_app.
    destruct (Hlv eq_refl) as [Hf|Hc]; [|lia].
    destruct Hcl as [Hcl|Hcl]; [|lia].
    simpl in Hcl. congruence.
Qed.

(** X10.  The timeout test of the wait loop does not look at the flag: when
    the poll that finds the flag cleared by a completion message is made
    after the timeout has passed, the run returns the variable set as for
    any completed run, and yet the coordinator has cancelled and restarted
    the companion process and printed that the process took too long. *)
Theorem completion_seen_after_the_timeout_still_restarts
        (script : str) (vars : option loc) (T : Z) (e : env) (w : world)
        (before : list tick) (raw : bytes) (line : str) (t : Z)
        (rest : list tick) :
  out (run json_loads script vars (Some T) (with_ticks before e) w) = Spin ->
  stop_event (post (run json_loads script vars (Some T) (with_ticks before e) w))
  = false ->
  monitor_alive (post (run json_loads script vars (Some T) (with_ticks before e) w))
  = true ->
  decode_utf8 raw = inr line ->
  line <> [] ->
  is_completion json_loads line = true ->
  (T < t - start e)%Z ->
  let r0 := run json_loads script vars (Some T) (with_ticks before e) w in
  let r := run json_loads script vars (Some T)
               (with_ticks (before ++ Tick [(raw, None)] None t :: rest) e) w in
  out r = Val (Some (default run_default_vars vars)) /\
  pid (post r) = next_pid (post r0) /\
  spawned (evs r) = spawned (evs r0) ++ [next_pid (post r0)] /\
  In (Coordinator, print (lit "Process took longer than " ++ str_of_int T)) (evs r).
Proof.
  intros Hspin Hs Ha Hd Hne Hdone HT. cbv zeta.
  destruct (run_resume json_loads script vars (Some T) e w before
              (Tick [(raw, None)] None t :: rest) Hspin) as (_ & ->).
  set (r0 := run json_loads script vars (Some T) (with_ticks before e) w) in *.
  clearbody r0.
  pose proof (monitor_one json_loads raw line None (post r0) Hd Hs Ha) as Hm.
  rewrite bool_decide_eq_false_2 in Hm by exact Hne. rewrite Hdone in Hm.
  rewrite wait_loop_cons. cbv zeta. cbn [mon interrupt now].
  rewrite Hm. cbn [post evs]. rewrite wait_iter_eq. cbn [interrupt now].
  apply Z.ltb_lt in HT. rewrite HT. cbn [out post evs NODE_IS_RUNNING with_running].
  rewrite wait_loop_false. cbn [out post evs pid with_heap with_running respawned].
  split; [reflexivity|]. split; [reflexivity|]. split.
  - rewrite !spawned_app, spawned_timeout. cbn. now rewrite ?app_nil_r.
  - apply in_or_app. right. apply in_or_app. left. apply in_or_app. right.
    apply in_or_app. left. apply in_or_app. right.
    unfold timeout_trace. apply in_or_app. right. apply in_or_app. right.
    now left.
Qed.

(** The wait loop as long as nothing happens. *)
Lemma wait_loop_uneventful_state T start ts w :
  NODE_IS_RUNNING w = true ->
  Forall (uneventful json_loads T start) ts ->
  exists l a,
    wait_loop json_loads (Some T) start true ts w
    = Result Spin (with_monitor_alive a w) l /\ spawned l = [].
Proof.
  intros Hrun H. revert w Hrun.
  induction H as [|t rest (Hq & Hi & Ht) _ IH]; intros w Hrun.
  { exists [], (monitor_alive w). now rewrite with_monitor_alive_same. }
  rewrite wait_loop_cons. cbv zeta.
  destruct (monitor_quiet json_loads (mon t) w Hq) as (lt & a & Hlt).
  pose proof (monitor_keeps_process json_loads (mon t) w) as (_ & _ & Hst).
  rewrite Hlt in *. cbn [post evs] in *.
  rewrite wait_iter_eq, Hi.
  replace (T <? now t - start)%Z with false by (symmetry; apply Z.ltb_ge; lia).
  cbn [out post evs NODE_IS_RUNNING with_monitor_alive]. rewrite Hrun.
  destruct (IH (with_monitor_alive a w) Hrun) as (l & a' & -> & Hsl).
  exists (lt ++ poll_trace true ++ l), a'. split; [reflexivity|].
  rewrite !spawned_app, Hst, Hsl. reflexivity.
Qed.

(** The state and the spawns of a run that receives no completion signal. *)
Lemma run_uneventful_state script payload vars T e w before :
  payload_of script = Some payload ->
  len payload < 16 ^ 8 ->
  pipe e = PipeOk ->
  Forall (fun i => quiet json_loads i = true) (early e) ->
  Forall (uneventful json_loads T (start e)) before ->
  let r0 := run json_loads script vars (Some T) (with_ticks before e) w in
  out r0 = Spin /\
  (exists a, post r0 = with_monitor_alive a (with_running true w)) /\
  spawned (evs r0) = [].
Proof.
  intros Hp Hl Hpipe Hearly Hbefore. cbv zeta. rewrite run_eq. cbv zeta.
  cbn [pipe early start ticks pulled with_ticks]. rewrite Hpipe.
  rewrite (write_ok script _ (with_running true w)
                    (build_frame_small script payload Hp Hl)).
  cbn [out post evs]. change (1 <? 0)%Z with false. cbv iota.
  destruct (monitor_quiet json_loads (early e) (with_running true w) Hearly)
    as (lm & a & Hm).
  pose proof (monitor_keeps_process json_loads (early e) (with_running true w))
    as (_ & _ & Hsm).
  rewrite Hm in *. cbn [post evs NODE_IS_RUNNING with_running with_monitor_alive] in *.
  destruct (wait_loop_uneventful_state T (start e) before
              (with_monitor_alive a (with_running true w)) eq_refl Hbefore)
    as (l & a' & -> & Hsl). cbn [out post evs].
  split; [reflexivity|]. split; [now exists a'|].
  rewrite !spawned_app, Hsm, Hsl. reflexivity.
Qed.

(** X11.  On a timeout the companion process is restarted twice when the
    clock does not go back: the iteration that finds the timeout passed
    cancels, restarts and clears the flag, but the loop condition still
    holds the value sampled before, so one more iteration runs, finds the
    timeout passed again, and cancels and restarts the new process too. *)
Theorem timeout_restarts_the_process_twice
        (script : str) (payload : bytes) (vars : option loc) (T : Z)
        (e : env) (w : world)
        (before : list tick) (tk tk1 : tick) (rest : list tick) :
  payload_of script = Some payload ->
  len payload < 16 ^ 8 ->
  pipe e = PipeOk ->
  Forall (fun i => quiet json_loads i = true) (early e) ->
  Forall (uneventful json_loads T (start e)) before ->
  ticks e = before ++ tk :: tk1 :: rest ->
  Forall (fun i => quiet json_loads i = true) (mon tk) ->
  interrupt tk = None ->
  (T < now tk - start e)%Z ->
  interrupt tk1 = None ->
  (T < now tk1 - start e)%Z ->
  let r := run json_loads script vars (Some T) e w in
  out r = Val (Some (default run_default_vars vars)) /\
  spawned (evs r) = [next_pid w; N.succ (next_pid w)] /\
  pid (post r) = N.succ (next_pid w).
Proof.
  intros Hp Hl Hpipe Hearly Hbefore Hticks Hq Hi HT Hi1 HT1. cbv zeta.
  destruct (run_uneventful_state script payload vars T e w before
                                 Hp Hl Hpipe Hearly Hbefore)
    as (Hspin & (a & Hpost) & Hsp).
  rewrite (run_with_ticks json_loads script vars (Some T) e w), Hticks.
  destruct (run_resume json_loads script vars (Some T) e w before
                       (tk :: tk1 :: rest) Hspin) as (_ & ->).
  rewrite Hpost.
  rewrite !wait_loop_cons. cbv zeta.
  destruct (monitor_quiet json_loads (mon tk)
              (with_monitor_alive a (with_running true w)) Hq)
    as (lm & a' & Hm).
  pose proof (monitor_keeps_process json_loads (mon tk)
                (with_monitor_alive a (with_running true w)))
    as (_ & _ & Hsm).
  rewrite Hm in *. cbn [post evs] in *.
  rewrite wait_iter_eq, Hi. apply Z.ltb_lt in HT. rewrite HT.
  cbn [out post evs NODE_IS_RUNNING with_running with_monitor_alive].
  rewrite wait_loop_cons. cbv zeta.
  set (w1 := with_running false
               (respawned (with_monitor_alive a'
                             (with_monitor_alive a (with_running true w))))).
  destruct (monitor_run_spec json_loads (mon tk1) w1)
    as (wm1 & lm1 & Hm1 & Hp1 & Hn1 & _ & Hf1 & _).
  pose proof (monitor_keeps_process json_loads (mon tk1) w1) as (_ & _ & Hsm1).
  rewrite Hm1 in *. cbn [post evs] in *.
  assert (Hfalse : NODE_IS_RUNNING wm1 = false).
  { destruct (NODE_IS_RUNNING wm1); [|reflexivity]. now specialize (Hf1 eq_refl). }
  rewrite wait_iter_eq, Hi1, Hfalse. apply Z.ltb_lt in HT1. rewrite HT1.
  cbn [out post evs]. rewrite wait_loop_false. cbn [out post evs].
  simpl in Hn1, Hp1.
  split; [reflexivity|]. split.
  - rewrite !spawned_app, Hsp, Hsm, Hsm1, !spawned_timeout. cbn.
    rewrite Hn1. reflexivity.
  - cbn. exact Hn1.
Qed.

End Timeouts.

Lemma run_without_timeout_waits_for_the_monitor_witness :
  let r := run JSON.loads script0 None None env_done w0 in
  pid (post r) = pid w0 /\
  spawned (evs r) = [] /\
  (1 <= monitor_clears (evs r))%nat.
Proof.
  apply (run_without_timeout_waits_for_the_monitor
           JSON.loads script0 None env_done w0 run_default_vars).
  - repeat constructor.
  - vm_compute. reflexivity.
Defined.

Lemma completion_seen_after_the_timeout_still_restarts_witness :
  let r0 := run JSON.loads script0 None (Some 0%Z)
                (with_ticks [quiet_tick 0] env_done) w0 in
  let r := run JSON.loads script0 None (Some 0%Z)
               (with_ticks ([quiet_tick 0] ++ Tick [(done_line, None)] None 2 :: [])
                           env_done) w0 in
  out r = Val (Some (default run_default_vars None)) /\
  pid (post r) = next_pid (post r0) /\
  spawned (evs r) = spawned (evs r0) ++ [next_pid (post r0)] /\
  In (Coordinator, print (lit "Process took longer than " ++ str_of_int 0)) (evs r).
Proof.
  apply (completion_seen_after_the_timeout_still_restarts
           JSON.loads script0 None 0%Z env_done w0 [quiet_tick 0] done_line
           done_text 2%Z []).
  - vm_compute. reflexivity.
  - vm_compute. reflexivity.
  - vm_compute. reflexivity.
  - vm_compute. reflexivity.
  - discriminate.
  - vm_compute. reflexivity.
  - vm_compute. reflexivity.
Defined.

Lemma timeout_restarts_the_process_twice_witness :
  let r := run JSON.loads script0 None (Some 5%Z) env_slow w0 in
  out r = Val (Some (default run_default_vars None)) /\
  spawned (evs r) = [next_pid w0; N.succ (next_pid w0)] /\
  pid (post r) = N.succ (next_pid w0).
Proof.
  apply (timeout_restarts_the_process_twice
           JSON.loads script0 payload0 None 5%Z env_slow w0
           [quiet_tick 1; quiet_tick 3] (quiet_tick 6) (quiet_tick 7) []).
  - vm_compute. reflexivity.
  - vm_compute. reflexivity.
  - reflexivity.
  - constructor.
  - repeat constructor; vm_compute; discriminate.
  - reflexivity.
  - constructor.
  - reflexivity.
  - vm_compute. reflexivity.
  - reflexivity.
  - vm_compute. reflexivity.
Defined.

(** ** The lock at the end of a run, and the run after a failed dispatch *)

(** A trace that leaves both threads holding what they held. *)
Lemma keeps_app a b :
  (forall hc hm, writer hc = false -> writer hm = false ->
                 holds_after hc hm a = (hc, hm)) ->
  (forall hc hm, writer hc = false -> writer hm = false ->
                 holds_after hc hm b = (hc, hm)) ->
  forall hc hm, writer hc = false -> writer hm = false ->
                holds_after hc hm (a ++ b) = (hc, hm).
Proof.
  intros Ha Hb hc hm Hc Hm. rewrite holds_after_app, (Ha hc hm Hc Hm).
  now apply Hb.
Qed.

Section Balance.
Variable json_loads : str -> option pyobj.

(** X12.  Unless a [KeyboardInterrupt] is delivered (it then propagates,
    or its handler waits for the lock), every acquisition of [NODE_LOCK]
    made during a run, by the coordinator or by the monitor, has been
    released when the run ends (and at every poll boundary while it is
    still waiting): neither thread is left holding the lock. *)
Theorem run_leaves_the_lock_free
        (script : str) (vars : option loc) (timeout : option Z)
        (e : env) (w : world) :
  let r := run json_loads script vars timeout e w in
  out r <> Exc KeyboardInterrupt ->
  out r <> Deadlock ->
  held_at_end (evs r) = (nothing_held, nothing_held).
Proof.
  cbv zeta. intros Hki. revert Hki. rewrite run_eq. cbv zeta.
  set (v := default run_default_vars vars).
  pose proof (write_tame (pipe e) script (with_running true w)) as Hw.
  pose proof (tame_dispatch v w) as Hd.
  destruct (write_out (pipe e) script (with_running true w))
    as [(rc & Hrc)|(_ & Hrc)]; rewrite Hrc.
  2:{ cbn [out evs]. intros _ _.
      apply (tame_keeps_holds true); [|reflexivity|reflexivity].
      apply tame_concat; [exact Hd | apply tame_weaken, Hw]. }
  destruct (rc <? 0)%Z; cbn [out evs].
  { intros _ _. apply (tame_keeps_holds true); [|reflexivity|reflexivity].
    apply tame_concat; [exact Hd|].
    apply tame_concat; [apply tame_weaken, Hw|].
    now apply tame_plain. }
  destruct (monitor_run_spec json_loads (early e)
              (post (write (pipe e) script (with_running true w))))
    as (wm & lm & Hm & _ & _ & _ & _ & Htm).
  rewrite Hm. cbn [post evs].
  pose proof (wait_loop_spec json_loads timeout (start e) (NODE_IS_RUNNING wm)
                             (ticks e) wm) as (_ & _ & _ & _ & _ & Htl).
  cbv zeta in Htl.
  assert (Hpre : out (wait_loop json_loads timeout (start e) (NODE_IS_RUNNING wm)
                                (ticks e) wm) <> Deadlock ->
                 forall rest, tame true rest ->
                 held_at_end
                   ((dispatch_trace v w
                      ++ evs (write (pipe e) script (with_running true w))
                      ++ lm ++ [(Coordinator, read_flag (NODE_IS_RUNNING wm))]
                      ++ evs (wait_loop json_loads timeout (start e)
                                        (NODE_IS_RUNNING wm) (ticks e) wm))
                      ++ rest)
                 = (nothing_held, nothing_held)).
  { intros Hk rest Hrest. unfold held_at_end.
    repeat (apply keeps_app; try reflexivity).
    - intros; now apply (tame_keeps_holds true).
    - intros; apply (tame_keeps_holds false); [exact Hw|assumption..].
    - intros; apply (tame_keeps_holds false); [exact Htm|assumption..].
    - intros; apply (tame_keeps_holds false); [now apply Htl|assumption..].
    - intros; now apply (tame_keeps_holds true). }
  destruct (out (wait_loop json_loads timeout (start e) (NODE_IS_RUNNING wm)
                           (ticks e) wm)) as [[]|x| |] eqn:Hout;
    cbn [out evs]; intros _ Hne.
  - apply Hpre; [discriminate|]. apply tame_atom. now constructor.
  - rewrite <- (app_nil_r (_ ++ _)). apply Hpre; [discriminate | constructor].
  - rewrite <- (app_nil_r (_ ++ _)). apply Hpre; [discriminate | constructor].
  - now contradiction Hne.
Qed.

(** X13.  After a run whose dispatch failed (it returned [None]), the
    companion process has been replaced, and the next run whose frame can
    be built and whose pipe works writes that frame to the new process and
    does not return [None]. *)
Theorem next_run_after_failed_dispatch_uses_the_new_process
        (script1 : str) (vars1 : option loc) (timeout1 : option Z) (e1 : env)
        (script2 : str) (frame : bytes) (vars2 : option loc)
        (timeout2 : option Z) (e2 : env) (w : world) :
  out (run json_loads script1 vars1 timeout1 e1 w) = Val None ->
  build_frame script2 = inr frame ->
  pipe e2 = PipeOk ->
  let w1 := post (run json_loads script1 vars1 timeout1 e1 w) in
  let r2 := run json_loads script2 vars2 timeout2 e2 w1 in
  pid w1 = next_pid w /\
  In (Coordinator, stdin_write (next_pid w) frame) (evs r2) /\
  out r2 <> Val None.
Proof.
  intros H1 Hf Hp. cbv zeta.
  assert (Hw1 : post (run json_loads script1 vars1 timeout1 e1 w)
                = with_running false (respawned w)).
  { revert H1. rewrite run_eq. cbv zeta.
    destruct (write_cases (pipe e1) script1 (with_running true w))
      as [(fr & _ & _ & Hw)|[(_ & Ho & Hpost)|(fr & _ & _ & Hw)]].
    - rewrite Hw. cbn [out post evs]. change (1 <? 0)%Z with false. cbv iota.
      destruct (out (wait_loop _ _ _ _ _ _)) as [[]|x| |]; discriminate.
    - rewrite Ho. change (-1 <? 0)%Z with true. cbv iota. cbn [post].
      intros _. exact Hpost.
    - rewrite Hw. discriminate. }
  rewrite Hw1. split; [reflexivity|].
  rewrite run_eq. cbv zeta. rewrite Hp.
  rewrite (write_ok script2 frame _ Hf). cbn [out post evs].
  change (1 <? 0)%Z with false. cbv iota.
  split.
  - assert (Hin : forall rest,
               In (Coordinator, stdin_write (next_pid w) frame)
                  (dispatch_trace (default run_default_vars vars2)
                                  (with_running false (respawned w))
                     ++ [(Coordinator, stdin_write (next_pid w) frame);
                         (Coordinator, stdin_flush (next_pid w))] ++ rest)).
    { intros rest. apply in_or_app. right. now left. }
    destruct (out (wait_loop _ _ _ _ _ _)) as [[]|x| |]; cbn [evs];
      rewrite <- ?app_assoc; apply Hin.
  - destruct (out (wait_loop _ _ _ _ _ _)) as [[]|x| |]; discriminate.
Qed.

End Balance.

Lemma run_leaves_the_lock_free_witness :
  held_at_end (evs (run JSON.loads script0 None (Some 5%Z) env_slow w0))
  = (nothing_held, nothing_held).
Proof.
  apply (run_leaves_the_lock_free JSON.loads script0 None (Some 5%Z) env_slow w0).
  - vm_compute. discriminate.
  - vm_compute. discriminate.
Defined.

Lemma next_run_after_failed_dispatch_uses_the_new_process_witness :
  let w1 := post (run JSON.loads script0 None None env_broken_pipe w0) in
  let r2 := run JSON.loads script0 None None env_done w1 in
  pid w1 = next_pid w0 /\
  In (Coordinator, stdin_write (next_pid w0) ([x45] ++ map byte_of_N (lit "00000013")
                                                 ++ [x43] ++ payload0)) (evs r2) /\
  out r2 <> Val None.
Proof.
  apply (next_run_after_failed_dispatch_uses_the_new_process
           JSON.loads script0 None None env_broken_pipe
           script0 _ None None env_done w0).
  - vm_compute. reflexivity.
  - vm_compute. reflexivity.
  - reflexivity.
Defined.

(** * [Npm] and the version check of [Job.dcp_install] *)

(** ** [str.strip] *)

(** A text with no white space at either end. *)
Lemma lstrip_split s :
  exists ws, s = ws ++ lstrip s /\ Forall (fun c => isspace c = true) ws.
Proof.
  induction s as [|c r IH]; [exists []; split; [reflexivity | constructor]|].
  cbn [lstrip]. destruct (isspace c) eqn:Hc.
  - destruct IH as (ws & Heq & Hws). exists (c :: ws). split.
    + cbn [app]. now rewrite <- Heq.
    + now constructor.
  - exists []. split; [reflexivity | constructor].
Qed.

Lemma lstrip_head s : lstrip s = s <-> match s with
                                       | c :: _ => isspace c = false
                                       | [] => True
                                       end.
Proof.
  destruct s as [|c r]; [easy|]. cbn [lstrip]. destruct (isspace c) eqn:Hc.
  - split; [|discriminate]. intros H.
    destruct (lstrip_split r) as (ws & Heq & _).
    assert (Hlen : length (lstrip r) = length (c :: r)) by now rewrite H.
    apply (f_equal (@length N)) in Heq. rewrite length_app in Heq.
    cbn [length] in Hlen. lia.
  - easy.
Qed.

Lemma lstrip_idem s : lstrip (lstrip s) = lstrip s.
Proof.
  induction s as [|c r IH]; [reflexivity|]. cbn [lstrip].
  destruct (isspace c) eqn:Hc; [exact IH|]. cbn [lstrip]. now rewrite Hc.
Qed.

Lemma lstrip_spaces ws s :
  Forall (fun c => isspace c = true) ws -> lstrip (ws ++ s) = lstrip s.
Proof.
  induction 1 as [|c ws Hc _ IH]; [reflexivity|]. cbn [app lstrip]. now rewrite Hc.
Qed.

Lemma lstrip_app_fixed a b : a <> [] -> lstrip a = a -> lstrip (a ++ b) = a ++ b.
Proof.
  intros Hne Ha. destruct a as [|c r]; [now contradiction Hne|].
  apply lstrip_head in Ha. cbn [app lstrip]. now rewrite Ha.
Qed.

(** [trimmed a]: [a] neither begins nor ends with white space. *)
Lemma strip_trimmed s :
  lstrip (strip s) = strip s /\ lstrip (rev (strip s)) = rev (strip s).
Proof.
  unfold strip. rewrite rev_involutive. split; [|apply lstrip_idem].
  destruct (lstrip_split (rev (lstrip s))) as (ws & Heq & Hws).
  set (v := lstrip (rev (lstrip s))) in *.
  destruct v as [|c r] eqn:Hv; [reflexivity|].
  assert (Hu : lstrip s = rev (c :: r) ++ rev ws).
  { rewrite <- rev_app_distr, <- Heq. now rewrite rev_involutive. }
  pose proof (lstrip_idem s) as Hi. rewrite Hu in Hi.
  apply lstrip_head. apply lstrip_head in Hi.
  destruct (rev (c :: r)) as [|c' r'] eqn:Hr; [|exact Hi].
  apply (f_equal (@length N)) in Hr. rewrite length_rev in Hr. discriminate Hr.
Qed.

Lemma strip_fixed a :
  lstrip a = a -> lstrip (rev a) = rev a -> strip a = a.
Proof. intros H1 H2. unfold strip. now rewrite H1, H2, rev_involutive. Qed.

Lemma strip_idem s : strip (strip s) = strip s.
Proof. destruct (strip_trimmed s). now apply strip_fixed. Qed.

(** Printing a stripped text and stripping what was printed gives the
    text back. *)
Lemma strip_line a :
  lstrip a = a -> lstrip (rev a) = rev a -> strip (a ++ [10]) = a.
Proof.
  intros H1 H2. destruct a as [|c r]; [reflexivity|].
  unfold strip. rewrite (lstrip_app_fixed (c :: r) [10]) by easy.
  rewrite rev_app_distr.
  change (lstrip (rev [10] ++ rev (c :: r))) with (lstrip (rev (c :: r))).
  rewrite H2. apply rev_involutive.
Qed.

Lemma strip_two_lines a b :
  a <> [] -> b <> [] ->
  lstrip a = a -> lstrip (rev b) = rev b ->
  strip (a ++ [10] ++ b ++ [10]) = a ++ [10] ++ b.
Proof.
  intros Ha Hb H1 H2. unfold strip.
  rewrite (lstrip_app_fixed a) by assumption.
  replace (a ++ [10] ++ b ++ [10]) with ((a ++ [10] ++ b) ++ [10])
    by now rewrite <- !app_assoc.
  rewrite (rev_app_distr (a ++ [10] ++ b) [10]).
  change (lstrip (rev [10] ++ ?x)) with (lstrip x).
  rewrite (app_assoc a [10] b), (rev_app_distr (a ++ [10]) b).
  rewrite (lstrip_app_fixed (rev b)); [| |exact H2].
  - rewrite <- rev_app_distr, rev_involutive. now rewrite <- app_assoc.
  - intros H. apply Hb. apply (f_equal (@rev N)) in H.
    now rewrite rev_involutive in H.
Qed.

(** ** The loop of [Npm.run] *)

(** What one iteration that does not leave the loop prints. *)
Lemma Npm_run_loop_stream warn log body final rest code :
  Forall (fun r => stdout_line r <> [] \/ poll_result r = None) body ->
  stdout_line final = [] ->
  poll_result final = Some code ->
  Npm_run_loop warn log (body ++ final :: rest)
  = (flat_map (fun r =>
                 (if negb (bool_decide (stdout_line r = [])) && log
                  then [strip (stdout_line r)] else [])
                   ++ (if negb (bool_decide (stderr_line r = [])) && warn
                       then [strip (stderr_line r)] else [])) body,
     Some code).
Proof.
  intros Hbody Hout Hpoll.
  induction Hbody as [|r body Hr _ IH]; cbn [app Npm_run_loop flat_map].
  - rewrite Hout, Hpoll. rewrite bool_decide_eq_true_2 by reflexivity.
    rewrite bool_decide_eq_true_2 by discriminate. reflexivity.
  - assert (Hc : bool_decide (stdout_line r = [])
                 && bool_decide (poll_result r <> None) = false).
    { destruct Hr as [Hr|Hr].
      - now rewrite (bool_decide_eq_false_2 _ Hr).
      - rewrite Hr. rewrite (bool_decide_eq_false_2 (None <> None)) by tauto.
        apply andb_false_r. }
    rewrite Hc, IH. now rewrite <- app_assoc.
Qed.

(** With [warn] and [log] off the loop prints nothing. *)
Lemma Npm_run_loop_silent rs : (Npm_run_loop false false rs).1 = [].
Proof.
  induction rs as [|r rest IH]; [reflexivity|]. cbn [Npm_run_loop].
  destruct (_ && _); [reflexivity|].
  destruct (Npm_run_loop false false rest) as [printed code].
  cbn [fst] in *. rewrite !andb_false_r. now subst.
Qed.

(** ** The version queries of [Npm] *)

Section Versions.
Variable json_loads : str -> option pyobj.
Variable npm_exec_path : str.
Variable npm : list str -> list reading.

(** A captured run: the process is started, and what it prints is
    collected. *)
Lemma redirect_stdout_Npm_run cmd warn log :
  redirect_stdout (Npm_run npm cmd warn log)
  = let argv := cmd ++ [lit "--no-update-notifier"] in
    (match (Npm_run_loop warn log (npm argv)).2 with
     | Some _ => Returned (getvalue (map Printed (Npm_run_loop warn log (npm argv)).1))
     | None => Blocked
     end, [Popen argv]).
Proof.
  cbv zeta. unfold Npm_run, redirect_stdout.
  destruct (Npm_run_loop warn log (npm (cmd ++ [lit "--no-update-notifier"])))
    as [printed code]. cbn [fst snd].
  assert (Hf : filter (fun ev => negb (is_Printed ev))
                      (Popen (cmd ++ [lit "--no-update-notifier"]) :: map Printed printed)
               = [Popen (cmd ++ [lit "--no-update-notifier"])]).
  { cbn [filter is_Printed negb]. f_equal.
    induction printed as [|t r IH]; [reflexivity | exact IH]. }
  destruct code; rewrite Hf; reflexivity.
Qed.

Lemma getvalue_Printed l : getvalue (map Printed l) = concat (map (fun t => t ++ [10]) l).
Proof. unfold getvalue. now rewrite map_map. Qed.

(** X14.  When [npm view <package> version] writes one line on its
    standard output, nothing on its standard error, and exits,
    [package_latest_version] returns that line stripped of surrounding
    white space, having started exactly that one process. *)
Theorem package_latest_version_is_the_stripped_line
        (package_name line : str) (p : option Z) (code : Z) (e : str)
        (rest : list reading) :
  let argv := [npm_exec_path; lit "view"; package_name; lit "version";
               lit "--no-update-notifier"] in
  line <> [] ->
  npm argv = Reading line p [] :: Reading [] (Some code) e :: rest ->
  Npm_package_latest_version npm_exec_path npm package_name
  = (Returned (strip line), [Popen argv]).
Proof.
  cbv zeta. intros Hline Hnpm. unfold Npm_package_latest_version.
  rewrite redirect_stdout_Npm_run. cbv zeta. cbn [app]. rewrite Hnpm.
  pose proof (Npm_run_loop_stream true true [Reading line p []]
                (Reading [] (Some code) e) rest code) as Hloop.
  cbn [app] in Hloop. rewrite Hloop;
    [|constructor; [now left | constructor]|reflexivity|reflexivity].
  clear Hloop.
  cbn [flat_map snd fst stdout_line stderr_line app act_bind act_ret].
  rewrite (bool_decide_eq_false_2 _ Hline), bool_decide_eq_true_2 by reflexivity.
  cbn [negb andb app]. rewrite getvalue_Printed. cbn [map concat].
  rewrite !app_nil_r.
  destruct (strip_trimmed line) as (H1 & H2). now rewrite (strip_line _ H1 H2).
Qed.

(** X15.  [package_latest_version] runs npm with [warn=True] inside the
    redirection, so a line that npm writes on its standard error ends up
    in the version: with one line on each stream, the result is the
    stripped output line, a newline, and the stripped warning. *)
Theorem package_latest_version_includes_the_warning
        (package_name line warning : str) (p : option Z) (code : Z) (e : str)
        (rest : list reading) :
  let argv := [npm_exec_path; lit "view"; package_name; lit "version";
               lit "--no-update-notifier"] in
  strip line <> [] ->
  strip warning <> [] ->
  npm argv = Reading line p warning :: Reading [] (Some code) e :: rest ->
  Npm_package_latest_version npm_exec_path npm package_name
  = (Returned (strip line ++ [10] ++ strip warning), [Popen argv]).
Proof.
  cbv zeta. intros Hline Hwarn Hnpm. unfold Npm_package_latest_version.
  rewrite redirect_stdout_Npm_run. cbv zeta. cbn [app]. rewrite Hnpm.
  assert (Hl : line <> []) by (intros ->; now apply Hline).
  assert (Hw : warning <> []) by (intros ->; now apply Hwarn).
  pose proof (Npm_run_loop_stream true true [Reading line p warning]
                (Reading [] (Some code) e) rest code) as Hloop.
  cbn [app] in Hloop. rewrite Hloop;
    [|constructor; [now left | constructor]|reflexivity|reflexivity].
  clear Hloop.
  cbn [flat_map snd fst stdout_line stderr_line app act_bind act_ret].
  rewrite (bool_decide_eq_false_2 _ Hl), (bool_decide_eq_false_2 _ Hw).
  cbn [negb andb app]. rewrite getvalue_Printed. cbn [map concat].
  rewrite !app_nil_r.
  destruct (strip_trimmed line) as (H1 & _).
  destruct (strip_trimmed warning) as (_ & H2).
  rewrite <- (app_assoc (strip line) [10]).
  now rewrite (strip_two_lines _ _ Hline Hwarn H1 H2).
Qed.

(** X16.  [package_current_version] never raises [KeyError], starts exactly
    one process and prints nothing itself; and when the JSON printed by
    [npm ls] is an object in which [dependencies], the package in it, or
    its [version] is missing, the result is ['0.0.0']. *)
Theorem package_current_version_defaults_to_0_0_0 (package_name : str) :
  let argv := [npm_exec_path; lit "ls"; package_name; lit "--json=true";
               lit "--no-update-notifier"] in
  let r := Npm_package_current_version json_loads npm_exec_path npm package_name in
  r.2 = [Popen argv] /\
  (forall m, r.1 <> Raised (Builtin (KeyError m))) /\
  forall code items,
    (Npm_run_loop true true (npm argv)).2 = Some code ->
    json_loads (getvalue (map Printed (Npm_run_loop true true (npm argv)).1))
    = Some (PyDict items) ->
    (dict_get (lit "dependencies") items = None \/
     (exists deps, dict_get (lit "dependencies") items = Some (PyDict deps) /\
                   dict_get package_name deps = None) \/
     (exists deps package,
         dict_get (lit "dependencies") items = Some (PyDict deps) /\
         dict_get package_name deps = Some (PyDict package) /\
         dict_get (lit "version") package = None)) ->
    r.1 = Returned (lit "0.0.0").
Proof.
  cbv zeta. unfold Npm_package_current_version.
  rewrite redirect_stdout_Npm_run. cbv zeta. cbn [app].
  set (argv := [npm_exec_path; lit "ls"; package_name; lit "--json=true";
                lit "--no-update-notifier"]).
  destruct (Npm_run_loop true true (npm argv)) as [printed code]. cbn [fst snd].
  assert (Hstrip : forall o : pyobj,
             (strip_obj o).2 = [] /\
             forall m, (strip_obj o).1 <> Raised (Builtin (KeyError m))).
  { intros o. destruct o; cbn; split; try reflexivity; intros m; discriminate. }
  destruct code as [c|]; cbn [act_bind].
  2:{ split; [reflexivity|]. split; [intros m; discriminate|].
      intros code items H. discriminate H. }
  unfold act_json_loads.
  destruct (json_loads (getvalue (map Printed printed))) as [version_dict|];
    cbn [act_lift act_raise act_ret act_bind].
  2:{ split; [reflexivity|]. split; [intros m; discriminate|].
      intros code items _ H. discriminate H. }
  split; [|split].
  - destruct (getitem version_dict (lit "dependencies")) as [x|deps].
    { destruct x; cbn; try reflexivity. }
    destruct (getitem deps package_name) as [x|package].
    { destruct x; cbn; try reflexivity. }
    destruct (getitem package (lit "version")) as [x|v].
    { destruct x; cbn; try reflexivity. }
    destruct (strip_obj v) as [en l] eqn:Hv.
    pose proof (proj1 (Hstrip v)) as Hl. rewrite Hv in Hl. cbn in Hl. subst l.
    reflexivity.
  - intros m.
    destruct (getitem version_dict (lit "dependencies")) as [x|deps].
    { destruct x; cbn; discriminate. }
    destruct (getitem deps package_name) as [x|package].
    { destruct x; cbn; discriminate. }
    destruct (getitem package (lit "version")) as [x|v].
    { destruct x; cbn; discriminate. }
    destruct (strip_obj v) as [en l] eqn:Hv.
    pose proof (proj2 (Hstrip v) m) as Hl. rewrite Hv in Hl. cbn in Hl.
    destruct en; cbn; congruence.
  - intros code items _ [= ->] Hmiss. cbn [getitem].
    destruct Hmiss as [H|[(deps & H1 & H2)|(deps & package & H1 & H2 & H3)]].
    + rewrite H. reflexivity.
    + rewrite H1. cbn [getitem]. rewrite H2. reflexivity.
    + rewrite H1. cbn [getitem]. rewrite H2. cbn [getitem]. rewrite H3. reflexivity.
Qed.

End Versions.

(** ** [int], [split] and [_parse_version] *)

Lemma lit_string_of_uint d :
  lit (NilEmpty.string_of_uint d) = map (fun v => 48 + v) (uint_digits d).
Proof.
  induction d; cbn [NilEmpty.string_of_uint uint_digits map];
    [reflexivity|..]; unfold lit; fold lit; rewrite IHd; reflexivity.
Qed.

Lemma uint_digits_small d : Forall (fun v => v < 10) (uint_digits d).
Proof. induction d; cbn [uint_digits]; constructor; (lia || assumption). Qed.

Lemma digits_value_acc ds (acc : Z) :
  fold_left (fun a d => (a * 10 + Z.of_N d)%Z) ds acc
  = (acc * 10 ^ Z.of_nat (length ds) + digits_value ds)%Z.
Proof.
  unfold digits_value. revert acc.
  induction ds as [|d r IH]; intros acc; cbn [fold_left length].
  - change (10 ^ Z.of_nat 0)%Z with 1%Z. lia.
  - rewrite IH, (IH (0 * 10 + Z.of_N d)%Z).
    rewrite Nat2Z.inj_succ, Z.pow_succ_r by lia. lia.
Qed.

Lemma of_uint_acc_value d acc :
  Z.pos (Pos.of_uint_acc d acc)
  = fold_left (fun a v => (a * 10 + Z.of_N v)%Z) (uint_digits d) (Z.pos acc).
Proof.
  revert acc. induction d; intros acc; cbn [Pos.of_uint_acc uint_digits fold_left];
    [reflexivity|..]; rewrite IHd; f_equal; lia.
Qed.

Lemma of_uint_value d : Z.of_N (Pos.of_uint d) = digits_value (uint_digits d).
Proof.
  unfold digits_value.
  induction d; cbn [Pos.of_uint uint_digits fold_left]; [reflexivity|exact IHd|..];
    cbn [Z.of_N]; rewrite of_uint_acc_value; reflexivity.
Qed.

Section IntFacts.
Variable py : interpreter.

Lemma scan_int_digits ds :
  Forall (fun v => v < 10) ds ->
  scan_int py false (map (fun v => 48 + v) ds) = Some (ds, []).
Proof.
  induction 1 as [|v r Hv _ IH]; [reflexivity|]. cbn [map scan_int].
  replace (48 + v =? 95) with false by (symmetry; apply N.eqb_neq; lia).
  unfold int_digit.
  replace (48 + v <? 127) with true by (symmetry; apply N.ltb_lt; lia).
  replace ((48 <=? 48 + v) && (48 + v <=? 57)) with true
    by (symmetry; apply andb_true_iff; split; apply N.leb_le; lia).
  rewrite IH. do 3 f_equal. lia.
Qed.

(** [int] reads a decimal numeral. *)
Lemma int_of_str_numeral (d : Decimal.uint) :
  d <> Decimal.Nil ->
  len (uint_digits d) <= 640 ->
  int_of_str py (lit (NilEmpty.string_of_uint d)) = inr (Z.of_N (Pos.of_uint d))
  /\ int_of_str py (45 :: lit (NilEmpty.string_of_uint d))
     = inr (- Z.of_N (Pos.of_uint d))%Z.
Proof.
  intros Hd Hlen. rewrite lit_string_of_uint, of_uint_value.
  pose proof (uint_digits_small d) as Hs.
  pose proof (scan_int_digits _ Hs) as Hscan.
  destruct (uint_digits d) as [|v r] eqn:Hds.
  { destruct d; try discriminate Hds. now contradiction Hd. }
  assert (Hv : v < 10) by now inversion Hs.
  assert (Hsp : int_space (48 + v) = false).
  { unfold int_space.
    replace (48 + v <? 127) with true by (symmetry; apply N.ltb_lt; lia).
    apply orb_false_iff. split.
    - apply andb_false_iff. right. apply N.leb_gt. lia.
    - apply N.eqb_neq. lia. }
  assert (Hlim : (640 <? len (v :: r)) = false) by (apply N.ltb_ge; exact Hlen).
  assert (Hbody : forall negative : bool,
             match map (fun v => 48 + v) (v :: r) with
             | 95 :: _ => inl invalid_literal
             | _ =>
                 match scan_int py false (map (fun v => 48 + v) (v :: r)) with
                 | Some (d0 :: ds, rest) =>
                     if (640 <? len (d0 :: ds)) && (0 <? int_max_str_digits py)
                        && (int_max_str_digits py <? len (d0 :: ds))
                     then inl exceeds_limit
                     else
                       match skip_int_space rest with
                       | [] => inr (if negative
                                    then (- digits_value (d0 :: ds))%Z
                                    else digits_value (d0 :: ds))
                       | _ :: _ => inl invalid_literal
                       end
                 | _ => inl invalid_literal
                 end
             end = inr (if negative then (- digits_value (v :: r))%Z
                        else digits_value (v :: r))).
  { intros negative. rewrite Hscan, Hlim. cbn [andb skip_int_space map].
    destruct (N.eq_dec (48 + v) 95) as [H|H]; [lia|].
    destruct (48 + v) as [|q] eqn:Hq; [lia|].
    repeat (destruct q as [q|q|]; try reflexivity; try (exfalso; lia)). }
  split.
  - unfold int_of_str. cbn [map skip_int_space]. rewrite Hsp.
    change (48 + v :: map (fun v0 => 48 + v0) r)
      with (map (fun v0 => 48 + v0) (v :: r)).
    destruct (N.eq_dec (48 + v) 43) as [H|H]; [lia|].
    destruct (N.eq_dec (48 + v) 45) as [H'|H']; [lia|].
    transitivity (match map (fun v0 => 48 + v0) (v :: r) with
                  | 95 :: _ => inl invalid_literal
                  | _ =>
                      match scan_int py false (map (fun v => 48 + v) (v :: r)) with
                      | Some (d0 :: ds, rest) =>
                          if (640 <? len (d0 :: ds)) && (0 <? int_max_str_digits py)
                             && (int_max_str_digits py <? len (d0 :: ds))
                          then inl exceeds_limit
                          else
                            match skip_int_space rest with
                            | [] => inr (if false
                                         then (- digits_value (d0 :: ds))%Z
                                         else digits_value (d0 :: ds))
                            | _ :: _ => inl invalid_literal
                            end
                      | _ => inl invalid_literal
                      end
                  end); [|exact (Hbody false)].
    cbn [map]. destruct (48 + v) as [|q] eqn:Hq; [lia|].
    repeat (destruct q as [q|q|]; try reflexivity; try (exfalso; lia)).
  - unfold int_of_str. cbn [skip_int_space int_space].
    change (int_space 45) with false. cbv iota.
    exact (Hbody true).
Qed.

(** int(str(z)) == z *)
Lemma int_of_str_str_of_int (z : Z) :
  len (str_of_int z) <= 640 ->
  int_of_str py (str_of_int z) = inr z.
Proof.
  unfold str_of_int. destruct z as [|p|p]; cbn [Z.to_int NilZero.string_of_int].
  - intros _. reflexivity.
  - intros Hlen.
    assert (Hnil : Pos.to_uint p <> Decimal.Nil)
      by apply DecimalPos.Unsigned.to_uint_nonnil.
    assert (Hs : NilZero.string_of_uint (Pos.to_uint p)
                 = NilEmpty.string_of_uint (Pos.to_uint p)).
    { unfold NilZero.string_of_uint. destruct (Pos.to_uint p); try reflexivity.
      now contradiction Hnil. }
    rewrite Hs in *. rewrite lit_string_of_uint in Hlen.
    unfold len in Hlen. rewrite length_map in Hlen.
    destruct (int_of_str_numeral (Pos.to_uint p) Hnil Hlen) as (-> & _).
    now rewrite DecimalPos.Unsigned.of_to.
  - intros Hlen.
    assert (Hnil : Pos.to_uint p <> Decimal.Nil)
      by apply DecimalPos.Unsigned.to_uint_nonnil.
    assert (Hs : NilZero.string_of_uint (Pos.to_uint p)
                 = NilEmpty.string_of_uint (Pos.to_uint p)).
    { unfold NilZero.string_of_uint. destruct (Pos.to_uint p); try reflexivity.
      now contradiction Hnil. }
    rewrite Hs in *.
    change (lit (String "-" ?s)) with (45 :: lit s) in *.
    rewrite lit_string_of_uint in Hlen.
    unfold len in Hlen. cbn [length] in Hlen. rewrite length_map in Hlen.
    destruct (int_of_str_numeral (Pos.to_uint p) Hnil) as (_ & ->).
    + unfold len. lia.
    + now rewrite DecimalPos.Unsigned.of_to.
Qed.

End IntFacts.

(** *** [split] and [join] *)

Lemma split_nonempty sep s : split sep s <> [].
Proof.
  induction s as [|c r IH]; [discriminate|]. cbn [split].
  destruct (c =? sep); [discriminate|]. now destruct (split sep r).
Qed.

Lemma split_no_sep sep p : ~ In sep p -> split sep p = [p].
Proof.
  induction p as [|c r IH]; intros Hn; [reflexivity|]. cbn [split].
  replace (c =? sep) with false
    by (symmetry; apply N.eqb_neq; intros ->; apply Hn; now left).
  rewrite IH; [reflexivity|]. intros H. apply Hn. now right.
Qed.

Lemma split_app sep p r :
  ~ In sep p -> split sep (p ++ sep :: r) = p :: split sep r.
Proof.
  induction p as [|c p IH]; intros Hn; cbn [app split].
  - now rewrite N.eqb_refl.
  - replace (c =? sep) with false
      by (symmetry; apply N.eqb_neq; intros ->; apply Hn; now left).
    rewrite IH; [reflexivity|]. intros H. apply Hn. now right.
Qed.

Lemma split_join sep parts :
  parts <> [] ->
  Forall (fun p => ~ In sep p) parts ->
  split sep (join [sep] parts) = parts.
Proof.
  intros Hne Hall. induction Hall as [|p ps Hp Hps IH]; [now contradiction Hne|].
  destruct ps as [|q qs]; cbn [join].
  - now apply split_no_sep.
  - cbn [app]. rewrite split_app by exact Hp. f_equal. apply IH. discriminate.
Qed.

(** The pieces of a split contain the characters of the text other than
    the separator. *)
Lemma split_In sep s c :
  In c s -> c <> sep -> exists p, In p (split sep s) /\ In c p.
Proof.
  induction s as [|a r IH]; intros Hin Hc; [destruct Hin|]. cbn [split].
  destruct (a =? sep) eqn:Ha.
  - apply N.eqb_eq in Ha. destruct Hin as [->|Hin]; [now contradiction Hc|].
    destruct (IH Hin Hc) as (p & Hp & Hcp). exists p. split; [now right | exact Hcp].
  - destruct (split sep r) as [|p ps] eqn:Hs.
    { now contradiction (split_nonempty sep r). }
    destruct Hin as [->|Hin].
    + exists (c :: p). split; now left.
    + destruct (IH Hin Hc) as (p' & [<-|Hp'] & Hcp).
      * exists (a :: p). split; [now left | now right].
      * exists p'. split; [now right | exact Hcp].
Qed.

Lemma str_of_int_no_dot z : ~ In 46 (str_of_int z).
Proof.
  assert (Hu : forall d, ~ In 46 (lit (NilEmpty.string_of_uint d))).
  { intros d. rewrite lit_string_of_uint. intros H. apply in_map_iff in H.
    destruct H as (v & Hv & Hin).
    pose proof (uint_digits_small d) as Hs.
    rewrite List.Forall_forall in Hs. specialize (Hs v Hin). lia. }
  assert (Hz : forall d, ~ In 46 (lit (NilZero.string_of_uint d))).
  { intros d. unfold NilZero.string_of_uint. destruct d; try apply Hu.
    vm_compute. intros [H|[]]. discriminate H. }
  unfold str_of_int.
  destruct (Z.to_int z) as [d|d]; cbn [NilZero.string_of_int]; [apply Hz|].
  change (lit (String "-" ?s)) with (45 :: lit s).
  intros [H|H]; [discriminate H | now apply (Hz d)].
Qed.

Section ParseVersion.
Variable py : interpreter.

(** Every failure of [int] is a [ValueError]. *)
Lemma int_of_str_error s e :
  int_of_str py s = inl e -> exists m, e = ValueError m.
Proof.
  unfold int_of_str.
  destruct (match skip_int_space s with
            | 43 :: r => (false, r)
            | 45 :: r => (true, r)
            | _ => (false, skip_int_space s)
            end) as [negative s2].
  assert (Hb : forall x : exn + Z,
             match scan_int py false s2 with
             | Some (d :: ds, rest) =>
                 if (640 <? len (d :: ds)) && (0 <? int_max_str_digits py)
                    && (int_max_str_digits py <? len (d :: ds))
                 then inl exceeds_limit
                 else
                   match skip_int_space rest with
                   | [] => inr (if negative
                                then (- digits_value (d :: ds))%Z
                                else digits_value (d :: ds))
                   | _ :: _ => inl invalid_literal
                   end
             | _ => inl invalid_literal
             end = inl e -> exists m, e = ValueError m).
  { intros _. destruct (scan_int py false s2) as [[[|d ds] rest]|];
      try (intros [= <-]; eexists; reflexivity).
    destruct (_ && _); [intros [= <-]; eexists; reflexivity|].
    destruct (skip_int_space rest); [discriminate|].
    intros [= <-]; eexists; reflexivity. }
  destruct s2 as [|c r]; [exact (Hb (inl e))|].
  destruct c as [|q]; [exact (Hb (inl e))|].
  repeat (destruct q as [q|q|]; try exact (Hb (inl e)));
    intros [= <-]; eexists; reflexivity.
Qed.

Lemma ints_error l e : ints py l = inl e -> exists m, e = ValueError m.
Proof.
  induction l as [|s r IH]; [discriminate|]. cbn [ints].
  destruct (int_of_str py s) as [x|z] eqn:Hs.
  - intros [= <-]. now apply (int_of_str_error s).
  - destruct (ints py r) as [x|zs]; [|discriminate].
    intros [= <-]. now apply IH.
Qed.

Lemma skip_int_space_split s :
  exists ws, s = ws ++ skip_int_space s /\ Forall (fun c => int_space c = true) ws.
Proof.
  induction s as [|c r IH]; [exists []; split; [reflexivity | constructor]|].
  cbn [skip_int_space]. destruct (int_space c) eqn:Hc.
  - destruct IH as (ws & Heq & Hws). exists (c :: ws). split.
    + cbn [app]. now rewrite <- Heq.
    + now constructor.
  - exists []. split; [reflexivity | constructor].
Qed.

Lemma scan_int_chars prev s ds rest :
  scan_int py prev s = Some (ds, rest) ->
  exists pre, s = pre ++ rest /\ Forall (fun c => int_char py c = true) pre.
Proof.
  revert prev ds. induction s as [|c r IH]; intros prev ds; cbn [scan_int].
  - destruct prev; [discriminate|]. intros [= <- <-]. exists []. now split.
  - destruct (c =? 95) eqn:H95.
    + destruct prev; [discriminate|]. intros H.
      destruct (IH _ _ H) as (pre & -> & Hpre). exists (c :: pre).
      split; [reflexivity|]. constructor; [|exact Hpre].
      unfold int_char. rewrite H95. now rewrite !orb_true_r.
    + destruct (int_digit py c) as [d|] eqn:Hd.
      * destruct (scan_int py false r) as [[ds' rest']|] eqn:Hr; [|discriminate].
        intros [= <- <-]. destruct (IH _ _ Hr) as (pre & -> & Hpre).
        exists (c :: pre). split; [reflexivity|]. constructor; [|exact Hpre].
        unfold int_char. rewrite Hd. now rewrite !orb_true_r.
      * destruct prev; [discriminate|]. intros [= <- <-]. exists []. now split.
Qed.

(** [int] succeeds only on white space, signs, underscores and digits. *)
Lemma int_of_str_chars s z :
  int_of_str py s = inr z -> Forall (fun c => int_char py c = true) s.
Proof.
  unfold int_of_str.
  destruct (skip_int_space_split s) as (ws & Hs & Hws).
  assert (Hws' : Forall (fun c => int_char py c = true) ws).
  { eapply List.Forall_impl; [|exact Hws]. cbn. intros c Hc. unfold int_char.
    now rewrite Hc. }
  set (s1 := skip_int_space s) in *.
  assert (Hbody : forall (negative : bool) s2,
             match scan_int py false s2 with
             | Some (d :: ds, rest) =>
                 if (640 <? len (d :: ds)) && (0 <? int_max_str_digits py)
                    && (int_max_str_digits py <? len (d :: ds))
                 then inl exceeds_limit
                 else
                   match skip_int_space rest with
                   | [] => inr (if negative
                                then (- digits_value (d :: ds))%Z
                                else digits_value (d :: ds))
                   | _ :: _ => inl invalid_literal
                   end
             | _ => inl invalid_literal
             end = inr z -> Forall (fun c => int_char py c = true) s2).
  { intros negative s2.
    destruct (scan_int py false s2) as [[[|d ds] rest]|] eqn:Hscan;
      try discriminate.
    destruct (_ && _); [discriminate|].
    destruct (skip_int_space_split rest) as (ws2 & Hr & Hws2).
    destruct (skip_int_space rest); [|discriminate]. intros _.
    destruct (scan_int_chars _ _ _ _ Hscan) as (pre & -> & Hpre).
    apply List.Forall_app. split; [exact Hpre|].
    rewrite Hr, app_nil_r. eapply List.Forall_impl; [|exact Hws2].
    cbn. intros c Hc. unfold int_char. now rewrite Hc. }
  assert (Hcase : forall (negative : bool) s2,
             match s2 with
             | 95 :: _ => inl invalid_literal
             | _ =>
                 match scan_int py false s2 with
                 | Some (d :: ds, rest) =>
                     if (640 <? len (d :: ds)) && (0 <? int_max_str_digits py)
                        && (int_max_str_digits py <? len (d :: ds))
                     then inl exceeds_limit
                     else
                       match skip_int_space rest with
                       | [] => inr (if negative
                                    then (- digits_value (d :: ds))%Z
                                    else digits_value (d :: ds))
                       | _ :: _ => inl invalid_literal
                       end
                 | _ => inl invalid_literal
                 end
             end = inr z -> Forall (fun c => int_char py c = true) s2).
  { intros negative s2 H. apply (Hbody negative).
    destruct s2 as [|c r]; [exact H|].
    destruct c as [|q]; [exact H|].
    repeat (destruct q as [q|q|]; try exact H); discriminate H. }
  intros H. rewrite Hs. apply List.Forall_app. split; [exact Hws'|].
  destruct s1 as [|c r]; [constructor|].
  destruct (N.eq_dec c 43) as [->|H43].
  { constructor; [reflexivity|]. exact (Hcase false r H). }
  destruct (N.eq_dec c 45) as [->|H45].
  { constructor; [reflexivity|]. exact (Hcase true r H). }
  apply (Hcase false).
  destruct c as [|q]; [exact H|].
  repeat (destruct q as [q|q|]; try exact H); exfalso; lia.
Qed.

Lemma ascii_letter_not_int_char c : ascii_letter c = true -> int_char py c = false.
Proof.
  unfold ascii_letter, int_char, int_space, int_digit, isspace. intros H.
  assert (Hc : 65 <= c <= 90 \/ 97 <= c <= 122).
  { apply orb_true_iff in H as [H|H]; apply andb_true_iff in H as (H1 & H2);
      apply N.leb_le in H1, H2; lia. }
  replace (c <? 127) with true by (symmetry; apply N.ltb_lt; lia).
  replace (c <=? 13) with false by (symmetry; apply N.leb_gt; lia).
  replace (c =? 32) with false by (symmetry; apply N.eqb_neq; lia).
  replace (c =? 43) with false by (symmetry; apply N.eqb_neq; lia).
  replace (c =? 45) with false by (symmetry; apply N.eqb_neq; lia).
  replace (c =? 95) with false by (symmetry; apply N.eqb_neq; lia).
  replace (c <=? 57) with false by (symmetry; apply N.leb_gt; lia).
  now rewrite !andb_false_r.
Qed.

Lemma ints_ok l zs :
  ints py l = inr zs -> Forall (fun s => Forall (fun c => int_char py c = true) s) l.
Proof.
  revert zs. induction l as [|s r IH]; intros zs; [constructor|]. cbn [ints].
  destruct (int_of_str py s) as [x|z] eqn:Hs; [discriminate|].
  destruct (ints py r) as [x|zs'] eqn:Hr; [discriminate|]. intros _.
  constructor; [now apply (int_of_str_chars s z) | now apply (IH zs')].
Qed.

(** X17.  [_parse_version] reads back a dotted sequence of integers: for a
    non-empty list of integers, each printed with at most 640 characters,
    the version string that joins their decimal forms with dots parses to
    the list itself. *)
Theorem parse_version_reads_back_dotted_integers (zs : list Z) :
  zs <> [] ->
  Forall (fun z => len (str_of_int z) <= 640) zs ->
  _parse_version py (join (lit ".") (map str_of_int zs)) = inr zs.
Proof.
  intros Hne Hall. unfold _parse_version.
  change (lit ".") with [46].
  rewrite split_join.
  - clear Hne. induction Hall as [|z r Hz _ IH]; [reflexivity|].
    cbn [map ints]. rewrite (int_of_str_str_of_int py z Hz), IH. reflexivity.
  - destruct zs; [now contradiction Hne | discriminate].
  - apply List.Forall_map. apply List.Forall_forall. intros z _. apply str_of_int_no_dot.
Qed.

(** X18.  [_parse_version] raises, and what it raises is a [ValueError],
    whenever the version string contains an ASCII letter, as the version
    of a pre-release does; it never raises anything else. *)
Theorem parse_version_rejects_letters (version_string : str) :
  (forall e, _parse_version py version_string = inl e ->
             exists m, e = ValueError m) /\
  forall c,
    In c version_string -> ascii_letter c = true ->
    exists m, _parse_version py version_string = inl (ValueError m).
Proof.
  split; [intros e; apply ints_error|].
  intros c Hin Hc. unfold _parse_version.
  destruct (ints py (split 46 version_string)) as [e|zs] eqn:Hp.
  - destruct (ints_error _ _ Hp) as (m & ->). now exists m.
  - exfalso. pose proof (ints_ok _ _ Hp) as Hok.
    destruct (split_In 46 version_string c Hin) as (p & Hp1 & Hp2).
    { intros ->. discriminate Hc. }
    rewrite List.Forall_forall in Hok. specialize (Hok p Hp1).
    rewrite List.Forall_forall in Hok. specialize (Hok c Hp2).
    rewrite (ascii_letter_not_int_char c Hc) in Hok. discriminate Hok.
Qed.

End ParseVersion.

(** ** Sequences of calls *)

Lemma act_bind_returned {A B} (m : act A) (k : A -> act B) b l :
  act_bind m k = (Returned b, l) ->
  exists a l1 l2, m = (Returned a, l1) /\ k a = (Returned b, l2) /\ l = l1 ++ l2.
Proof.
  destruct m as [[a|x|] l1]; cbn [act_bind]; try discriminate.
  destruct (k a) as [e l2] eqn:Hk. intros [= -> <-]. now exists a, l1, l2.
Qed.

Lemma act_bind_raised {A B} (m : act A) (k : A -> act B) x l :
  act_bind m k = (Raised x, l) ->
  m = (Raised x, l) \/
  exists a l1 l2, m = (Returned a, l1) /\ k a = (Raised x, l2) /\ l = l1 ++ l2.
Proof.
  destruct m as [[a|y|] l1]; cbn [act_bind]; try discriminate.
  - destruct (k a) as [e l2] eqn:Hk. intros [= -> <-]. right. now exists a, l1, l2.
  - intros [= -> ->]. now left.
Qed.

Lemma act_bind_events {A B} (P : npm_event -> Prop) (m : act A) (k : A -> act B) :
  Forall P m.2 -> (forall a, Forall P (k a).2) -> Forall P (act_bind m k).2.
Proof.
  intros Hm Hk. destruct m as [[a|x|] l1]; cbn [act_bind snd] in *; try exact Hm.
  specialize (Hk a). destruct (k a) as [e l2]. cbn [snd] in *.
  apply List.Forall_app. now split.
Qed.

Lemma tuple_lt_irrefl t : tuple_lt t t = false.
Proof.
  induction t as [|x r IH]; [reflexivity|]. cbn [tuple_lt].
  now rewrite Z.eqb_refl.
Qed.

Section Calls.
Variable json_loads : str -> option pyobj.
Variable py : interpreter.
Variable npm_exec_path : str.
Variable npm : list str -> list reading.

(** A run with [warn] and [log] off starts its process and prints
    nothing. *)
Lemma Npm_run_silent cmd :
  Npm_run npm cmd false false
  = (match (Npm_run_loop false false (npm (cmd ++ [lit "--no-update-notifier"]))).2 with
     | Some returnCode => Returned returnCode
     | None => Blocked
     end, [Popen (cmd ++ [lit "--no-update-notifier"])]).
Proof.
  unfold Npm_run.
  pose proof (Npm_run_loop_silent (npm (cmd ++ [lit "--no-update-notifier"]))) as H.
  destruct (Npm_run_loop false false _) as [printed code]. cbn [fst snd] in *.
  now subst.
Qed.

Lemma Npm_install_eq args :
  Npm_install npm_exec_path npm args
  = (match (Npm_run_loop false false
              (npm ([npm_exec_path; lit "--quiet"; lit "install"] ++ args
                      ++ [lit "--no-update-notifier"]))).2 with
     | Some _ => Returned tt
     | None => Blocked
     end,
     [Popen ([npm_exec_path; lit "--quiet"; lit "install"] ++ args
               ++ [lit "--no-update-notifier"])]).
Proof.
  unfold Npm_install. rewrite Npm_run_silent. rewrite <- app_assoc.
  destruct (Npm_run_loop false false _).2; reflexivity.
Qed.

Lemma redirect_list_modules package_name :
  redirect_stdout (Npm_list_modules npm_exec_path npm [package_name])
  = (match (Npm_run_loop true true
              (npm [npm_exec_path; lit "list"; package_name;
                    lit "--no-update-notifier"])).2 with
     | Some _ =>
         Returned (getvalue (map Printed
           (Npm_run_loop true true
              (npm [npm_exec_path; lit "list"; package_name;
                    lit "--no-update-notifier"])).1))
     | None => Blocked
     end,
     [Popen [npm_exec_path; lit "list"; package_name; lit "--no-update-notifier"]]).
Proof.
  pose proof (redirect_stdout_Npm_run npm [npm_exec_path; lit "list"; package_name]
                                      true true) as H.
  cbv zeta in H. cbn [app] in H. rewrite <- H. clear H.
  unfold Npm_list_modules, Npm_run, redirect_stdout. cbn [app].
  destruct (Npm_run_loop true true _) as [printed [c|]]; cbn [act_bind act_ret];
    rewrite ?app_nil_r; reflexivity.
Qed.

(** X19.  When the listing printed by [npm list <package>] contains
    [(empty)], [_npm_checker] announces the installation and installs the
    package by its bare name; it asks npm neither for the latest nor for
    the current version. *)
Theorem npm_checker_installs_a_package_that_is_not_listed
        (package_name : str) (code code' : Z) :
  let list_argv := [npm_exec_path; lit "list"; package_name;
                    lit "--no-update-notifier"] in
  let install_argv := [npm_exec_path; lit "--quiet"; lit "install"; package_name;
                       lit "--no-update-notifier"] in
  (Npm_run_loop true true (npm list_argv)).2 = Some code ->
  contains (lit "(empty)")
           (getvalue (map Printed (Npm_run_loop true true (npm list_argv)).1))
  = true ->
  (Npm_run_loop false false (npm install_argv)).2 = Some code' ->
  _npm_checker json_loads py npm_exec_path npm package_name
  = (Returned tt,
     [Popen list_argv; Printed (lit "installing " ++ package_name);
      Popen install_argv]).
Proof.
  cbv zeta. intros Hlist Hempty Hinstall. unfold _npm_checker.
  rewrite redirect_list_modules, Hlist. cbn [act_bind]. rewrite Hempty.
  rewrite Npm_install_eq. cbn [app]. rewrite Hinstall. reflexivity.
Qed.

(** X20.  When the package is listed and the current and the latest
    version parse to the same tuple, [_npm_checker] returns without
    installing anything: the only processes it starts are the listing and
    the two version queries, and it prints nothing. *)
Theorem npm_checker_keeps_an_up_to_date_package
        (package_name current latest : str) (t : list Z) (code : Z)
        (l1 l2 : list npm_event) :
  let list_argv := [npm_exec_path; lit "list"; package_name;
                    lit "--no-update-notifier"] in
  (Npm_run_loop true true (npm list_argv)).2 = Some code ->
  contains (lit "(empty)")
           (getvalue (map Printed (Npm_run_loop true true (npm list_argv)).1))
  = false ->
  Npm_package_latest_version npm_exec_path npm package_name = (Returned latest, l1) ->
  Npm_package_current_version json_loads npm_exec_path npm package_name
  = (Returned current, l2) ->
  _parse_version py current = inr t ->
  _parse_version py latest = inr t ->
  _npm_checker json_loads py npm_exec_path npm package_name
  = (Returned tt, [Popen list_argv] ++ l1 ++ l2).
Proof.
  cbv zeta. intros Hlist Hempty Hlatest Hcurrent Hc Hl. unfold _npm_checker.
  rewrite redirect_list_modules, Hlist. cbn [act_bind]. rewrite Hempty.
  rewrite Hlatest. cbn [act_bind]. rewrite Hcurrent. cbn [act_bind].
  rewrite Hc, Hl. cbn [act_lift act_ret act_bind].
  rewrite tuple_lt_irrefl. cbn [act_ret]. now rewrite !app_nil_r.
Qed.

(** X21.  When the package is listed and the tuple of the current version
    is below the tuple of the latest one (integers compared component by
    component, not the texts), [_npm_checker] announces the new version
    and installs [<package>@<latest>], after the listing and the two
    version queries. *)
Theorem npm_checker_installs_the_latest_over_an_older_version
        (package_name current latest : str) (tc tl : list Z) (code code' : Z)
        (l1 l2 : list npm_event) :
  let list_argv := [npm_exec_path; lit "list"; package_name;
                    lit "--no-update-notifier"] in
  let install_argv := [npm_exec_path; lit "--quiet"; lit "install";
                       package_name ++ lit "@" ++ latest;
                       lit "--no-update-notifier"] in
  (Npm_run_loop true true (npm list_argv)).2 = Some code ->
  contains (lit "(empty)")
           (getvalue (map Printed (Npm_run_loop true true (npm list_argv)).1))
  = false ->
  Npm_package_latest_version npm_exec_path npm package_name = (Returned latest, l1) ->
  Npm_package_current_version json_loads npm_exec_path npm package_name
  = (Returned current, l2) ->
  _parse_version py current = inr tc ->
  _parse_version py latest = inr tl ->
  tuple_lt tc tl = true ->
  (Npm_run_loop false false (npm install_argv)).2 = Some code' ->
  _npm_checker json_loads py npm_exec_path npm package_name
  = (Returned tt,
     [Popen list_argv] ++ l1 ++ l2
       ++ [Printed (lit "installing version " ++ latest ++ lit " of "
                        ++ package_name);
           Popen install_argv]).
Proof.
  cbv zeta. intros Hlist Hempty Hlatest Hcurrent Hc Hl Hlt Hinstall.
  unfold _npm_checker.
  rewrite redirect_list_modules, Hlist. cbn [act_bind]. rewrite Hempty.
  rewrite Hlatest. cbn [act_bind]. rewrite Hcurrent. cbn [act_bind].
  rewrite Hc, Hl. cbn [act_lift act_ret act_bind]. rewrite Hlt.
  pose proof (Npm_install_eq [package_name ++ lit "@" ++ latest])
    as Hi.
  change ([npm_exec_path; lit "--quiet"; lit "install"]
            ++ [package_name ++ lit "@" ++ latest] ++ [lit "--no-update-notifier"])
    with [npm_exec_path; lit "--quiet"; lit "install";
          package_name ++ lit "@" ++ latest; lit "--no-update-notifier"] in Hi.
  rewrite Hinstall in Hi. rewrite Hi.
  cbn [act_print act_bind app]. reflexivity.
Qed.

(** A letter in a version makes [_parse_version] raise a [ValueError]. *)
Lemma parse_version_letter version_string c :
  In c version_string -> ascii_letter c = true ->
  exists m, _parse_version py version_string = inl (ValueError m).
Proof.
  intros Hin Hc. unfold _parse_version.
  destruct (ints py (split 46 version_string)) as [e|zs] eqn:Hp.
  - destruct (ints_error py _ _ Hp) as (m & ->). now exists m.
  - exfalso. pose proof (ints_ok py _ _ Hp) as Hok.
    destruct (split_In 46 version_string c Hin) as (p & Hp1 & Hp2).
    { intros ->. discriminate Hc. }
    rewrite List.Forall_forall in Hok. specialize (Hok p Hp1).
    rewrite List.Forall_forall in Hok. specialize (Hok c Hp2).
    rewrite (ascii_letter_not_int_char py c Hc) in Hok. discriminate Hok.
Qed.

(** X22.  When the package is listed and the latest version reported by
    npm contains an ASCII letter (a pre-release such as [4.3.0-beta]),
    [_npm_checker] raises a [ValueError] after the two version queries and
    installs nothing. *)
Theorem npm_checker_raises_on_a_prerelease
        (package_name current latest : str) (c : N) (code : Z)
        (l1 l2 : list npm_event) :
  let list_argv := [npm_exec_path; lit "list"; package_name;
                    lit "--no-update-notifier"] in
  (Npm_run_loop true true (npm list_argv)).2 = Some code ->
  contains (lit "(empty)")
           (getvalue (map Printed (Npm_run_loop true true (npm list_argv)).1))
  = false ->
  Npm_package_latest_version npm_exec_path npm package_name = (Returned latest, l1) ->
  Npm_package_current_version json_loads npm_exec_path npm package_name
  = (Returned current, l2) ->
  In c latest -> ascii_letter c = true ->
  exists m,
    _npm_checker json_loads py npm_exec_path npm package_name
    = (Raised (Builtin (ValueError m)), [Popen list_argv] ++ l1 ++ l2).
Proof.
  cbv zeta. intros Hlist Hempty Hlatest Hcurrent Hin Hc. unfold _npm_checker.
  rewrite redirect_list_modules, Hlist. cbn [act_bind]. rewrite Hempty.
  rewrite Hlatest. cbn [act_bind]. rewrite Hcurrent. cbn [act_bind].
  destruct (_parse_version py current) as [e|t] eqn:Hcur.
  - destruct (ints_error py _ _ Hcur) as (m & ->). exists m.
    cbn [act_lift act_raise act_bind]. now rewrite !app_nil_r.
  - destruct (parse_version_letter latest c Hin Hc) as (m & ->). exists m.
    cbn [act_lift act_raise act_ret act_bind]. now rewrite !app_nil_r.
Qed.

(** What [Npm.run] prints, with [warn] and [log] on, of a process that
    writes nothing on its standard output. *)
Lemma Npm_run_loop_stderr_only before final rest code :
  Forall (fun r => stdout_line r = [] /\ poll_result r = None) before ->
  stdout_line final = [] ->
  poll_result final = Some code ->
  Npm_run_loop true true (before ++ final :: rest)
  = (stderr_texts before, Some code).
Proof.
  intros Hb Hout Hpoll.
  rewrite (Npm_run_loop_stream true true before final rest code);
    [| | exact Hout | exact Hpoll].
  - f_equal. induction Hb as [|r before (Hr & _) _ IH]; [reflexivity|].
    cbn [flat_map stderr_texts]. rewrite Hr, IH.
    rewrite bool_decide_eq_true_2 by reflexivity. cbn [negb andb app].
    now destruct (bool_decide (stderr_line r = [])).
  - eapply List.Forall_impl; [|exact Hb]. intros r (_ & Hr). now right.
Qed.

(** X23.  [Npm.run] leaves its loop at the first end of the standard
    output at which the process has exited, without reading the standard
    error in that iteration; in every iteration before, it reads a line of
    the standard error, which [package_latest_version] collects with what
    is printed.  Its callers ignore the return code.  So when [npm view]
    fails, writing nothing to its standard output, the latest version is
    made of the lines of the standard error that were read before the exit
    was seen (the empty string when it is seen at once), and
    [_npm_checker] raises a [ValueError] whenever that text is empty or
    holds an ASCII letter, instead of reporting the failure of npm. *)
Theorem npm_checker_raises_when_npm_view_fails
        (package_name current : str) (code code' : Z)
        (before : list reading) (final : reading) (rest : list reading)
        (l2 : list npm_event) :
  let list_argv := [npm_exec_path; lit "list"; package_name;
                    lit "--no-update-notifier"] in
  let view_argv := [npm_exec_path; lit "view"; package_name; lit "version";
                    lit "--no-update-notifier"] in
  let latest := strip (getvalue (map Printed (stderr_texts before))) in
  (Npm_run_loop true true (npm list_argv)).2 = Some code ->
  contains (lit "(empty)")
           (getvalue (map Printed (Npm_run_loop true true (npm list_argv)).1))
  = false ->
  Forall (fun r => stdout_line r = [] /\ poll_result r = None) before ->
  stdout_line final = [] ->
  poll_result final = Some code' ->
  npm view_argv = before ++ final :: rest ->
  Npm_package_current_version json_loads npm_exec_path npm package_name
  = (Returned current, l2) ->
  Npm_package_latest_version npm_exec_path npm package_name
  = (Returned latest, [Popen view_argv]) /\
  (before = [] -> latest = []) /\
  (latest = [] \/ (exists c, In c latest /\ ascii_letter c = true) ->
   exists m,
     _npm_checker json_loads py npm_exec_path npm package_name
     = (Raised (Builtin (ValueError m)), [Popen list_argv; Popen view_argv] ++ l2)).
Proof.
  cbv zeta. intros Hlist Hempty Hbefore Hout Hpoll Hview Hcurrent.
  assert (Hlatest : Npm_package_latest_version npm_exec_path npm package_name
                    = (Returned (strip (getvalue (map Printed (stderr_texts before)))),
                       [Popen [npm_exec_path; lit "view"; package_name;
                               lit "version"; lit "--no-update-notifier"]])).
  { unfold Npm_package_latest_version. rewrite redirect_stdout_Npm_run.
    cbv zeta. cbn [app]. rewrite Hview.
    rewrite (Npm_run_loop_stderr_only before final rest code' Hbefore Hout Hpoll).
    reflexivity. }
  split; [exact Hlatest|]. split; [intros ->; reflexivity|].
  intros Hbad. unfold _npm_checker.
  rewrite redirect_list_modules, Hlist. cbn [act_bind]. rewrite Hempty.
  rewrite Hlatest. cbn [act_bind]. rewrite Hcurrent. cbn [act_bind].
  destruct (_parse_version py current) as [x|t] eqn:Hcur.
  - destruct (ints_error py _ _ Hcur) as (m & ->). exists m.
    cbn [act_lift act_raise act_bind app]. now rewrite !app_nil_r.
  - assert (Hraise : exists m,
               _parse_version py (strip (getvalue (map Printed (stderr_texts before))))
               = inl (ValueError m)).
    { destruct Hbad as [->|(c & Hin & Hc)].
      - eexists. reflexivity.
      - now apply (parse_version_letter _ c). }
    destruct Hraise as (m & ->). exists m.
    cbn [act_lift act_raise act_ret act_bind app]. now rewrite !app_nil_r.
Qed.

End Calls.

(** ** [Npm.__init__] *)

Section Init.
Variable json_loads : str -> option pyobj.
Variable py : interpreter.
Variable npm_exec_path : str.
Variable npm : list str -> list reading.

Lemma Npm_nodejs_version_events :
  (Npm_nodejs_version json_loads npm_exec_path npm).2
  = [Popen [npm_exec_path; lit "version"; lit "--json=true";
            lit "--no-update-notifier"]].
Proof.
  unfold Npm_nodejs_version. rewrite redirect_stdout_Npm_run. cbv zeta. cbn [app].
  destruct (Npm_run_loop true true _).2; cbn [act_bind snd]; [|reflexivity].
  unfold act_json_loads. destruct (json_loads _) as [d|]; cbn; [|reflexivity].
  destruct (getitem d (lit "node")) as [x|v]; cbn; [reflexivity|].
  destruct v; reflexivity.
Qed.

(** What a returning construction has done. *)
Lemma Npm_init_returned pf o l :
  Npm_init json_loads py npm_exec_path npm pf = (Returned o, l) ->
  let major := nodejs_major_version o in
  let needs_shm :=
    has_mp_shared pf && negb (is_windows pf) && negb (is_darwin pf)
    && negb (exists_shmmap pf) && (major <? 16)%Z in
  let install pkg :=
    Popen [npm_exec_path; lit "--quiet"; lit "install"; pkg;
           lit "--no-update-notifier"] in
  o = NpmObject major false false false /\
  l = [Popen [npm_exec_path; lit "version"; lit "--json=true";
              lit "--no-update-notifier"]]
        ++ (if negb (exists_mmap pf) || negb (exists_xxhash pf) || needs_shm then
              [Popen [npm_exec_path; lit "init"; lit "--yes";
                      lit "--no-update-notifier"]]
                ++ (if negb (exists_mmap pf) then
                      [install (if (major <? 16)%Z
                                then lit "@raygun-nickj/mmap-io@1.2.2"
                                else lit "@raygun-nickj/mmap-io@1.3.0")]
                    else [])
                ++ (if negb (exists_xxhash pf)
                    then [install (lit "xxhash-wasm@0.4.2")] else [])
                ++ (if needs_shm
                    then [install (lit "git+https://github.com/chris-c-mcintyre/shmmap.js")]
                    else [])
            else []).
Proof.
  unfold Npm_init. intros H.
  apply act_bind_returned in H as (version & l0 & l' & Hv & H & ->).
  pose proof Npm_nodejs_version_events as Hev. rewrite Hv in Hev. cbn [snd] in Hev.
  subst l0.
  apply act_bind_returned in H as (major & l0 & l'' & Hm & H & ->).
  assert (l0 = []) as ->.
  { destruct (int_of_str py _); unfold act_lift, act_raise, act_ret in Hm;
      [discriminate Hm | now injection Hm]. }
  clear Hm Hv. cbn [app]. cbv zeta.
  destruct (negb (exists_mmap pf) || negb (exists_xxhash pf)
            || has_mp_shared pf && negb (is_windows pf) && negb (is_darwin pf)
               && negb (exists_shmmap pf) && (major <? 16)%Z) eqn:Hneeds.
  - apply act_bind_returned in H as (c0 & l0 & l1 & H0 & H & ->).
    rewrite Npm_run_silent in H0. cbn [app] in H0.
    assert (l0 = [Popen [npm_exec_path; lit "init"; lit "--yes";
                         lit "--no-update-notifier"]]) as -> by congruence.
    clear H0.
    apply act_bind_returned in H as ([] & l0 & l2 & H0 & H & ->).
    apply act_bind_returned in H as ([] & l3 & l4 & H3 & H & ->).
    apply act_bind_returned in H as ([] & l5 & l6 & H5 & H & ->).
    injection H as <- <-. cbn [nodejs_major_version].
    rewrite Hneeds. split; [reflexivity|].
    assert (Hinst : forall pkg l,
               Npm_install npm_exec_path npm [pkg] = (Returned tt, l) ->
               l = [Popen [npm_exec_path; lit "--quiet"; lit "install"; pkg;
                           lit "--no-update-notifier"]]).
    { intros pkg l0' Hi. rewrite Npm_install_eq in Hi. cbn [app] in Hi. congruence. }
    f_equal. f_equal. rewrite app_nil_r.
    f_equal; [|f_equal].
    + destruct (negb (exists_mmap pf)).
      * destruct (major <? 16)%Z; now apply Hinst.
      * now injection H0.
    + destruct (negb (exists_xxhash pf)); [now apply Hinst | now injection H3].
    + destruct (_ && _); [now apply Hinst | now injection H5].
  - injection H as <- <-. cbn [nodejs_major_version]. rewrite Hneeds.
    apply orb_false_iff in Hneeds as (Hneeds & Hshm).
    apply orb_false_iff in Hneeds as (-> & ->).
    split; [|reflexivity]. f_equal. exact Hshm.
Qed.

(** X24.  After [Npm()] has returned, none of the three modules is marked
    as needed any more; and whether it returns, raises or blocks, the
    constructor prints nothing and starts only npm itself, each time with
    [--no-update-notifier] as the last argument. *)
Theorem Npm_init_leaves_nothing_needed (pf : platform) :
  let r := Npm_init json_loads py npm_exec_path npm pf in
  Forall (fun ev => exists cmd,
              ev = Popen ([npm_exec_path] ++ cmd ++ [lit "--no-update-notifier"]))
         r.2 /\
  forall o,
    r.1 = Returned o ->
    js_needs_mmap o = false /\ js_needs_xxhash o = false /\ js_needs_shm o = false.
Proof.
  cbv zeta. split.
  - set (P := fun ev => exists cmd,
                  ev = Popen ([npm_exec_path] ++ cmd ++ [lit "--no-update-notifier"])).
    assert (Hrun : forall cmd, Forall P (Npm_run npm (npm_exec_path :: cmd) false false).2).
    { intros cmd. rewrite Npm_run_silent. cbn [snd]. constructor; [|constructor].
      now exists cmd. }
    assert (Hinst : forall args, Forall P (Npm_install npm_exec_path npm args).2).
    { intros args. rewrite Npm_install_eq. cbn [snd]. constructor; [|constructor].
      exists ([lit "--quiet"; lit "install"] ++ args). reflexivity. }
    assert (Hret : forall (A : Type) (a : A), Forall P (act_ret a).2)
      by (intros; constructor).
    unfold Npm_init. apply act_bind_events.
    { rewrite Npm_nodejs_version_events. constructor; [|constructor].
      now exists [lit "version"; lit "--json=true"]. }
    intros version. apply act_bind_events.
    { destruct (int_of_str py _); constructor. }
    intros major. cbv zeta.
    destruct (_ || _); [|apply Hret].
    apply act_bind_events; [apply Hrun|]. intros _.
    apply act_bind_events.
    { destruct (negb _); [destruct (_ <? _)%Z; apply Hinst | apply Hret]. }
    intros _. apply act_bind_events.
    { destruct (negb _); [apply Hinst | apply Hret]. }
    intros _. apply act_bind_events; [|intros _; apply Hret].
    destruct (_ && _); [apply Hinst | apply Hret].
  - intros o Ho.
    destruct (Npm_init json_loads py npm_exec_path npm pf) as [e l] eqn:Hi.
    cbn [fst] in Ho. subst e.
    destruct (Npm_init_returned pf o l Hi) as (-> & _). now repeat split.
Qed.

(** X25.  What a returning [Npm()] installs is what is missing: xxhash-wasm
    when its directory is absent; mmap-io when its directory is absent, in
    version 1.2.2 for a Node.js below 16 and 1.3.0 otherwise; shmmap only
    below Node.js 16, off Windows and macOS, with shared memory available
    and its directory absent; and [npm init] runs exactly when one of them
    is installed. *)
Theorem Npm_init_installs_what_is_missing
        (pf : platform) (o : Npm) (l : list npm_event) :
  Npm_init json_loads py npm_exec_path npm pf = (Returned o, l) ->
  let major := nodejs_major_version o in
  let installs pkg :=
    In (Popen [npm_exec_path; lit "--quiet"; lit "install"; pkg;
               lit "--no-update-notifier"]) l in
  let shm :=
    has_mp_shared pf = true /\ is_windows pf = false /\ is_darwin pf = false
    /\ exists_shmmap pf = false /\ (major < 16)%Z in
  (installs (lit "xxhash-wasm@0.4.2") <-> exists_xxhash pf = false) /\
  (installs (lit "@raygun-nickj/mmap-io@1.2.2")
   <-> exists_mmap pf = false /\ (major < 16)%Z) /\
  (installs (lit "@raygun-nickj/mmap-io@1.3.0")
   <-> exists_mmap pf = false /\ (16 <= major)%Z) /\
  (installs (lit "git+https://github.com/chris-c-mcintyre/shmmap.js") <-> shm) /\
  (In (Popen [npm_exec_path; lit "init"; lit "--yes"; lit "--no-update-notifier"]) l
   <-> exists_mmap pf = false \/ exists_xxhash pf = false \/ shm).
Proof.
  intros Hi. destruct (Npm_init_returned pf o l Hi) as (_ & ->). clear Hi.
  cbv zeta. set (major := nodejs_major_version o).
  assert (Hlt : (major <? 16)%Z = true <-> (major < 16)%Z) by apply Z.ltb_lt.
  assert (Hge : (major <? 16)%Z = false <-> (16 <= major)%Z) by apply Z.ltb_ge.
  assert (Hshm : has_mp_shared pf && negb (is_windows pf) && negb (is_darwin pf)
                 && negb (exists_shmmap pf) && (major <? 16)%Z = true
                 <-> has_mp_shared pf = true /\ is_windows pf = false
                     /\ is_darwin pf = false /\ exists_shmmap pf = false
                     /\ (major < 16)%Z).
  { rewrite <- Hlt.
    destruct (has_mp_shared pf), (is_windows pf), (is_darwin pf),
      (exists_shmmap pf), (major <? 16)%Z; cbn; intuition congruence. }
  rewrite <- Hshm, <- Hlt, <- Hge. clear Hshm Hlt Hge.
  assert (Hd1 : lit "init" <> lit "--quiet") by (vm_compute; discriminate).
  assert (Hd2 : lit "version" <> lit "--quiet") by (vm_compute; discriminate).
  assert (Hd3 : lit "version" <> lit "init") by (vm_compute; discriminate).
  assert (Hp1 : lit "xxhash-wasm@0.4.2" <> lit "@raygun-nickj/mmap-io@1.2.2")
    by (vm_compute; discriminate).
  assert (Hp2 : lit "xxhash-wasm@0.4.2" <> lit "@raygun-nickj/mmap-io@1.3.0")
    by (vm_compute; discriminate).
  assert (Hp3 : lit "xxhash-wasm@0.4.2"
                <> lit "git+https://github.com/chris-c-mcintyre/shmmap.js")
    by (vm_compute; discriminate).
  assert (Hp4 : lit "@raygun-nickj/mmap-io@1.2.2" <> lit "@raygun-nickj/mmap-io@1.3.0")
    by (vm_compute; discriminate).
  assert (Hp5 : lit "@raygun-nickj/mmap-io@1.2.2"
                <> lit "git+https://github.com/chris-c-mcintyre/shmmap.js")
    by (vm_compute; discriminate).
  assert (Hp6 : lit "@raygun-nickj/mmap-io@1.3.0"
                <> lit "git+https://github.com/chris-c-mcintyre/shmmap.js")
    by (vm_compute; discriminate).
  generalize dependent (lit "version"). generalize dependent (lit "init").
  generalize dependent (lit "--quiet"). generalize dependent (lit "install").
  generalize dependent (lit "--yes"). generalize dependent (lit "--json=true").
  generalize dependent (lit "--no-update-notifier").
  generalize dependent (lit "xxhash-wasm@0.4.2").
  generalize dependent (lit "@raygun-nickj/mmap-io@1.2.2").
  generalize dependent (lit "@raygun-nickj/mmap-io@1.3.0").
  generalize dependent (lit "git+https://github.com/chris-c-mcintyre/shmmap.js").
  intros shmmap mmap3 mmap2 xxhash flag json yes install quiet init version.
  intros Hd1 Hd2 Hd3 Hp1 Hp2 Hp3 Hp4 Hp5 Hp6.
  destruct (has_mp_shared pf && negb (is_windows pf) && negb (is_darwin pf)
            && negb (exists_shmmap pf) && (major <? 16)%Z),
    (major <? 16)%Z, (exists_mmap pf), (exists_xxhash pf);
    cbn [negb orb andb app In];
    repeat split; intros;
    repeat match goal with
           | H : _ \/ _ |- _ => destruct H
           | H : _ /\ _ |- _ => destruct H
           | H : False |- _ => destruct H
           end;
    try congruence;
    try solve [repeat (first [now left | right]); reflexivity].
Qed.

(** X26.  [nodejs_version] has no fallback: when the JSON printed by
    [npm version] is an object without [node], [Npm()] raises the
    [KeyError].  And whenever the constructor raises while reading the
    version (JSON decoding, the lookup, [strip], [int]), the version query
    is the only process it has started: nothing has been installed. *)
Theorem Npm_init_raises_before_installing (pf : platform) :
  let version_argv := [npm_exec_path; lit "version"; lit "--json=true";
                       lit "--no-update-notifier"] in
  let r := Npm_init json_loads py npm_exec_path npm pf in
  (forall x, r.1 = Raised x -> r.2 = [Popen version_argv]) /\
  forall code items,
    (Npm_run_loop true true (npm version_argv)).2 = Some code ->
    json_loads (getvalue (map Printed (Npm_run_loop true true (npm version_argv)).1))
    = Some (PyDict items) ->
    dict_get (lit "node") items = None ->
    r = (Raised (Builtin (KeyError (lit "node"))), [Popen version_argv]).
Proof.
  cbv zeta. split.
  - intros x. destruct (Npm_init json_loads py npm_exec_path npm pf) as [e l] eqn:Hi.
    cbn [fst snd]. intros ->. unfold Npm_init in Hi.
    pose proof Npm_nodejs_version_events as Hev.
    assert (Hinst : forall args y l0,
               Npm_install npm_exec_path npm args <> (Raised y, l0)).
    { intros args y l0. rewrite Npm_install_eq.
      destruct (Npm_run_loop false false _).2; discriminate. }
    apply act_bind_raised in Hi as [Hi|(version & l1 & l2 & Hv & Hi & ->)].
    { rewrite Hi in Hev. exact Hev. }
    rewrite Hv in Hev. cbn [snd] in Hev. subst l1.
    apply act_bind_raised in Hi as [Hi|(major & l1 & l3 & Hm & Hi & ->)].
    { destruct (int_of_str py _); unfold act_lift, act_raise, act_ret in Hi;
        [injection Hi as _ <-; reflexivity | discriminate Hi]. }
    exfalso. cbv zeta in Hi.
    destruct (negb (exists_mmap pf) || negb (exists_xxhash pf) || _);
      [|discriminate Hi].
    apply act_bind_raised in Hi as [Hi|(c0 & l4 & l5 & _ & Hi & _)].
    { rewrite Npm_run_silent in Hi.
      destruct (Npm_run_loop false false _).2; discriminate Hi. }
    apply act_bind_raised in Hi as [Hi|([] & l6 & l7 & _ & Hi & _)].
    { destruct (negb (exists_mmap pf)); [|discriminate Hi].
      destruct (_ <? _)%Z; now apply Hinst in Hi. }
    apply act_bind_raised in Hi as [Hi|([] & l8 & l9 & _ & Hi & _)].
    { destruct (negb (exists_xxhash pf)); [now apply Hinst in Hi | discriminate Hi]. }
    apply act_bind_raised in Hi as [Hi|([] & l10 & l11 & _ & Hi & _)].
    { destruct (_ && _); [now apply Hinst in Hi | discriminate Hi]. }
    discriminate Hi.
  - intros code items Hloop Hjson Hnode. unfold Npm_init, Npm_nodejs_version.
    rewrite redirect_stdout_Npm_run. cbv zeta. cbn [app]. rewrite Hloop.
    cbn [act_bind]. unfold act_json_loads. rewrite Hjson.
    cbn [act_lift act_ret act_bind getitem]. rewrite Hnode. reflexivity.
Qed.

End Init.

(** ** The scenarios *)

Lemma package_latest_version_is_the_stripped_line_witness :
  Npm_package_latest_version npm_path npm_view_clean dcp_client
  = (Returned (strip (lit "4.2.1" ++ [10])),
     [Popen [npm_path; lit "view"; dcp_client; lit "version";
             lit "--no-update-notifier"]]).
Proof.
  apply (package_latest_version_is_the_stripped_line
           npm_path npm_view_clean dcp_client (lit "4.2.1" ++ [10]) None 0%Z [] []).
  - vm_compute. discriminate.
  - reflexivity.
Defined.

Lemma package_latest_version_includes_the_warning_witness :
  Npm_package_latest_version npm_path npm_view_warning dcp_client
  = (Returned (strip (lit "4.2.1" ++ [10]) ++ [10]
                 ++ strip (lit "npm WARN old lockfile" ++ [10])),
     [Popen [npm_path; lit "view"; dcp_client; lit "version";
             lit "--no-update-notifier"]]).
Proof.
  apply (package_latest_version_includes_the_warning
           npm_path npm_view_warning dcp_client (lit "4.2.1" ++ [10])
           (lit "npm WARN old lockfile" ++ [10]) None 0%Z [] []).
  - vm_compute. discriminate.
  - vm_compute. discriminate.
  - reflexivity.
Defined.

Lemma package_current_version_defaults_to_0_0_0_witness :
  (Npm_package_current_version JSON.loads npm_path npm_empty_object dcp_client).1
  = Returned (lit "0.0.0").
Proof.
  apply (proj2 (proj2 (package_current_version_defaults_to_0_0_0
                         JSON.loads npm_path npm_empty_object dcp_client)) 0%Z []).
  - vm_compute. reflexivity.
  - vm_compute. reflexivity.
  - left. vm_compute. reflexivity.
Defined.

Lemma parse_version_reads_back_dotted_integers_witness :
  _parse_version py_default (join (lit ".") (map str_of_int [4; 2; 1]%Z))
  = inr [4; 2; 1]%Z.
Proof.
  apply (parse_version_reads_back_dotted_integers py_default [4; 2; 1]%Z).
  - discriminate.
  - repeat constructor; vm_compute; discriminate.
Defined.

Lemma parse_version_rejects_letters_witness :
  exists m, _parse_version py_default (lit "4.3.0-beta") = inl (ValueError m).
Proof.
  apply (proj2 (parse_version_rejects_letters py_default (lit "4.3.0-beta")) 98).
  - vm_compute. tauto.
  - reflexivity.
Defined.

Lemma npm_checker_installs_a_package_that_is_not_listed_witness :
  _npm_checker JSON.loads py_default npm_path npm_not_listed dcp_client
  = (Returned tt,
     [Popen [npm_path; lit "list"; dcp_client; lit "--no-update-notifier"];
      Printed (lit "installing " ++ dcp_client);
      Popen [npm_path; lit "--quiet"; lit "install"; dcp_client;
             lit "--no-update-notifier"]]).
Proof.
  apply (npm_checker_installs_a_package_that_is_not_listed
           JSON.loads py_default npm_path npm_not_listed dcp_client 0%Z 0%Z).
  - vm_compute. reflexivity.
  - vm_compute. reflexivity.
  - vm_compute. reflexivity.
Defined.

Lemma npm_checker_keeps_an_up_to_date_package_witness :
  _npm_checker JSON.loads py_default npm_path (npm_listed (lit "4.2.1")) dcp_client
  = (Returned tt,
     [Popen [npm_path; lit "list"; dcp_client; lit "--no-update-notifier"]]
       ++ [Popen [npm_path; lit "view"; dcp_client; lit "version";
                  lit "--no-update-notifier"]]
       ++ [Popen [npm_path; lit "ls"; dcp_client; lit "--json=true";
                  lit "--no-update-notifier"]]).
Proof.
  apply (npm_checker_keeps_an_up_to_date_package
           JSON.loads py_default npm_path (npm_listed (lit "4.2.1")) dcp_client
           (lit "4.2.1") (lit "4.2.1") [4; 2; 1]%Z 0%Z).
  - vm_compute. reflexivity.
  - vm_compute. reflexivity.
  - vm_compute. reflexivity.
  - vm_compute. reflexivity.
  - vm_compute. reflexivity.
  - vm_compute. reflexivity.
Defined.

Lemma npm_checker_raises_on_a_prerelease_witness :
  exists m,
    _npm_checker JSON.loads py_default npm_path (npm_listed (lit "4.3.0-beta"))
                 dcp_client
    = (Raised (Builtin (ValueError m)),
       [Popen [npm_path; lit "list"; dcp_client; lit "--no-update-notifier"]]
         ++ [Popen [npm_path; lit "view"; dcp_client; lit "version";
                    lit "--no-update-notifier"]]
         ++ [Popen [npm_path; lit "ls"; dcp_client; lit "--json=true";
                    lit "--no-update-notifier"]]).
Proof.
  apply (npm_checker_raises_on_a_prerelease
           JSON.loads py_default npm_path (npm_listed (lit "4.3.0-beta")) dcp_client
           (lit "4.2.1") (lit "4.3.0-beta") 98 0%Z).
  - vm_compute. reflexivity.
  - vm_compute. reflexivity.
  - vm_compute. reflexivity.
  - vm_compute. reflexivity.
  - vm_compute. tauto.
  - reflexivity.
Defined.

Lemma Npm_init_leaves_nothing_needed_witness :
  exists o,
    (Npm_init JSON.loads py_default npm_path npm_node14 bare_linux).1 = Returned o
    /\ js_needs_mmap o = false /\ js_needs_xxhash o = false
    /\ js_needs_shm o = false.
Proof.
  eexists. split; [vm_compute; reflexivity|].
  apply (proj2 (Npm_init_leaves_nothing_needed
                  JSON.loads py_default npm_path npm_node14 bare_linux)).
  vm_compute. reflexivity.
Defined.

Lemma Npm_init_installs_what_is_missing_witness :
  exists o l,
    Npm_init JSON.loads py_default npm_path npm_node14 bare_linux = (Returned o, l)
    /\ (In (Popen [npm_path; lit "--quiet"; lit "install";
                   lit "@raygun-nickj/mmap-io@1.2.2"; lit "--no-update-notifier"]) l
        <-> exists_mmap bare_linux = false /\ (nodejs_major_version o < 16)%Z).
Proof.
  eexists _, _. split; [vm_compute; reflexivity|].
  eapply (Npm_init_installs_what_is_missing
            JSON.loads py_default npm_path npm_node14 bare_linux).
  vm_compute. reflexivity.
Defined.

Lemma npm_checker_raises_when_npm_view_fails_witness :
  (Npm_package_latest_version npm_path npm_view_fails dcp_client
   = (Returned [], [Popen [npm_path; lit "view"; dcp_client; lit "version";
                           lit "--no-update-notifier"]]) /\
   exists m,
     _npm_checker JSON.loads py_default npm_path npm_view_fails dcp_client
     = (Raised (Builtin (ValueError m)),
        [Popen [npm_path; lit "list"; dcp_client; lit "--no-update-notifier"];
         Popen [npm_path; lit "view"; dcp_client; lit "version";
                lit "--no-update-notifier"]]
          ++ [Popen [npm_path; lit "ls"; dcp_client; lit "--json=true";
                     lit "--no-update-notifier"]])) /\
  (Npm_package_latest_version npm_path npm_view_fails_late dcp_client
   = (Returned (lit "npm ERR! code E404"),
      [Popen [npm_path; lit "view"; dcp_client; lit "version";
              lit "--no-update-notifier"]]) /\
   exists m,
     _npm_checker JSON.loads py_default npm_path npm_view_fails_late dcp_client
     = (Raised (Builtin (ValueError m)),
        [Popen [npm_path; lit "list"; dcp_client; lit "--no-update-notifier"];
         Popen [npm_path; lit "view"; dcp_client; lit "version";
                lit "--no-update-notifier"]]
          ++ [Popen [npm_path; lit "ls"; dcp_client; lit "--json=true";
                     lit "--no-update-notifier"]])).
Proof.
  split.
  - destruct (npm_checker_raises_when_npm_view_fails
                JSON.loads py_default npm_path npm_view_fails dcp_client
                (lit "4.2.1") 0%Z 1%Z []
                (Reading [] (Some 1%Z) (lit "npm ERR! code E404" ++ [10])) []
                [Popen [npm_path; lit "ls"; dcp_client; lit "--json=true";
                        lit "--no-update-notifier"]])
      as (H1 & _ & H2).
    + vm_compute. reflexivity.
    + vm_compute. reflexivity.
    + constructor.
    + reflexivity.
    + reflexivity.
    + vm_compute. reflexivity.
    + vm_compute. reflexivity.
    + split; [exact H1|]. apply H2. left. vm_compute. reflexivity.
  - destruct (npm_checker_raises_when_npm_view_fails
                JSON.loads py_default npm_path npm_view_fails_late dcp_client
                (lit "4.2.1") 0%Z 1%Z
                [Reading [] None (lit "npm ERR! code E404" ++ [10])]
                (Reading [] (Some 1%Z) []) []
                [Popen [npm_path; lit "ls"; dcp_client; lit "--json=true";
                        lit "--no-update-notifier"]])
      as (H1 & _ & H2).
    + vm_compute. reflexivity.
    + vm_compute. reflexivity.
    + repeat constructor.
    + reflexivity.
    + reflexivity.
    + vm_compute. reflexivity.
    + vm_compute. reflexivity.
    + split; [exact H1|]. apply H2. right. exists 110. split; [|reflexivity].
      vm_compute. tauto.
Defined.

(** ** [Job.__dcp_run]: the output of the deployment *)

Section JobOutput.
Variable json_loads : str -> option pyobj.

(** X27.  [Job.__dcp_run] subscripts what [node.run] returns without
    testing it: when the dispatch of the deployment script fails (the
    frame cannot be built, or [stdin.write] or [stdin.flush] raises an
    [OSError]), [run] returns [None] and the job ends in a [TypeError].  When a result set
    is obtained, it is the [jobOutput] pulled after the run or, if none
    was pulled, the one the parameters already held. *)
Theorem dcp_run_fails_with_TypeError_when_the_dispatch_fails
        (python_deploy : str) (run_parameters : loc) (e : env) (w : world) :
  let r := dcp_run_job_output json_loads python_deploy run_parameters e w in
  ((exists err, build_frame python_deploy = inl err) \/
   (exists msg, pipe e = WriteRaises msg \/ pipe e = FlushRaises msg) ->
   exists m, out r = Exc (TypeError m)) /\
  forall result_set,
    out r = Val result_set ->
    match pulled e !! lit "jobOutput" with
    | Some v => result_set = v
    | None => dict_at w run_parameters !! lit "jobOutput" = Some result_set
    end.
Proof.
  cbv zeta. unfold dcp_run_job_output, bind, get.
  pose proof (run_returns json_loads python_deploy (Some run_parameters) None e w)
    as Hret.
  pose proof (run_write_failed json_loads python_deploy (Some run_parameters)
                None e w
                (evs (write (pipe e) python_deploy (with_running true w))))
    as Hw.
  destruct (run json_loads python_deploy (Some run_parameters) None e w)
    as [o w' l].
  cbn [out post] in Hret.
  split.
  - intros Hfail.
    assert (Ho : o = Val None).
    { destruct (write_cases (pipe e) python_deploy (with_running true w))
        as [(frame & Hf & Hp & _)|[(_ & Hout & Hpost)|(frame & Hf & Hp & _)]].
      - destruct Hfail as [(err & He)|(msg & [Hm|Hm])]; congruence.
      - destruct (write (pipe e) python_deploy (with_running true w))
          as [ow pw lw]. cbn [out post evs] in *. subst ow pw.
        specialize (Hw eq_refl). congruence.
      - destruct Hfail as [(err & He)|(msg & [Hm|Hm])]; congruence. }
    subst o. eexists. reflexivity.
  - intros result_set. clear Hw.
    destruct o as [[vars|]|x| |]; cbn [out]; try discriminate.
    destruct (Hret vars eq_refl) as (Hl & Hheap & _).
    cbn [default from_option id] in Hl. subst vars.
    unfold dict_at at 1. rewrite Hheap, lookup_insert_eq.
    cbn [default from_option id]. rewrite merge_vars_lookup.
    destruct (pulled e !! lit "jobOutput") as [v|].
    + cbn [ret out]. congruence.
    + destruct (dict_at w run_parameters !! lit "jobOutput") as [v|];
        cbn [ret raise out]; [congruence | discriminate].
Qed.

End JobOutput.

Lemma dcp_run_fails_with_TypeError_when_the_dispatch_fails_witness :
  exists m,
    out (dcp_run_job_output JSON.loads script0 caller_vars env_broken_pipe w_caller)
    = Exc (TypeError m).
Proof.
  apply (proj1 (dcp_run_fails_with_TypeError_when_the_dispatch_fails
                  JSON.loads script0 caller_vars env_broken_pipe w_caller)).
  right. eexists. left. reflexivity.
Defined.

Lemma npm_checker_installs_the_latest_over_an_older_version_witness :
  _npm_checker JSON.loads py_default npm_path (npm_listed (lit "4.10.0")) dcp_client
  = (Returned tt,
     [Popen [npm_path; lit "list"; dcp_client; lit "--no-update-notifier"]]
       ++ [Popen [npm_path; lit "view"; dcp_client; lit "version";
                  lit "--no-update-notifier"]]
       ++ [Popen [npm_path; lit "ls"; dcp_client; lit "--json=true";
                  lit "--no-update-notifier"]]
       ++ [Printed (lit "installing version " ++ lit "4.10.0" ++ lit " of "
                        ++ dcp_client);
           Popen [npm_path; lit "--quiet"; lit "install";
                  dcp_client ++ lit "@" ++ lit "4.10.0";
                  lit "--no-update-notifier"]]).
Proof.
  apply (npm_checker_installs_the_latest_over_an_older_version
           JSON.loads py_default npm_path (npm_listed (lit "4.10.0")) dcp_client
           (lit "4.2.1") (lit "4.10.0") [4; 2; 1]%Z [4; 10; 0]%Z 0%Z 0%Z).
  - vm_compute. reflexivity.
  - vm_compute. reflexivity.
  - vm_compute. reflexivity.
  - vm_compute. reflexivity.
  - vm_compute. reflexivity.
  - vm_compute. reflexivity.
  - reflexivity.
  - vm_compute. reflexivity.
Defined.

Lemma Npm_init_raises_before_installing_witness :
  Npm_init JSON.loads py_default npm_path npm_empty_object bare_linux
  = (Raised (Builtin (KeyError (lit "node"))),
     [Popen [npm_path; lit "version"; lit "--json=true";
             lit "--no-update-notifier"]]).
Proof.
  apply (proj2 (Npm_init_raises_before_installing
                  JSON.loads py_default npm_path npm_empty_object bare_linux) 0%Z []).
  - vm_compute. reflexivity.
  - vm_compute. reflexivity.
  - vm_compute. reflexivity.
Defined.

(** ** The lines the monitor reads, timeouts and interrupts *)

(** X28.  What the monitor does with a line that is text (and not the
    empty string that [readline] returns at the end of the output).  While the
    companion process has not exited ([poll()] is [None]), a line that
    parses as a structured message whose declared type is [done] makes the
    monitor acquire the write lock, set the flag to false, release the
    lock and continue; every other line leaves the state unchanged, and is
    printed, stripped of surrounding white space, unless nothing is left
    of it.  When [poll()] returns an exit code the monitor clears the flag
    under the write lock and stops, whatever the line is. *)
Theorem monitor_classifies_decoded_lines
        (json_loads : str -> option pyobj) (raw : bytes) (line : str)
        (w : world) :
  decode_utf8 raw = inr line ->
  line <> [] ->
  monitor_iter json_loads raw None w =
    (if is_completion json_loads line then
       Result (Val Continue) (with_running false w)
              [(Monitor, acquire_write); (Monitor, write_flag false);
               (Monitor, release_write)]
     else
       Result (Val Continue) w
              (if 0 <? len (strip line) then [(Monitor, print (strip line))]
               else [])) /\
  forall code,
    monitor_iter json_loads raw (Some code) w =
      Result (Val Break) (with_running false (with_reaped true w))
             [(Monitor, acquire_write); (Monitor, write_flag false);
              (Monitor, release_write)].
Proof.
  intros Hd Hne. split; [|intros code; now rewrite monitor_iter_eq, Hd].
  rewrite monitor_iter_eq, Hd. rewrite bool_decide_eq_false_2 by exact Hne.
  unfold forwarded. rewrite bool_decide_eq_false_2 by exact Hne. reflexivity.
Qed.

Lemma monitor_classifies_decoded_lines_witness :
  monitor_iter JSON.loads done_line None w_running =
    Result (Val Continue) w0
           [(Monitor, acquire_write); (Monitor, write_flag false);
            (Monitor, release_write)].
Proof.
  assert (Hd : decode_utf8 done_line = inr done_text) by (vm_compute; reflexivity).
  assert (H : done_text <> []) by discriminate.
  rewrite (proj1 (monitor_classifies_decoded_lines
                    JSON.loads done_line done_text w_running Hd H)).
  vm_compute. reflexivity.
Defined.

(** X29.  Take a run with timeout [T] that is still waiting after the
    iterations [before] of its wait loop, and let the clock reading of the
    next iteration [tk] exceed [start + T], no interrupt being delivered.
    Then the coordinator calls [cancel()] (with its default
    [restart=True]), clears the flag under the write lock and prints a
    message; the loop ends after one more iteration [tk1] at most,
    whatever would follow; [run] returns the variable set, the flag is
    false, and the companion process has another process id than before
    the call. *)
Theorem timeout_cancels_clears_and_returns
        (json_loads : str -> option pyobj) (script : str) (vars : option loc)
        (T : Z) (e : env) (w : world)
        (before : list tick) (tk tk1 : tick) (rest : list tick) :
  ticks e = before ++ tk :: tk1 :: rest ->
  out (run json_loads script vars (Some T) (with_ticks before e) w) = Spin ->
  interrupt tk = None ->
  interrupt tk1 = None ->
  (T < now tk - start e)%Z ->
  pid w < next_pid w ->
  let r := run json_loads script vars (Some T) e w in
  out r = Val (Some (default run_default_vars vars)) /\
  NODE_IS_RUNNING (post r) = false /\
  pid (post r) <> pid w /\
  (exists l1 w1 l2,
      evs r = l1 ++ cancel_trace w1 ++ clear_trace Coordinator
                 ++ [(Coordinator,
                      print (lit "Process took longer than " ++ str_of_int T))]
                 ++ l2) /\
  r = run json_loads script vars (Some T)
          (with_ticks (before ++ [tk; tk1]) e) w.
Proof.
  intros Hticks Hspin Hi Hi1 HT Hwf. cbv zeta.
  rewrite (run_with_ticks json_loads script vars (Some T) e w), Hticks.
  destruct (run_resume json_loads script vars (Some T) e w before
                       (tk :: tk1 :: rest) Hspin) as (Hev & ->).
  destruct (run_resume json_loads script vars (Some T) e w before
                       [tk; tk1] Hspin) as (_ & ->).
  set (r0 := run json_loads script vars (Some T) (with_ticks before e) w) in *.
  destruct (timeout_two_ticks json_loads T (start e) tk tk1 rest (post r0)
                              Hi Hi1 HT) as (Heq & Hout & Hpid & l1 & w1 & l2 & Hevs).
  destruct (wait_loop_spec json_loads (Some T) (start e) true
                           (tk :: tk1 :: rest) (post r0))
    as (_ & _ & _ & _ & Hfl & _).
  rewrite <- Heq.
  set (rl := wait_loop json_loads (Some T) (start e) true
                       (tk :: tk1 :: rest) (post r0)) in *.
  rewrite Hout. cbn [out post evs NODE_IS_RUNNING pid with_heap].
  split; [reflexivity|].
  split; [apply Hfl; [discriminate | exact Hout]|].
  split; [destruct Hev as (_ & Hn & _); lia|].
  split; [|reflexivity].
  exists (evs r0 ++ l1), w1, (l2 ++ [(Coordinator, syncfrom (pulled e))]).
  rewrite Hevs. unfold timeout_trace. now rewrite <- !app_assoc.
Qed.

Lemma timeout_cancels_clears_and_returns_witness :
  let r := run JSON.loads script0 None (Some 5%Z) env_slow w0 in
  out r = Val (Some run_default_vars) /\
  NODE_IS_RUNNING (post r) = false /\
  pid (post r) <> pid w0.
Proof.
  pose proof (timeout_cancels_clears_and_returns
                JSON.loads script0 None 5%Z env_slow w0
                [quiet_tick 1; quiet_tick 3] (quiet_tick 6) (quiet_tick 7) [])
    as H.
  cbv zeta in H.
  destruct H as (H1 & H2 & H3 & _).
  - reflexivity.
  - vm_compute. reflexivity.
  - reflexivity.
  - reflexivity.
  - vm_compute. reflexivity.
  - vm_compute. reflexivity.
  - split; [exact H1 | split; [exact H2 | exact H3]].
Defined.

(** X30.  When a [KeyboardInterrupt] is delivered in the [try] of the wait
    loop of a run that is still waiting, at a point where the coordinator
    holds nothing of the lock (before the read lock is taken, or after it
    is released), the handler calls [cancel()] (with its default
    [restart=True]), clears the flag under the write lock and raises
    [KeyboardInterrupt] again: [run] ends with that exception, no variable
    is pulled and the dict objects are untouched. *)
Theorem interrupt_in_the_try_cancels_clears_and_propagates
        (json_loads : str -> option pyobj) (script : str) (vars : option loc)
        (timeout : option Z) (e : env) (w : world)
        (before : list tick) (tk : tick) (rest : list tick) (p : ipoint) :
  ticks e = before ++ tk :: rest ->
  out (run json_loads script vars timeout (with_ticks before e) w) = Spin ->
  interrupt tk = Some p ->
  p = BeforeAcquire \/ p = AfterRelease ->
  let r := run json_loads script vars timeout e w in
  out r = Exc KeyboardInterrupt /\
  (exists l w1,
      evs r = l ++ cancel_trace w1 ++ clear_trace Coordinator
                ++ [(Coordinator, print (lit "Process was interrupted."))] /\
      post r = with_running false (respawned w1)) /\
  NODE_IS_RUNNING (post r) = false /\
  (forall t d, ~ In (t, syncfrom d) (evs r)) /\
  heap (post r) = heap w.
Proof.
  intros Hticks Hspin Hi Hp0. cbv zeta.
  rewrite (run_with_ticks json_loads script vars timeout e w), Hticks.
  destruct (run_resume json_loads script vars timeout e w before
                       (tk :: rest) Hspin) as (Hev & ->).
  assert (Hpre : forall t d,
             ~ In (t, syncfrom d)
                  (evs (run json_loads script vars timeout (with_ticks before e) w))).
  { intros t d. rewrite run_eq. cbv zeta.
    cbn [pipe early start ticks pulled with_ticks].
    pose proof (write_tame (pipe e) script (with_running true w)) as Hw.
    destruct (write_out (pipe e) script (with_running true w))
      as [(rc & Hrc)|(_ & Hrc)].
    2:{ revert Hspin. rewrite run_eq. cbv zeta.
        cbn [pipe early start ticks pulled with_ticks]. rewrite Hrc. discriminate. }
    rewrite Hrc.
    assert (Hd : forall t d, ~ In (t, syncfrom d)
                               (dispatch_trace (default run_default_vars vars) w)).
    { intros t' d' Hin. cbn in Hin.
      repeat (destruct Hin as [Hin|Hin]; [discriminate Hin|]). destruct Hin. }
    assert (Hns : forall l, no_sync l -> ~ In (t, syncfrom d) l).
    { intros l Hl Hin. now specialize (Hl _ _ Hin). }
    destruct (rc <? 0)%Z; cbn [evs].
    - intros Hin. apply in_app_or in Hin as [Hin|Hin]; [now apply Hd in Hin|].
      apply in_app_or in Hin as [Hin|Hin].
      + revert Hin. now apply Hns, tame_no_sync'.
      + destruct Hin as [Hin|[]]. discriminate Hin.
    - destruct (monitor_run_spec json_loads (early e)
                  (post (write (pipe e) script (with_running true w))))
        as (wm & lm & Hm & _ & _ & _ & _ & Hlm).
      rewrite Hm. cbn [post evs].
      destruct (wait_loop_spec json_loads timeout (start e) (NODE_IS_RUNNING wm)
                               before wm) as (_ & _ & Hnsl & Hcases & _).
      assert (Hmid : ~ In (t, syncfrom d)
                        (dispatch_trace (default run_default_vars vars) w
                           ++ evs (write (pipe e) script (with_running true w))
                           ++ lm ++ [(Coordinator, read_flag (NODE_IS_RUNNING wm))]
                           ++ evs (wait_loop json_loads timeout (start e)
                                             (NODE_IS_RUNNING wm) before wm))).
      { intros Hin. apply in_app_or in Hin as [Hin|Hin]; [now apply Hd in Hin|].
        apply in_app_or in Hin as [Hin|Hin];
          [revert Hin; now apply Hns, tame_no_sync'|].
        apply in_app_or in Hin as [Hin|Hin];
          [revert Hin; now apply Hns, tame_no_sync'|].
        destruct Hin as [Hin|Hin]; [discriminate Hin|].
        revert Hin. now apply Hns. }
      revert Hspin. rewrite run_eq. cbv zeta.
      cbn [pipe early start ticks pulled with_ticks]. rewrite Hrc.
      destruct (rc <? 0)%Z eqn:Hneg; [discriminate|]. rewrite Hm. cbn [post evs].
      destruct (out (wait_loop json_loads timeout (start e) (NODE_IS_RUNNING wm)
                               before wm)) as [[]|x| |]; cbn [out evs];
        try discriminate. intros _. exact Hmid. }
  set (r0 := run json_loads script vars timeout (with_ticks before e) w) in *.
  rewrite wait_loop_cons. cbv zeta.
  destruct (monitor_run_spec json_loads (mon tk) (post r0))
    as (wm & lm & -> & Hp & Hn & Hh & _ & Hlm). cbn [post evs].
  assert (Hres : wait_iter timeout (start e) tk wm
                 = Result (Exc KeyboardInterrupt) (with_running false (respawned wm))
                          (interrupted_prefix p (NODE_IS_RUNNING wm)
                             ++ interrupt_trace wm))
    by (rewrite wait_iter_eq, Hi; destruct Hp0 as [-> | ->]; reflexivity).
  rewrite Hres. cbn [out post evs].
  split; [reflexivity|]. split; [|split; [reflexivity|split]].
  - exists (evs r0 ++ lm ++ interrupted_prefix p (NODE_IS_RUNNING wm)), wm.
    split; [|reflexivity]. unfold interrupt_trace. now rewrite <- !app_assoc.
  - intros t d Hin. apply in_app_or in Hin as [Hin|Hin]; [now apply Hpre in Hin|].
    apply in_app_or in Hin as [Hin|Hin].
    + apply tame_no_sync' in Hlm. now specialize (Hlm _ _ Hin).
    + pose proof (no_sync_interrupted p (NODE_IS_RUNNING wm) wm) as Hns.
      now specialize (Hns _ _ Hin).
  - simpl. destruct Hev as (Hh0 & _). congruence.
Qed.

Lemma interrupt_in_the_try_cancels_clears_and_propagates_witness :
  let r := run JSON.loads script0 None None
               (Env PipeOk [] 0
                    [quiet_tick 1; Tick [] (Some AfterRelease) 2; quiet_tick 3] ∅)
               w0 in
  out r = Exc KeyboardInterrupt /\ NODE_IS_RUNNING (post r) = false /\
  heap (post r) = heap w0.
Proof.
  pose proof (interrupt_in_the_try_cancels_clears_and_propagates
                JSON.loads script0 None None
                (Env PipeOk [] 0
                     [quiet_tick 1; Tick [] (Some AfterRelease) 2; quiet_tick 3] ∅)
                w0
                [quiet_tick 1] (Tick [] (Some AfterRelease) 2) [quiet_tick 3]
                AfterRelease) as H.
  cbv zeta in H.
  destruct H as (H1 & _ & H2 & _ & H3).
  - reflexivity.
  - vm_compute. reflexivity.
  - reflexivity.
  - now right.
  - split; [exact H1 | split; [exact H2 | exact H3]].
Defined.

